(** * trymerge.py: a shallow embedding of the merge bot's decision core

    The development follows [.github/scripts/trymerge.py].  Python values are
    embedded as follows.

    - [str] is [string], a character standing for its code point;
      [x in s] on strings is [str_in], [s.upper()] is
      [upper] (the texts the forge and the analytics store hand over are
      ASCII enumeration names, so the ASCII case mapping is the one modelled);
      the word class [\w] of the patterns follows Python's tables, see
      [is_word].
    - A [set] of strings is the list of its elements in the order they were
      added.  In which order the interpreter enumerates it depends on the
      hash seed of the run: that order is an input of the model, [set_list].
    - [Optional[T]] is [option T]; [None] is [None].
    - A [dict] whose iteration order the code observes (the check maps, the
      workflow map) is an insertion-ordered association list, see [dict_get]
      and [dict_set].  The two historical-job maps of [get_classifications] are
      only ever looked up, they are [gmap string Job].
    - Python integers are [Z]; lengths are [nat] and are injected where the
      code compares them with an integer.
    - A raised exception is a value of type [exn] returned on the left of a
      sum; forge, analytics-store and git answers are inputs of the model. *)

From Stdlib Require Import ZArith String Ascii List Lia.
From stdpp Require Import gmap strings list pretty.

Open Scope string_scope.
Open Scope list_scope.

(** ** Part I: the program *)

(** *** Strings *)

(** [x in s] for two strings: [x] occurs as a contiguous substring of [s]. *)
Fixpoint str_in (x s : string) : bool :=
  String.prefix x s ||
  match s with
  | EmptyString => false
  | String _ s' => str_in x s'
  end.

Definition upper_ascii (c : ascii) : ascii :=
  let n := nat_of_ascii c in
  if (97 <=? n)%nat && (n <=? 122)%nat then ascii_of_nat (n - 32) else c.

(** [s.upper()] *)
Fixpoint upper (s : string) : string :=
  match s with
  | EmptyString => EmptyString
  | String c s' => String (upper_ascii c) (upper s')
  end.

(** [sep.join(l)] *)
Fixpoint join (sep : string) (l : list string) : string :=
  match l with
  | [] => ""
  | [x] => x
  | x :: l' => x +:+ sep +:+ join sep l'
  end.

(** *** Insertion-ordered dictionaries keyed by strings *)

Section dict.
Context {V : Type}.

(** [d.get(k)] *)
Fixpoint dict_get (k : string) (d : list (string * V)) : option V :=
  match d with
  | [] => None
  | (k', v) :: d' => if String.eqb k k' then Some v else dict_get k d'
  end.

(** [d[k] = v]: an existing key keeps its position, a new key goes last. *)
Fixpoint dict_set (k : string) (v : V) (d : list (string * V)) : list (string * V) :=
  match d with
  | [] => [(k, v)]
  | (k', v') :: d' =>
      if String.eqb k k' then (k, v) :: d' else (k', v') :: dict_set k v d'
  end.

(** [d.keys()] *)
Definition dict_keys (d : list (string * V)) : list string := map fst d.

(** [k in d] *)
Definition dict_mem (k : string) (d : list (string * V)) : bool :=
  match dict_get k d with Some _ => true | None => false end.
End dict.

(** *** Check states *)

Record JobCheckState := mkJobCheckState {
  jcs_name : string;
  jcs_url : string;
  jcs_status : option string;
  jcs_classification : option string
}.

Abbreviation JobNameToStateDict := (list (string * JobCheckState)).

Record WorkflowCheckState := mkWorkflowCheckState {
  wcs_name : string;
  wcs_url : string;
  wcs_status : option string;
  wcs_jobs : JobNameToStateDict
}.

(** [check.classification = c] on a check object. *)
Definition set_classification (check : JobCheckState) (c : string) : JobCheckState :=
  {| jcs_name := jcs_name check; jcs_url := jcs_url check;
     jcs_status := jcs_status check; jcs_classification := Some c |}.

Definition is_passing_status (status : option string) : bool :=
  match status with
  | None => false
  | Some s => bool_decide (upper s ∈ ["SUCCESS"; "SKIPPED"; "NEUTRAL"])
  end.

(** *** Historical jobs and flaky rules *)

(** One row of [get_rockset_results]: the columns the classifier reads. *)
Record Job := mkJob {
  job_workflow_name : string;
  job_name : string;
  job_id : Z;
  job_conclusion : option string;
  job_head_sha : string;
  job_failure_captures : option (list string);
  job_steps : Z
}.

Record FlakyRule := mkFlakyRule {
  fr_name : string;
  fr_captures : list string
}.

(** [FlakyRule.matches(self, job)]; [job] is [None] when the job map has no
    entry, and [failure_captures] is [None] when the store returned null. *)
Definition matches (self : FlakyRule) (job : option Job) : bool :=
  match job with
  | None => false
  | Some j =>
      str_in (fr_name self) (job_name j)
      && match job_failure_captures j with
         | None => false
         | Some caps =>
             forallb (fun capture => bool_decide (capture ∈ caps)) (fr_captures self)
         end
  end.

(** The local function [insert] of [get_classifications]. *)
Module Historical.
Definition insert (d : gmap string Job) (key : string) (val : Job) : gmap string Job :=
  match d !! key with
  | None => <[key := val]> d
  | Some cur =>
      if bool_decide (job_conclusion cur = Some "success") then d
      else if bool_decide (job_id cur < job_id val)%Z then <[key := val]> d
      else d
  end.
End Historical.

(** The key under which a row is filed: ["<workflow_name> / <name>"]. *)
Definition job_key (r : Job) : string :=
  job_workflow_name r +:+ " / " +:+ job_name r.

(** The loop that files every row under the head sha or the merge base;
    the pair is [(head_sha_jobs, merge_base_jobs)]. *)
Definition file_jobs (head_sha : string) (rockset_results : list Job)
  : gmap string Job * gmap string Job :=
  fold_left
    (fun maps rockset_result =>
       if bool_decide (job_head_sha rockset_result = head_sha)
       then (Historical.insert maps.1 (job_key rockset_result) rockset_result, maps.2)
       else (maps.1, Historical.insert maps.2 (job_key rockset_result) rockset_result))
    rockset_results (∅, ∅).

(** The body of the loop over [checks.items()]: what [res[name]] is once the
    iteration for [name] is over. *)
Definition classify (flaky_rules_json : list FlakyRule)
    (head_sha_jobs merge_base_jobs : gmap string Job)
    (name : string) (check : JobCheckState) : JobCheckState :=
  if bool_decide (jcs_status check = Some "SUCCESS") then check
  else
    let head_sha_job := head_sha_jobs !! name in
    let merge_base_job := merge_base_jobs !! name in
    if match head_sha_job, merge_base_job with
       | Some h, Some m =>
           bool_decide (job_conclusion h = job_conclusion m)
           && bool_decide (job_failure_captures h = job_failure_captures m)
       | _, _ => false
       end
    then set_classification check "BROKEN_TRUNK"
    else if match head_sha_job with
            | Some h => bool_decide (job_steps h ≤ 1)%Z
            | None => false
            end
    then set_classification check "FLAKY"
    else if existsb (fun rule => matches rule head_sha_job) flaky_rules_json
    then set_classification check "FLAKY"
    else check.

(** [get_classifications]; the flaky rules and the rows of the analytics store
    are what [get_flaky_rules()] and [get_rockset_results(...)] returned. *)
Definition get_classifications (flaky_rules_json : list FlakyRule)
    (rockset_results : list Job) (head_sha : string)
    (checks : JobNameToStateDict) : JobNameToStateDict :=
  let maps := file_jobs head_sha rockset_results in
  fold_left
    (fun res item => dict_set item.1 (classify flaky_rules_json maps.1 maps.2 item.1 item.2) res)
    checks [].

(** *** categorize_checks *)

Abbreviation CheckList := (list (string * option string)).

(** The state of the second loop: [(pending_checks, failed_checks, ok_failed_checks)]. *)
Definition categorize_step (check_runs : JobNameToStateDict)
    (acc : CheckList * CheckList * CheckList) (checkname : string)
  : CheckList * CheckList * CheckList :=
  let '(pending_checks, failed_checks, ok_failed_checks) := acc in
  match dict_get checkname check_runs with
  | None => acc (* not reached: [checkname] is a key of [check_runs] *)
  | Some c =>
      match jcs_status c with
      | None => (pending_checks ++ [(checkname, Some (jcs_url c))], failed_checks, ok_failed_checks)
      | Some _ =>
          if negb (is_passing_status (jcs_status c)) then
            if bool_decide (jcs_classification c ∈ [Some "BROKEN_TRUNK"; Some "FLAKY"])
            then (pending_checks, failed_checks, ok_failed_checks ++ [(checkname, Some (jcs_url c))])
            else (pending_checks, failed_checks ++ [(checkname, Some (jcs_url c))], ok_failed_checks)
          else acc
      end
  end.

Definition relevant_checknames (check_runs : JobNameToStateDict)
    (required_checks : list string) : list string :=
  List.filter (fun name => existsb (fun x => str_in x name) required_checks)
    (dict_keys check_runs).

Definition categorize_checks (check_runs : JobNameToStateDict)
    (required_checks : list string) (ok_failed_checks_threshold : Z)
  : CheckList * CheckList :=
  let pending_checks :=
    fold_left
      (fun pending checkname =>
         if forallb (fun x => negb (str_in checkname x)) (dict_keys check_runs)
         then pending ++ [(checkname, None)] else pending)
      required_checks [] in
  let '(pending_checks, failed_checks, ok_failed_checks) :=
    fold_left (categorize_step check_runs)
      (relevant_checknames check_runs required_checks)
      (pending_checks, [], []) in
  let failed_checks :=
    if (Z.of_nat (length ok_failed_checks) >? ok_failed_checks_threshold)%Z
    then failed_checks ++ ok_failed_checks else failed_checks in
  (pending_checks, failed_checks).

(** *** The check aggregator *)

(** A node of a [checkRuns] page. *)
Record CheckRun := mkCheckRun {
  cr_name : string;
  cr_conclusion : option string;
  cr_detailsUrl : string
}.

Record WorkflowRun := mkWorkflowRun {
  wr_workflow_name : string;
  wr_url : string
}.

(** A check-suite node.  [cs_checkRuns] lists the pages of its check runs in
    the order the code sees them: the page that came with the suite, then the
    pages the callback [get_next_checkruns_page] returns while [hasNextPage]
    holds; [[]] stands for a [checkRuns] field that is [None].  An entry of a
    page that is not a dictionary is [None]. *)
Record CheckSuite := mkCheckSuite {
  cs_workflowRun : option WorkflowRun;
  cs_conclusion : option string;
  cs_checkRuns : list (list (option CheckRun))
}.

Definition get_check_run_name_prefix (workflow_run : option WorkflowRun) : string :=
  match workflow_run with
  | None => ""
  | Some wr => wr_workflow_name wr +:+ " / "
  end.

(** The body of the loop over [checkruns["nodes"]]. *)
Definition add_checkrun (workflow_run : option WorkflowRun)
    (jobs : JobNameToStateDict) (checkrun_node : option CheckRun) : JobNameToStateDict :=
  match checkrun_node with
  | None => jobs (* not a dictionary: warn and continue *)
  | Some node =>
      let checkrun_name := get_check_run_name_prefix workflow_run +:+ cr_name node in
      let existing_checkrun := dict_get checkrun_name jobs in
      if match existing_checkrun with
         | None => true
         | Some existing => negb (is_passing_status (jcs_status existing))
         end
      then dict_set checkrun_name
             (mkJobCheckState checkrun_name (cr_detailsUrl node) (cr_conclusion node) None)
             jobs
      else jobs
  end.

(** The [while checkruns is not None] loop: every page of the suite in turn. *)
Definition add_checkruns (workflow_run : option WorkflowRun)
    (jobs : JobNameToStateDict) (pages : list (list (option CheckRun))) : JobNameToStateDict :=
  fold_left (fun jobs page => fold_left (add_checkrun workflow_run) page jobs) pages jobs.

Definition with_jobs (w : WorkflowCheckState) (jobs : JobNameToStateDict) : WorkflowCheckState :=
  {| wcs_name := wcs_name w; wcs_url := wcs_url w; wcs_status := wcs_status w;
     wcs_jobs := jobs |}.

(** The aggregator's state: [workflows] and [no_workflow_obj]. *)
Record Workflows := mkWorkflows {
  workflows : list (string * WorkflowCheckState);
  no_workflow_obj : WorkflowCheckState
}.

(** The body of the loop of [add_conclusions] for one edge. *)
Definition add_conclusion (st : Workflows) (node : CheckSuite) : Workflows :=
  let workflow_run := cs_workflowRun node in
  let checkruns := cs_checkRuns node in
  match workflow_run with
  | Some wr =>
      let workflow_name := wr_workflow_name wr in
      let workflow_conclusion := cs_conclusion node in
      if bool_decide (workflow_conclusion = Some "CANCELLED")
         && dict_mem workflow_name (workflows st)
      then st (* continue *)
      else
        let workflows1 :=
          if negb (dict_mem workflow_name (workflows st))
          then dict_set workflow_name
                 (mkWorkflowCheckState workflow_name (wr_url wr) workflow_conclusion [])
                 (workflows st)
          else workflows st in
        match dict_get workflow_name workflows1 with
        | None => st (* not reached: the key was just ensured *)
        | Some workflow_obj =>
            {| workflows :=
                 dict_set workflow_name
                   (with_jobs workflow_obj
                      (add_checkruns workflow_run (wcs_jobs workflow_obj) checkruns))
                   workflows1;
               no_workflow_obj := no_workflow_obj st |}
        end
  | None =>
      {| workflows := workflows st;
         no_workflow_obj :=
           with_jobs (no_workflow_obj st)
             (add_checkruns workflow_run (wcs_jobs (no_workflow_obj st)) checkruns) |}
  end.

Definition add_conclusions (st : Workflows) (edges : list CheckSuite) : Workflows :=
  fold_left add_conclusion edges st.

(** The state after every page of check suites went through [add_conclusions]. *)
Definition aggregate (checksuites : list (list CheckSuite)) : Workflows :=
  fold_left add_conclusions checksuites
    {| workflows := []; no_workflow_obj := mkWorkflowCheckState "" "" None [] |}.

(** [res[k] = v] for every item of [d], in order. *)
Definition dict_update {V : Type} (res d : list (string * V)) : list (string * V) :=
  fold_left (fun res item => dict_set item.1 item.2 res) d res.

(** The flattening loop at the end of [add_workflow_conclusions]. *)
Definition flatten (st : Workflows) : JobNameToStateDict :=
  let res :=
    fold_left
      (fun res item =>
         let workflow := item.2 in
         if (0 <? length (wcs_jobs workflow))%nat
         then dict_update res (wcs_jobs workflow)
         else dict_set item.1
                (mkJobCheckState (wcs_name workflow) (wcs_url workflow)
                   (wcs_status workflow) None) res)
      (workflows st) [] in
  dict_update res (wcs_jobs (no_workflow_obj st)).

(** [add_workflow_conclusions]; [checksuites] lists the pages of check suites:
    the one handed in, then those the callback [get_next_checksuites] returns
    while [hasNextPage] holds. *)
Definition add_workflow_conclusions (checksuites : list (list CheckSuite))
  : JobNameToStateDict :=
  flatten (aggregate checksuites).

(** *** Numbered labels *)

(** The body of the loop of [add_numbered_label]. *)
Definition next_label (labels : list string) (label_base : string)
    (label : string) (i : nat) : string :=
  if bool_decide (label ∈ labels)
  then label_base +:+ "X" +:+ pretty (i + 2)%nat
  else label.

(** The label [add_numbered_label] hands to [gh_add_labels]; [labels] is
    [self.get_labels()]. *)
Definition add_numbered_label (labels : list string) (label_base : string) : string :=
  fold_left (next_label labels label_base) (seq 0 (length labels)) label_base.

(** *** Regular expressions

    The patterns of the script are embedded as terms of [regex] and run by a
    backtracking matcher with Python's priorities: alternatives are tried in
    order, [?], [*] and [+] prefer to take their operand, [*?] and [+?] prefer
    not to.  All patterns are compiled with [re.MULTILINE], so [Bol] and [Eol]
    are its [^] and [$].  The matcher threads the character before the current
    position ([None] at the start of the text) for [^]. *)

Inductive regex :=
| Eps
| Chr (c : ascii)
| Cls (p : ascii -> bool)
| Bol
| Eol
| Cat (r1 r2 : regex)
| Opt (r : regex)
| Star (r : regex)
| LazyStar (r : regex).

Definition Plus (r : regex) : regex := Cat r (Star r).
Definition LazyPlus (r : regex) : regex := Cat r (LazyStar r).

(** A literal text. *)
Fixpoint Str (s : string) : regex :=
  match s with
  | EmptyString => Eps
  | String c EmptyString => Chr c
  | String c s' => Cat (Chr c) (Str s')
  end.

Definition LF : ascii := "010"%char.
Definition CR : ascii := "013"%char.

Definition at_bol (prev : option ascii) : bool :=
  match prev with None => true | Some c => Ascii.eqb c LF end.

Definition at_eol (s : string) : bool :=
  match s with EmptyString => true | String c _ => Ascii.eqb c LF end.

Section matcher.
Context {A : Type}.

(** The iterations of a star over the operand [step], at most [n] of them;
    an iteration has to consume a character.  The greedy loop tries one
    more iteration before it hands over to [k], the lazy one after. *)
Fixpoint star_loop
    (step : option ascii -> string -> (option ascii -> string -> option A) -> option A)
    (k : option ascii -> string -> option A)
    (n : nat) (prev : option ascii) (s : string) {struct n} : option A :=
  match n with
  | O => k prev s
  | S n' =>
      match step prev s
              (fun prev' s' =>
                 if (String.length s' <? String.length s)%nat
                 then star_loop step k n' prev' s' else None) with
      | Some a => Some a
      | None => k prev s
      end
  end.

Fixpoint lazy_star_loop
    (step : option ascii -> string -> (option ascii -> string -> option A) -> option A)
    (k : option ascii -> string -> option A)
    (n : nat) (prev : option ascii) (s : string) {struct n} : option A :=
  match n with
  | O => k prev s
  | S n' =>
      match k prev s with
      | Some a => Some a
      | None =>
          step prev s
            (fun prev' s' =>
               if (String.length s' <? String.length s)%nat
               then lazy_star_loop step k n' prev' s' else None)
      end
  end.

(** [rmatch r prev s k]: match [r] at the head of [s] and hand the rest of
    the text to [k]; when [k] refuses, the next way of matching [r] is
    tried. *)
Fixpoint rmatch (r : regex) (prev : option ascii) (s : string)
    (k : option ascii -> string -> option A) {struct r} : option A :=
  match r with
  | Eps => k prev s
  | Chr c =>
      match s with
      | String c' s' => if Ascii.eqb c c' then k (Some c') s' else None
      | EmptyString => None
      end
  | Cls p =>
      match s with
      | String c' s' => if p c' then k (Some c') s' else None
      | EmptyString => None
      end
  | Bol => if at_bol prev then k prev s else None
  | Eol => if at_eol s then k prev s else None
  | Cat r1 r2 => rmatch r1 prev s (fun prev' s' => rmatch r2 prev' s' k)
  | Opt r' =>
      match rmatch r' prev s k with
      | Some a => Some a
      | None => k prev s
      end
  | Star r' => star_loop (rmatch r') k (S (String.length s)) prev s
  | LazyStar r' => lazy_star_loop (rmatch r') k (S (String.length s)) prev s
  end.

(** [pattern.search]: the first position, from the left, where [try]
    succeeds. *)
Fixpoint search_go (try : option ascii -> string -> option A)
    (prev : option ascii) (s : string) : option A :=
  match try prev s with
  | Some a => Some a
  | None =>
      match s with
      | EmptyString => None
      | String c s' => search_go try (Some c) s'
      end
  end.
End matcher.

(** A match of [r] at the head of [s]: the last character consumed (or
    [prev]) and the text left. *)
Definition match_at (r : regex) (prev : option ascii) (s : string)
  : option (option ascii * string) :=
  rmatch r prev s (fun prev' s' => Some (prev', s')).

(** The scan of [re.sub(r, repl, s)] from a position on: a match is replaced
    and the scan resumes behind it; an empty match is replaced and one
    character is copied; without a match one character is copied. *)
Fixpoint sub_go (r : regex) (repl : string) (fuel : nat)
    (prev : option ascii) (s : string) : string :=
  match fuel with
  | O => s
  | S fuel' =>
      match match_at r prev s with
      | Some (prev', rest) =>
          if (String.length rest <? String.length s)%nat
          then repl +:+ sub_go r repl fuel' prev' rest
          else match s with
               | EmptyString => repl
               | String c s' => repl +:+ String c (sub_go r repl fuel' (Some c) s')
               end
      | None =>
          match s with
          | EmptyString => EmptyString
          | String c s' => String c (sub_go r repl fuel' (Some c) s')
          end
      end
  end.

Definition re_sub (r : regex) (repl s : string) : string :=
  sub_go r repl (S (String.length s)) None s.

(** [\w] in a pattern on [str]: the underscore and the characters Python
    counts as alphanumeric.  A character of a text stands for its code
    point, so that the texts of the model are those over the code points
    below 256.  Among these the alphanumeric ones are the digits and the
    letters of ASCII and, from 128 on, the code points 170, 178, 179, 181,
    185, 186, 188 to 190 (ordinal indicators, superscript digits, the micro
    sign and the fractions), 192 to 214, 216 to 246 and 248 to 255 (the
    letters, which leave out the signs of multiplication and division). *)
Definition is_word (c : ascii) : bool :=
  let n := nat_of_ascii c in
  ((48 <=? n) && (n <=? 57) || (65 <=? n) && (n <=? 90)
   || (97 <=? n) && (n <=? 122) || (n =? 95)
   || (n =? 170) || (178 <=? n) && (n <=? 179) || (n =? 181)
   || (185 <=? n) && (n <=? 186) || (188 <=? n) && (n <=? 190)
   || (192 <=? n) && (n <=? 214) || (216 <=? n) && (n <=? 246)
   || (248 <=? n) && (n <=? 255))%nat.

(** [[0-9]], [.] and [[^\r\n]]. *)

Definition is_digit (c : ascii) : bool :=
  let n := nat_of_ascii c in ((48 <=? n) && (n <=? 57))%nat.

Definition not_nl (c : ascii) : bool := negb (Ascii.eqb c LF).

Definition not_crnl (c : ascii) : bool :=
  negb (Ascii.eqb c CR) && negb (Ascii.eqb c LF).

(** [r'^cc:? @\w+.*\r?\n?$'] *)
Definition RE_PR_CC_LINE : regex :=
  Cat Bol (Cat (Str "cc") (Cat (Opt (Chr ":")) (Cat (Str " @")
    (Cat (Plus (Cls is_word)) (Cat (Star (Cls not_nl))
      (Cat (Opt (Chr CR)) (Cat (Opt (Chr LF)) Eol))))))).

(** [r'Stack.*:\r?\n(\* [^\r\n]+\r?\n)+'] *)
Definition RE_GHSTACK_DESC : regex :=
  Cat (Str "Stack") (Cat (Star (Cls not_nl)) (Cat (Chr ":")
    (Cat (Opt (Chr CR)) (Cat (Chr LF)
      (Plus (Cat (Str "* ") (Cat (Plus (Cls not_crnl))
        (Cat (Opt (Chr CR)) (Chr LF))))))))).

(** [RE_DIFF_REV.search(s)], as its group 1 when there is a match; the pattern
    is [r'^Differential Revision:.+?(D[0-9]+)']. *)
Definition search_diff_rev (s : string) : option string :=
  search_go
    (fun prev s0 =>
       rmatch (Cat Bol (Cat (Str "Differential Revision:") (LazyPlus (Cls not_nl))))
         prev s0
         (fun prev1 s1 =>
            rmatch (Cat (Chr "D") (Plus (Cls is_digit))) prev1 s1
              (fun _ s2 =>
                 Some (String.substring 0 (String.length s1 - String.length s2) s1))))
    None s.

(** *** Merge rules, exceptions and the pull-request snapshot *)

Record MergeRule := mkMergeRule {
  mr_name : string;
  mr_patterns : list string;
  mr_approved_by : list string;
  mr_mandatory_checks_name : option (list string)
}.

(** The exceptions the modelled functions raise.  [IndexError] is the failure
    of [nodes[-1]] on an empty list, [ValueError] that of unpacking
    [approver.split("/")] into two names. *)
Inductive exn :=
| RuntimeError (msg : string)
| MandatoryChecksMissingError (msg : string) (rule : option MergeRule)
| PostCommentError (msg : string)
| IndexError
| ValueError.

Definition bind {A B : Type} (m : exn + A) (k : A -> exn + B) : exn + B :=
  match m with
  | inl e => inl e
  | inr a => k a
  end.

Notation "'let*' x ':=' m 'in' k" := (bind m (fun x => k))
  (at level 10, x name, m at level 100, k at level 200).

Record GitHubComment := mkGitHubComment {
  body_text : string;
  created_at : string;
  author_login : string;
  author_association : string;
  editor_login : option string;
  database_id : Z
}.

(** A [GitHubPR] object: the answer of the composite query ([self.info]), the
    pages its continuation queries return, and the caches [self.comments] and
    [self.conclusions] as they stand when a method is entered.  Paginated
    collections list their pages in the order the object walks them. *)
Record GitHubPR := mkGitHubPR {
  pr_org : string;
  pr_project : string;
  pr_num : Z;
  pr_title : string;
  pr_body : string;
  pr_isPrivate : bool;
  pr_changedFiles : Z;
  pr_files : list (list string);
  pr_reviews : list (list (string * string));
  pr_comments_nodes : list GitHubComment;
  pr_prev_comments : list (list GitHubComment);
  pr_comments : option (list GitHubComment);
  pr_labels : list string;
  pr_last_commit_oid : string;
  pr_merge_base : string;
  pr_checksuites : list (list CheckSuite);
  pr_status_contexts : list (string * string * string);
  pr_conclusions : option JobNameToStateDict;
  pr_mergeCommit : option string
}.

(** What lies outside the code: the rule file, the pattern compiler of
    [gitutils], the team-members endpoint, the check suites of a
    land-validation commit, the flaky-rule feed and the analytics store; and
    [set_list], which is [list(s)] for a set [s] of strings: given the
    elements in the order they were added, it lists them in the order in
    which the interpreter enumerates the set, which the hash seed of the run
    decides. *)
Record Forge := mkForge {
  merge_rules : list MergeRule;
  patterns_match : list string -> string -> bool;
  team_members : string -> string -> list string;
  land_checksuites : string -> list (list CheckSuite);
  flaky_rules : list FlakyRule;
  rockset_results : string -> string -> list Job;
  set_list : list string -> list string
}.

(** The pages a [for _ in range(100)] walk reaches. *)
Definition walked {A : Type} (pages : list (list A)) : list (list A) := take 100 pages.

Definition get_changed_files (pr : GitHubPR) : exn + list string :=
  let changed_files := concat (walked (pr_files pr)) in
  if negb (Z.of_nat (length changed_files) =? pr_changedFiles pr)%Z
  then inl (RuntimeError "Changed file count mismatch")
  else inr changed_files.

(** [_get_reviews]: every page is put in front of the ones walked before it,
    then the latest state that is not [COMMENTED] is kept per author. *)
Definition _get_reviews (pr : GitHubPR) : list (string * string) :=
  let _reviews := fold_left (fun acc nodes => nodes ++ acc) (walked (pr_reviews pr)) [] in
  fold_left
    (fun reviews item =>
       if negb (String.eqb item.2 "COMMENTED") then dict_set item.1 item.2 reviews
       else reviews)
    _reviews [].

Definition get_approved_by (pr : GitHubPR) : list string :=
  map fst (List.filter (fun item => String.eqb item.2 "APPROVED") (_get_reviews pr)).

Definition get_comments (pr : GitHubPR) : list GitHubComment :=
  match pr_comments pr with
  | Some comments => comments
  | None =>
      fold_left (fun acc nodes => nodes ++ acc)
        (walked (pr_comments_nodes pr :: pr_prev_comments pr)) []
  end.

Definition get_last_comment (pr : GitHubPR) : exn + GitHubComment :=
  match last (pr_comments_nodes pr) with
  | Some c => inr c
  | None => inl IndexError
  end.

Definition find_comment (id : Z) (l : list GitHubComment) : option GitHubComment :=
  List.find (fun comment => (database_id comment =? id)%Z) l.

Definition get_comment_by_id (pr : GitHubPR) (id : Z) : exn + GitHubComment :=
  let fast :=
    match pr_comments pr with
    | None => find_comment id (pr_comments_nodes pr)
    | Some _ => None
    end in
  match fast with
  | Some comment => inr comment
  | None =>
      match find_comment id (get_comments pr) with
      | Some comment => inr comment
      | None => inl (RuntimeError ("Comment with id " +:+ pretty id +:+ " not found"))
      end
  end.

Definition can_skip_internal_checks (pr : GitHubPR) (comment_id : option Z) : exn + bool :=
  match comment_id with
  | None => inr false
  | Some id =>
      let* comment := get_comment_by_id pr id in
      match editor_login comment with
      | Some _ => inr false
      | None => inr (String.eqb (author_login comment) "facebook-github-bot")
      end
  end.

Definition get_checkrun_conclusions (pr : GitHubPR) : JobNameToStateDict :=
  match pr_conclusions pr with
  | Some conclusions => conclusions
  | None =>
      fold_left
        (fun conclusions status =>
           let '(name, state, targetUrl) := status in
           dict_set name (mkJobCheckState name targetUrl (Some state) None) conclusions)
        (pr_status_contexts pr)
        (add_workflow_conclusions (pr_checksuites pr))
  end.

Definition get_diff_revision (pr : GitHubPR) : option string :=
  search_diff_rev (pr_body pr).

Definition has_internal_changes (pr : GitHubPR) : bool :=
  let checkrun_name := "Meta Internal-Only Changes Check" in
  match get_diff_revision pr with
  | None => false
  | Some _ =>
      match dict_get checkrun_name (get_checkrun_conclusions pr) with
      | None => false
      | Some check => negb (bool_decide (jcs_status check = Some "SUCCESS"))
      end
  end.

Definition get_land_checkrun_conclusions (F : Forge) (commit : string) : JobNameToStateDict :=
  add_workflow_conclusions (land_checksuites F commit).

Definition get_combined_checks_from_pr_and_land_validation (F : Forge)
    (pr : GitHubPR) (land_check_commit : option string) : JobNameToStateDict :=
  let pr_checks := get_checkrun_conclusions pr in
  let land_validation_checks :=
    match land_check_commit with
    | Some (String c s as commit) => get_land_checkrun_conclusions F commit
    | _ => []
    end in
  let merged_checks := dict_update pr_checks land_validation_checks in
  get_classifications (flaky_rules F)
    (rockset_results F (pr_last_commit_oid pr) (pr_merge_base pr))
    (pr_last_commit_oid pr) merged_checks.

(** *** The rule evaluator *)

(** [gen_new_issue_link(org, project, labels=["module: ci"])]: the two quoted
    arguments are constants of the only call. *)
Definition gen_new_issue_link (org project : string) : string :=
  "https://github.com/" +:+ org +:+ "/" +:+ project +:+ "/issues/new?"
  +:+ "labels=module%3A%20ci&" +:+ "template=bug-report.yml".

Definition MERGE_RULE_PATH : string := ".github/merge_rules.yaml".

Definition checks_to_markdown_bullets (checks : CheckList) : list string :=
  map (fun c =>
         match c.2 with
         | Some url => "- [" +:+ c.1 +:+ "](" +:+ url +:+ ")"
         | None => "- " +:+ c.1
         end)
      (take 5 checks).

(** The characters of a text, which is what iterating over a [str] yields. *)
Fixpoint chars (s : string) : list string :=
  match s with
  | EmptyString => []
  | String c s' => String c EmptyString :: chars s'
  end.

(** [s.split("/")] *)
Fixpoint split_slash (s : string) : list string :=
  match s with
  | EmptyString => [EmptyString]
  | String c s' =>
      if Ascii.eqb c "/"%char then EmptyString :: split_slash s'
      else match split_slash s' with
           | h :: t => String c h :: t
           | [] => [String c EmptyString]
           end
  end.

(** A [set] of strings is the list of its elements without repetition, in
    the order they were first added; membership and size are read off that
    list, the enumeration of the set is [set_list] of the forge. *)
Definition set_add (x : string) (l : list string) : list string :=
  if bool_decide (x ∈ l) then l else l ++ [x].

Definition set_update (l : list string) (xs : list string) : list string :=
  fold_left (fun l x => set_add x l) xs l.

(** The loop that builds [rule_approvers_set]. *)
Definition expand_approvers (F : Forge) (approved_by : list string) : exn + list string :=
  fold_left
    (fun acc approver =>
       let* rule_approvers_set := acc in
       if str_in "/" approver then
         match split_slash approver with
         | [org; name] => inr (set_update rule_approvers_set (team_members F org name))
         | _ => inl ValueError
         end
       else inr (set_add approver rule_approvers_set))
    approved_by (inr []).

Definition ellipsis (n : nat) : string := if (5 <? n)%nat then ", ..." else "".

(** The rejection texts of [find_matching_merge_rule].  The first one is
    built by ["\n".join((...))] around one parenthesised string, not a tuple:
    the join runs over the characters of that string. *)
Definition files_reason (rule_name : string) (num_matching_files : Z)
    (non_matching_files : list string) : string :=
  join (String LF "")
    (chars ("Not all files match rule `" +:+ rule_name +:+ "`."
            +:+ pretty num_matching_files
            +:+ " files matched, but there are still non-matching files:"
            +:+ join "," (take 5 non_matching_files)
            +:+ ellipsis (length non_matching_files))).

Definition not_reviewed_reason (pr : GitHubPR) (rule_name : string) : string :=
  "PR #" +:+ pretty (pr_num pr) +:+ " has not been reviewed yet (Rule " +:+ rule_name +:+ ")".

Definition approval_reason (F : Forge) (rule_name : string)
    (rule_approvers_set : list string) : string :=
  join (String LF "")
    ["Approval needed from one of the following (Rule '" +:+ rule_name +:+ "'):";
     join ", " (take 5 (set_list F rule_approvers_set))
     +:+ ellipsis (length rule_approvers_set)].

Definition hud_link (pr : GitHubPR) : string :=
  "https://hud.pytorch.org/" +:+ pr_org pr +:+ "/" +:+ pr_project pr
  +:+ "/commit/" +:+ pr_last_commit_oid pr.

Definition failed_reason (pr : GitHubPR) (rule_name : string) (failed_checks : CheckList)
  : string :=
  join (String LF "")
    ([pretty (length failed_checks) +:+ " mandatory check(s) failed (Rule `"
      +:+ rule_name +:+ "`).  The first few are:"]
     ++ checks_to_markdown_bullets failed_checks
     ++ [""; "Dig deeper by [viewing the failures on hud](" +:+ hud_link pr +:+ ")"]).

Definition pending_reason (pr : GitHubPR) (rule_name : string) (pending_checks : CheckList)
  : string :=
  join (String LF "")
    ([pretty (length pending_checks) +:+ " mandatory check(s) are pending/not yet run (Rule `"
      +:+ rule_name +:+ "`).  The first few are:"]
     ++ checks_to_markdown_bullets pending_checks
     ++ [""; "Dig deeper by [viewing the pending checks on hud](" +:+ hud_link pr +:+ ")"]).

Definition internal_changes_error : exn :=
  RuntimeError "This PR has internal changes and must be landed via Phabricator".

Definition no_rules_error : exn :=
  RuntimeError ("Rejecting the merge as no rules are defined for the repository in "
                +:+ MERGE_RULE_PATH).

(** The initial value of [reject_reason]. *)
Definition no_rule_found_reason (pr : GitHubPR) : string :=
  "No rule found to match PR. Please [report]"
  +:+ gen_new_issue_link (pr_org pr) (pr_project pr) +:+ " this issue to DevX team.".

(** The files of the PR the rule's patterns do not match, and the checks the
    rule requires under [skip_mandatory_checks]. *)
Definition non_matching (F : Forge) (rule : MergeRule) (changed_files : list string)
  : list string :=
  List.filter (fun fname => negb (patterns_match F (mr_patterns rule) fname)) changed_files.

Definition required_checks_of (skip_mandatory_checks : bool) (rule : MergeRule) : list string :=
  let mandatory_checks :=
    match mr_mandatory_checks_name rule with Some l => l | None => [] end in
  List.filter (fun x => str_in "EasyCLA" x || negb skip_mandatory_checks) mandatory_checks.

(** How one iteration of the loop over the rules ends. *)
Inductive iteration :=
| Continue (reject_reason_score : Z) (reject_reason : string)
| Return (rule : MergeRule)
| Raise (e : exn).

(** The body of [for rule in rules]. *)
Definition try_rule (F : Forge) (pr : GitHubPR)
    (skip_mandatory_checks skip_internal_checks : bool)
    (changed_files approved_by : list string) (checks : JobNameToStateDict)
    (reject_reason_score : Z) (reject_reason : string) (rule : MergeRule) : iteration :=
  let rule_name := mr_name rule in
  let non_matching_files := non_matching F rule changed_files in
  if (0 <? length non_matching_files)%nat then
    let num_matching_files :=
      (Z.of_nat (length changed_files) - Z.of_nat (length non_matching_files))%Z in
    if (reject_reason_score <? num_matching_files)%Z then
      Continue num_matching_files
        (files_reason rule_name num_matching_files non_matching_files)
    else Continue reject_reason_score reject_reason
  else if (0 <? length (mr_approved_by rule))%nat && (length approved_by =? 0)%nat then
    if (reject_reason_score <? 10000)%Z then
      Continue 10000 (not_reviewed_reason pr rule_name)
    else Continue reject_reason_score reject_reason
  else
    match expand_approvers F (mr_approved_by rule) with
    | inl e => Raise e
    | inr rule_approvers_set =>
        let approvers_intersection :=
          List.filter (fun login => bool_decide (login ∈ rule_approvers_set)) approved_by in
        if (length approvers_intersection =? 0)%nat && (0 <? length rule_approvers_set)%nat then
          if (reject_reason_score <? 10000)%Z then
            Continue 10000 (approval_reason F rule_name rule_approvers_set)
          else Continue reject_reason_score reject_reason
        else
          let required_checks := required_checks_of skip_mandatory_checks rule in
          let '(pending_checks, failed_checks) := categorize_checks checks required_checks 3 in
          if (0 <? length failed_checks)%nat then
            if (reject_reason_score <? 30000)%Z then
              Continue 30000 (failed_reason pr rule_name failed_checks)
            else Continue reject_reason_score reject_reason
          else if (0 <? length pending_checks)%nat then
            if (reject_reason_score <? 20000)%Z then
              Continue 20000 (pending_reason pr rule_name pending_checks)
            else Continue reject_reason_score reject_reason
          else if negb skip_internal_checks && has_internal_changes pr then
            Raise internal_changes_error
          else Return rule
    end.

(** [for rule in rules] and the two [raise] behind it; [rule] is the loop
    variable as the previous iteration left it. *)
Fixpoint rules_loop (F : Forge) (pr : GitHubPR)
    (skip_mandatory_checks skip_internal_checks : bool)
    (changed_files approved_by : list string) (checks : JobNameToStateDict)
    (rules : list MergeRule) (rule : option MergeRule)
    (reject_reason_score : Z) (reject_reason : string) : exn + MergeRule :=
  match rules with
  | [] =>
      if (reject_reason_score =? 20000)%Z
      then inl (MandatoryChecksMissingError reject_reason rule)
      else inl (RuntimeError reject_reason)
  | r :: rules' =>
      match try_rule F pr skip_mandatory_checks skip_internal_checks
              changed_files approved_by checks reject_reason_score reject_reason r with
      | Continue score reason =>
          rules_loop F pr skip_mandatory_checks skip_internal_checks
            changed_files approved_by checks rules' (Some r) score reason
      | Return rule => inr rule
      | Raise e => inl e
      end
  end.

Definition find_matching_merge_rule (F : Forge) (pr : GitHubPR)
    (skip_mandatory_checks skip_internal_checks : bool)
    (land_check_commit : option string) : exn + MergeRule :=
  let* changed_files := get_changed_files pr in
  let approved_by := get_approved_by pr in
  let checks := get_combined_checks_from_pr_and_land_validation F pr land_check_commit in
  let reject_reason := no_rule_found_reason pr in
  let rules := merge_rules F in
  match rules with
  | [] => inl no_rules_error
  | _ =>
      rules_loop F pr skip_mandatory_checks skip_internal_checks
        changed_files approved_by checks rules None 0 reject_reason
  end.

(** *** Revert validation *)

(** The git commands [validate_revert] can run. *)
Inductive git_op :=
| CommitsResolvingGhPr (pr_num : Z)
| CommitMessage (ref : string).

(** The answers of the local repository. *)
Record GitRepo := mkGitRepo {
  commits_resolving_gh_pr : Z -> list string;
  commit_message : string -> string
}.

(** [validate_revert], with the git commands it ran, in order. *)
Definition validate_revert (F : Forge) (repo : GitRepo) (pr : GitHubPR)
    (comment_id : option Z) : list git_op * (exn + (string * string)) :=
  match match comment_id with
        | None => get_last_comment pr
        | Some id => get_comment_by_id pr id
        end with
  | inl e => ([], inl e)
  | inr comment =>
      match editor_login comment with
      | Some _ => ([], inl (PostCommentError "Don't want to revert based on edited command"))
      | None =>
          let allowed_reverters :=
            ["COLLABORATOR"; "MEMBER"; "OWNER"]
            ++ (if pr_isPrivate pr then ["CONTRIBUTOR"] else []) in
          if negb (bool_decide (author_association comment ∈ allowed_reverters)) then
            ([], inl (PostCommentError
                        ("Will not revert as @" +:+ author_login comment
                         +:+ " is not one of [" +:+ join ", " allowed_reverters
                         +:+ "], but instead is " +:+ author_association comment +:+ ".")))
          else
            match can_skip_internal_checks pr comment_id with
            | inl e => ([], inl e)
            | inr skip_internal_checks =>
                match find_matching_merge_rule F pr true skip_internal_checks None with
                | inl e => ([], inl e)
                | inr _ =>
                    let '(ops, commit_sha) :=
                      match pr_mergeCommit pr with
                      | Some oid => ([], Some oid)
                      | None =>
                          ([CommitsResolvingGhPr (pr_num pr)],
                           head (commits_resolving_gh_pr repo (pr_num pr)))
                      end in
                    match commit_sha with
                    | None => (ops, inl (PostCommentError "Can't find any commits resolving PR"))
                    | Some commit_sha =>
                        let msg := commit_message repo commit_sha in
                        let ops := ops ++ [CommitMessage commit_sha] in
                        match search_diff_rev msg with
                        | Some rev =>
                            if negb skip_internal_checks then
                              (ops, inl (PostCommentError
                                 ("Can't revert PR that was landed via phabricator as "
                                  +:+ rev +:+ ".  "
                                  +:+ "Please revert by going to the internal diff and clicking Unland.")))
                            else (ops, inr (author_login comment, commit_sha))
                        | None => (ops, inr (author_login comment, commit_sha))
                        end
                    end
                end
            end
      end
  end.

(** *** Commit messages *)

Definition prefix_with_github_url (suffix_str : string) : string :=
  "https://github.com/" +:+ suffix_str.

Definition get_pr_url (pr : GitHubPR) : string :=
  "https://github.com/" +:+ pr_org pr +:+ "/" +:+ pr_project pr +:+ "/pull/"
  +:+ pretty (pr_num pr).

(** The value of [msg_body] in [gen_commit_message]. *)
Definition msg_body (filter_ghstack : bool) (body : string) : string :=
  let msg_body := re_sub RE_PR_CC_LINE "" body in
  if filter_ghstack then re_sub RE_GHSTACK_DESC "" msg_body else msg_body.

Definition gen_commit_message (pr : GitHubPR) (filter_ghstack : bool) : string :=
  let approved_by_urls := join ", " (map prefix_with_github_url (get_approved_by pr)) in
  pr_title pr +:+ " (#" +:+ pretty (pr_num pr) +:+ ")" +:+ String LF (String LF "")
  +:+ msg_body filter_ghstack (pr_body pr)
  +:+ String LF "" +:+ "Pull Request resolved: " +:+ get_pr_url pr +:+ String LF ""
  +:+ "Approved by: " +:+ approved_by_urls +:+ String LF "".

(** *** Site-wide incidents and land-time checks *)

Definition lower_ascii (c : ascii) : ascii :=
  let n := nat_of_ascii c in
  if (65 <=? n)%nat && (n <=? 90)%nat then ascii_of_nat (n + 32) else c.

(** [s.lower()] *)
Fixpoint lower (s : string) : string :=
  match s with
  | EmptyString => EmptyString
  | String c s' => String (lower_ascii c) (lower s')
  end.

(** The answer to the issue search of [check_for_sev]: its [total_count]
    and, for every item, the [body] and the [html_url]. *)
Record SevSearch := mkSevSearch {
  total_count : Z;
  sev_items : list (string * string)
}.

Definition sev_error (html_url : string) : exn :=
  RuntimeError
    ("Not merging any PRs at the moment because there is a "
     +:+ "merge blocking https://github.com/pytorch/pytorch/labels/ci:%20sev issue open at: "
     +:+ String LF "" +:+ html_url).

(** [check_for_sev]; [response] is what the search answers when it is made. *)
Definition check_for_sev (response : SevSearch) (skip_mandatory_checks : bool) : exn + unit :=
  if skip_mandatory_checks then inr tt
  else if negb (total_count response =? 0)%Z then
    match List.find (fun item => str_in "merge blocking" (lower item.1))
            (sev_items response) with
    | Some item => inl (sev_error item.2)
    | None => inr tt
    end
  else inr tt.

Definition checks_to_str (checks : CheckList) : string :=
  join ", "
    (map (fun c =>
            match c.2 with
            | Some url => "[" +:+ c.1 +:+ "](" +:+ url +:+ ")"
            | None => c.1
            end)
         checks).

Definition validate_land_time_checks (F : Forge) (commit : string) : exn + unit :=
  let checks := get_land_checkrun_conclusions F commit in
  if (length checks =? 0)%nat then
    inl (MandatoryChecksMissingError "Refusing to merge as land check(s) are not yet run" None)
  else
    let '(pending_checks, failed_checks) := categorize_checks checks (dict_keys checks) 3 in
    if (0 <? length failed_checks)%nat then
      inl (RuntimeError ("Failed to merge; some land checks failed: "
                         +:+ checks_to_str failed_checks))
    else if (0 <? length pending_checks)%nat then
      inl (MandatoryChecksMissingError
             ("Refusing to merge as land check(s) " +:+ checks_to_str pending_checks
              +:+ " are not yet run") None)
    else inr tt.

(** *** Commit authors *)

(** A node of a [commits_with_authors] page: the name and email of the
    commit's author, and the login of the GitHub user, if there is one. *)
Record CommitNode := mkCommitNode {
  cn_name : string;
  cn_email : string;
  cn_user : option string
}.

(** What the author methods read of a PR: [totalCount] and the pages of
    [commits_with_authors], the first from [info] and the later ones as the
    queries return them, and the login of the PR's creator. *)
Record CommitsWithAuthors := mkCommitsWithAuthors {
  cwa_totalCount : Z;
  cwa_nodes : list (list CommitNode);
  cwa_creator : string
}.

(** The exceptions of the author methods: a failed [assert], or one of [exn]. *)
Inductive author_exn :=
| AssertionError
| Raised (e : exn).

(** One iteration of [add_authors]. *)
Definition add_author (node : CommitNode) : string * string :=
  let author := cn_name node +:+ " <" +:+ cn_email node +:+ ">" in
  match cn_user node with
  | None => ("", author)
  | Some login => (login, author)
  end.

Definition _fetch_authors (c : CommitsWithAuthors) : list (string * string) :=
  fold_left (fun authors nodes => authors ++ map add_author nodes) (walked (cwa_nodes c)) [].

Definition get_committer_author (c : CommitsWithAuthors) (num : nat) : author_exn + string :=
  match nth_error (_fetch_authors c) num with
  | Some item => inr item.2
  | None => inl (Raised IndexError)
  end.

Definition get_authors (c : CommitsWithAuthors) : author_exn + list (string * string) :=
  if (cwa_totalCount c <=? 250)%Z
     && negb (Z.of_nat (length (_fetch_authors c)) =? cwa_totalCount c)%Z
  then inl AssertionError
  else inr (fold_left (fun rc item => dict_set item.1 item.2 rc) (_fetch_authors c) []).

Definition get_author (c : CommitsWithAuthors) : author_exn + string :=
  match get_authors c with
  | inl e => inl e
  | inr authors =>
      match authors with
      | [(_, author)] => inr author
      | _ =>
          let creator := cwa_creator c in
          match dict_get creator authors with
          | None => get_committer_author c 0
          | Some author => inr author
          end
      end
  end.

(** *** ghstack head references *)

Definition not_slash (c : ascii) : bool := negb (Ascii.eqb c "/").

(** [r"^(gh/[^/]+/[0-9]+/)head$"], compiled without [MULTILINE] and used
    with [match], which starts at the first character, where [^] holds. *)
Definition RE_GHSTACK_HEAD_REF : regex :=
  Cat (Str "gh/") (Cat (Plus (Cls not_slash)) (Cat (Chr "/")
    (Cat (Plus (Cls is_digit)) (Cat (Chr "/") (Str "head"))))).

(** [$] without [MULTILINE]: the end of the text, or a line feed that ends
    it. *)
Definition at_end (s : string) : bool :=
  match s with
  | EmptyString => true
  | String c EmptyString => Ascii.eqb c LF
  | _ => false
  end.

(** [is_ghstack_pr], of the [headRefName] of the PR. *)
Definition is_ghstack_pr (head_ref : string) : bool :=
  match rmatch RE_GHSTACK_HEAD_REF None head_ref
          (fun _ rest => if at_end rest then Some tt else None) with
  | Some _ => true
  | None => false
  end.

(** *** One attempt of the wait loop of [merge] *)

Definition filter_checks_with_lambda (checks : JobNameToStateDict)
    (status_filter : option string -> bool) : list JobCheckState :=
  map snd (List.filter (fun item => status_filter (jcs_status item.2)) checks).

(** An optional text in an f-string. *)
Definition fmt_opt (s : option string) : string :=
  match s with Some s => s | None => "None" end.

(** How the body of the [try] in the loop ends: with the call of
    [merge_into], in the handler of [MandatoryChecksMissingError], which
    keeps the message and sleeps, or with an exception that leaves the
    loop. *)
Inductive attempt :=
| MergeInto
| Sleep (last_exception : string)
| Leave (e : exn).

(** The body of the [try], for the snapshot [pr] taken at the head of the
    iteration, up to the call of [merge_into]. *)
Definition merge_attempt (F : Forge) (pr : GitHubPR) (land_checks : bool)
    (land_check_commit : option string) : attempt :=
  let inner :=
    match find_matching_merge_rule F pr false false None with
    | inl (MandatoryChecksMissingError msg rule) =>
        inr (match rule with
             | Some r => match mr_mandatory_checks_name r with Some l => l | None => [] end
             | None => []
             end,
             Some msg)
    | inl e => inl e
    | inr _ => inr ([], None)
    end in
  match inner with
  | inl e => Leave e
  | inr (required_checks, failed_rule_message) =>
      let checks := get_combined_checks_from_pr_and_land_validation F pr land_check_commit in
      let '(pending, failing) :=
        categorize_checks checks
          (required_checks
           ++ List.filter (fun x => negb (bool_decide (x ∈ required_checks))) (dict_keys checks))
          3 in
      let startup_failures :=
        filter_checks_with_lambda checks
          (fun status => bool_decide (status = Some "STARTUP_FAILURE")) in
      if (0 <? length startup_failures)%nat then
        Leave (RuntimeError
                 (pretty (length startup_failures)
                  +:+ " STARTUP failures reported, please check workflows syntax! "
                  +:+ join ", "
                        (map (fun x => "[" +:+ jcs_name x +:+ "](" +:+ jcs_url x +:+ ")")
                           (take 5 startup_failures))))
      else if (0 <? length failing)%nat then
        Leave (RuntimeError
                 (pretty (length failing) +:+ " jobs have failed, first few of them are: "
                  +:+ join ", "
                        (map (fun x => "[" +:+ x.1 +:+ "](" +:+ fmt_opt x.2 +:+ ")")
                           (take 5 failing))))
      else if (0 <? length pending)%nat then
        match failed_rule_message with
        | Some msg => Sleep msg
        | None =>
            Sleep ("Still waiting for " +:+ pretty (length pending) +:+ " jobs to finish, "
                   +:+ "first few of them are: " +:+ join ", " (map fst (take 5 pending)))
        end
      else
        match land_check_commit with
        | Some commit =>
            if land_checks then
              match validate_land_time_checks F commit with
              | inl (MandatoryChecksMissingError msg _) => Sleep msg
              | inl e => Leave e
              | inr _ => MergeInto
              end
            else MergeInto
        | None => MergeInto
        end
  end.

(** *** Labels *)

(** [r"^ciflow/.+"] and [r"^ciflow/trunk"], used with [match]. *)
Definition CIFLOW_LABEL : regex := Cat (Str "ciflow/") (Plus (Cls not_nl)).

Definition CIFLOW_TRUNK_LABEL : regex := Str "ciflow/trunk".

(** [pattern.match(s)] as a truth value. *)
Definition re_match (pattern : regex) (s : string) : bool :=
  match match_at pattern None s with
  | Some _ => true
  | None => false
  end.

Definition has_label (labels : list string) (pattern : regex) : bool :=
  (0 <? length (List.filter (re_match pattern) labels))%nat.

(** *** Vocabulary of the statements *)

(** The comment a revert command is read from. *)
Definition triggering_comment (pr : GitHubPR) (comment_id : option Z) : exn + GitHubComment :=
  match comment_id with
  | None => get_last_comment pr
  | Some id => get_comment_by_id pr id
  end.

(** The associations that may revert, by privacy of the base repository. *)
Definition allowed_reverter (private : bool) (association : string) : Prop :=
  association ∈ ["COLLABORATOR"; "MEMBER"; "OWNER"]
  \/ (private = true /\ association = "CONTRIBUTOR").

Definition is_PostCommentError (e : exn) : Prop :=
  match e with PostCommentError _ => True | _ => False end.

(** The two conditions of the classifier on the historical jobs of a check:
    the failure is also on the merge base, and the job stopped within its
    first step. *)
Definition broken_trunk (head_sha_job merge_base_job : option Job) : Prop :=
  exists h m,
    head_sha_job = Some h /\ merge_base_job = Some m
    /\ job_conclusion h = job_conclusion m
    /\ job_failure_captures h = job_failure_captures m.

Definition crashed_early (head_sha_job : option Job) : Prop :=
  exists h, head_sha_job = Some h /\ (job_steps h <= 1)%Z.

(** The buckets of [categorize_checks] read as comprehensions: the entries
    [(name, url)] of the names whose check satisfies [keep], in order. *)
Definition entries (check_runs : JobNameToStateDict) (names : list string)
    (keep : JobCheckState -> bool) : CheckList :=
  flat_map
    (fun name =>
       match dict_get name check_runs with
       | Some c => if keep c then [(name, Some (jcs_url c))] else []
       | None => []
       end)
    names.

Definition has_status (c : JobCheckState) : bool :=
  match jcs_status c with Some _ => true | None => false end.

Definition benign (c : JobCheckState) : bool :=
  bool_decide (jcs_classification c ∈ [Some "BROKEN_TRUNK"; Some "FLAKY"]).

Definition is_pending (c : JobCheckState) : bool := negb (has_status c).

Definition is_ok_failed (c : JobCheckState) : bool :=
  has_status c && negb (is_passing_status (jcs_status c)) && benign c.

Definition is_failed (c : JobCheckState) : bool :=
  has_status c && negb (is_passing_status (jcs_status c)) && negb (benign c).

(** The required patterns no reported check name contains. *)
Definition missing_checks (check_runs : JobNameToStateDict) (required_checks : list string)
  : CheckList :=
  map (fun p => (p, None))
    (List.filter
       (fun p => forallb (fun name => negb (str_in p name)) (dict_keys check_runs))
       required_checks).

(** The labels [add_numbered_label] goes through: the base name, then the
    base followed by [X2], [X3], ... *)
Definition candidate (label_base : string) (i : nat) : string :=
  match i with
  | O => label_base
  | S k => label_base +:+ "X" +:+ pretty (k + 2)%nat
  end.

(** The suites of a workflow name, and the two readings of "the suite whose
    result is kept": the first one that is not cancelled, and the first one. *)
Definition suite_named (w : string) (node : CheckSuite) : bool :=
  match cs_workflowRun node with
  | Some wr => String.eqb (wr_workflow_name wr) w
  | None => false
  end.

Definition is_cancelled (node : CheckSuite) : bool :=
  bool_decide (cs_conclusion node = Some "CANCELLED").

Definition first_non_cancelled (w : string) (suites : list CheckSuite) : option CheckSuite :=
  List.find (fun node => suite_named w node && negb (is_cancelled node)) suites.

Definition first_suite (w : string) (suites : list CheckSuite) : option CheckSuite :=
  List.find (suite_named w) suites.

(** The workflow recorded under [w] carries the conclusion and url of [node]. *)
Definition records (st : Workflows) (w : string) (node : CheckSuite) : Prop :=
  exists wf wr,
    dict_get w (workflows st) = Some wf
    /\ cs_workflowRun node = Some wr
    /\ wcs_name wf = w
    /\ wcs_status wf = cs_conclusion node
    /\ wcs_url wf = wr_url wr.

(** What [workflows] holds once the suites [seen] went through. *)
Definition recorded (st : Workflows) (seen : list CheckSuite) : Prop :=
  forall w,
    match first_suite w seen with
    | Some node => records st w node
    | None => dict_get w (workflows st) = None
    end.

(** What a rule, taken alone, says of the PR: the gates in the order of the
    evaluator, with the score and the text of the first one that fails. *)
Inductive verdict :=
| Rejected (score : Z) (reason : string)
| Passed
| Crashed (e : exn).

(** Approval identity: the expanded approvers, when there are any, have to
    include someone who approved the PR. *)
Definition approvers_disjoint (approvers approved_by : list string) : bool :=
  match approvers with
  | _ :: _ => negb (existsb (fun login => bool_decide (login ∈ approvers)) approved_by)
  | [] => false
  end.

(** Mandatory checks: failed ones score 30000, pending ones 20000. *)
Definition checks_verdict (pr : GitHubPR) (rule_name : string)
    (categorized : CheckList * CheckList) : verdict :=
  match categorized with
  | (_, (_ :: _) as failed_checks) => Rejected 30000 (failed_reason pr rule_name failed_checks)
  | ((_ :: _) as pending_checks, []) =>
      Rejected 20000 (pending_reason pr rule_name pending_checks)
  | ([], []) => Passed
  end.

Definition verdict_of (F : Forge) (pr : GitHubPR) (skip_mandatory_checks : bool)
    (changed_files approved_by : list string) (checks : JobNameToStateDict)
    (rule : MergeRule) : verdict :=
  let matching := List.filter (patterns_match F (mr_patterns rule)) changed_files in
  if negb (forallb (patterns_match F (mr_patterns rule)) changed_files) then
    (* file match: the score is the number of matching files *)
    Rejected (Z.of_nat (length matching))
      (files_reason (mr_name rule) (Z.of_nat (length matching))
         (non_matching F rule changed_files))
  else
    match mr_approved_by rule, approved_by with
    | _ :: _, [] =>
        (* the rule lists approvers and the PR has no approval *)
        Rejected 10000 (not_reviewed_reason pr (mr_name rule))
    | _, _ =>
        match expand_approvers F (mr_approved_by rule) with
        | inl e => Crashed e
        | inr approvers =>
            if approvers_disjoint approvers approved_by
            then Rejected 10000 (approval_reason F (mr_name rule) approvers)
            else checks_verdict pr (mr_name rule)
                   (categorize_checks checks
                      (required_checks_of skip_mandatory_checks rule) 3)
        end
    end.




(** Reading [RE_PR_CC_LINE] line by line.  [cc_head s] says that [s] begins
    with [cc], an optional colon, a blank, [@] and a word character;
    [cc_end prev s] is where a match that starts at [s] ends: behind the line
    of [s], and behind its line feed too when an end of line follows it. *)
Definition starts (c : ascii) (s : string) : option string :=
  match s with
  | String c' s' => if Ascii.eqb c c' then Some s' else None
  | EmptyString => None
  end.

Definition cc_address (s : string) : bool :=
  match starts " " s with
  | Some s1 =>
      match starts "@" s1 with
      | Some (String w _) => is_word w
      | _ => false
      end
  | None => false
  end.

Definition cc_head (s : string) : bool :=
  match starts "c" s with
  | Some s0 =>
      match starts "c" s0 with
      | Some s1 =>
          match starts ":" s1 with
          | Some s2 => cc_address s2
          | None => cc_address s1
          end
      | None => false
      end
  | None => false
  end.

Fixpoint cc_end (prev : option ascii) (s : string) : option ascii * string :=
  match s with
  | EmptyString => (prev, EmptyString)
  | String c s' =>
      if not_nl c then cc_end (Some c) s'
      else if at_eol s' then (Some c, s') else (prev, s)
  end.

(** The text of [s] before its first line feed. *)
Fixpoint first_line (s : string) : string :=
  match s with
  | EmptyString => EmptyString
  | String c s' => if not_nl c then String c (first_line s') else EmptyString
  end.

(** No position of [s] starts a [cc] line; [prev] is the character before [s]. *)
Fixpoint cc_free (prev : option ascii) (s : string) : Prop :=
  at_bol prev && cc_head s = false
  /\ match s with
     | EmptyString => True
     | String c s' => cc_free (Some c) s'
     end.

(** A greedy star over a character class, by recursion on the text. *)
Fixpoint star_cls {A : Type} (p : ascii -> bool) (k : option ascii -> string -> option A)
    (prev : option ascii) (s : string) : option A :=
  match s with
  | String c s' =>
      if p c then
        match star_cls p k (Some c) s' with
        | Some a => Some a
        | None => k prev s
        end
      else k prev s
  | EmptyString => k prev s
  end.

(** Every entry of a check dictionary is filed under its own name and has
    no classification yet. *)
Definition well_named (d : JobNameToStateDict) : Prop :=
  forall k c, In (k, c) d -> jcs_name c = k /\ jcs_classification c = None.

(** The aggregator's state keeps every workflow under its own name, with
    well-named jobs. *)
Definition well_formed (st : Workflows) : Prop :=
  (forall w wf, In (w, wf) (workflows st) -> wcs_name wf = w /\ well_named (wcs_jobs wf))
  /\ well_named (wcs_jobs (no_workflow_obj st)).

(** The reviews of a PR from the oldest to the newest, as [_get_reviews]
    puts the walked pages together, and the state of the last review of
    [login] that is not a mere comment. *)
Definition review_history (pr : GitHubPR) : list (string * string) :=
  fold_left (fun acc nodes => nodes ++ acc) (walked (pr_reviews pr)) [].

Definition latest_state (login : string) (reviews : list (string * string)) : option string :=
  last (map snd
          (List.filter
             (fun review => String.eqb review.1 login && negb (String.eqb review.2 "COMMENTED"))
             reviews)).

(** No position of [s] starts a match of [r]; [prev] is the character
    before [s]. *)
Fixpoint matchless (r : regex) (prev : option ascii) (s : string) : Prop :=
  match_at r prev s = None
  /\ match s with
     | EmptyString => True
     | String c s' => matchless r (Some c) s'
     end.

(** Every character of [s] satisfies [p]. *)
Fixpoint all_chars (p : ascii -> bool) (s : string) : bool :=
  match s with
  | EmptyString => true
  | String c s' => p c && all_chars p s'
  end.

(** The rows of the analytics store that belong to the PR head, and the
    others (filed under the merge base); the map the local [insert] builds
    from a list of rows. *)
Definition head_rows (head_sha : string) (rows : list Job) : list Job :=
  List.filter (fun r => bool_decide (job_head_sha r = head_sha)) rows.

Definition base_rows (head_sha : string) (rows : list Job) : list Job :=
  List.filter (fun r => negb (bool_decide (job_head_sha r = head_sha))) rows.

Definition filed (rows : list Job) (d : gmap string Job) : gmap string Job :=
  fold_left (fun d r => Historical.insert d (job_key r) r) rows d.

(** The land-validation checks [get_combined_checks_from_pr_and_land_validation]
    merges in: none without a land-check commit (or with an empty one). *)
Definition land_validation_checks (F : Forge) (land_check_commit : option string)
  : JobNameToStateDict :=
  match land_check_commit with
  | Some (String c s as commit) => get_land_checkrun_conclusions F commit
  | _ => []
  end.

(** Two check states that differ at most in their classification. *)
Definition same_result (c c' : JobCheckState) : Prop :=
  jcs_name c' = jcs_name c /\ jcs_url c' = jcs_url c /\ jcs_status c' = jcs_status c.

(** No mandatory check of a rule of the repository names the CLA check. *)
Definition cla_free (rules : list MergeRule) : Prop :=
  forall rule x, In rule rules ->
    In x (match mr_mandatory_checks_name rule with Some l => l | None => [] end) ->
    str_in "EasyCLA" x = false.

(** Two snapshots of pull requests that may differ in their checks, labels,
    comments and commits: they have the repository, the number, the body,
    the changed files and the reviews in common. *)
Definition same_request (pr pr' : GitHubPR) : Prop :=
  pr_org pr = pr_org pr' /\ pr_project pr = pr_project pr' /\ pr_num pr = pr_num pr'
  /\ pr_body pr = pr_body pr'
  /\ pr_files pr = pr_files pr' /\ pr_changedFiles pr = pr_changedFiles pr'
  /\ pr_reviews pr = pr_reviews pr'.

(** The status of the check of the internal tool among the checks of the
    PR, if it is there. *)
Definition internal_check_status (pr : GitHubPR) : option (option string) :=
  option_map jcs_status
    (dict_get "Meta Internal-Only Changes Check" (get_checkrun_conclusions pr)).

(** The author line of the last commit made under [login], and whether all
    the commits were made under one login. *)
Definition last_author (login : string) (commits : list (string * string)) : option string :=
  last (map snd (List.filter (fun item => String.eqb item.1 login) commits)).

Definition single_login (commits : list (string * string)) : bool :=
  match commits with
  | [] => false
  | first :: rest => forallb (fun item => String.eqb item.1 first.1) rest
  end.

(** A check that does not hold a merge back: concluded, and passing or a
    failure classified as flaky or as broken trunk. *)
Definition green (c : JobCheckState) : Prop :=
  has_status c = true /\ (is_passing_status (jcs_status c) = true \/ benign c = true).

(** The last status context reported under [name]. *)
Definition last_context (name : string) (contexts : list (string * string * string))
  : option (string * string * string) :=
  last (List.filter (fun status => String.eqb status.1.1 name) contexts).

(** *** Sample data for the examples *)

Definition sample_comment (login association : string) (editor : option string) (id : Z)
  : GitHubComment :=
  mkGitHubComment "@pytorchbot revert -m broke trunk" "2022-10-01T00:00:00Z"
    login association editor id.

(** PR #1001 of [acme/proj]: one file, one approval by [alice], and the given
    last page of comments. *)
Definition sample_pr (private : bool) (comments : list GitHubComment) : GitHubPR :=
  mkGitHubPR "acme" "proj" 1001 "Title" "Body" private 1 [["core/a.py"]]
    [[("alice", "APPROVED")]] comments [] None ["merged"] "0a1b2c" "9f8e7d"
    [] [] None None.

(** Scenario S3: [pull / linux-test] fails on the PR head and, with the same
    conclusion and captures, on the merge base. *)
Definition sample_checks : JobNameToStateDict :=
  [("pull / linux-test",
    mkJobCheckState "pull / linux-test" "https://ci/1" (Some "FAILURE") None);
   ("pull / lint", mkJobCheckState "pull / lint" "https://ci/2" (Some "SUCCESS") None);
   ("pull / docs", mkJobCheckState "pull / docs" "https://ci/3" None None)].

Definition sample_rows : list Job :=
  [mkJob "pull" "linux-test" 11 (Some "failure") "0a1b2c" (Some ["Timeout"]) 7;
   mkJob "pull" "linux-test" 5 (Some "failure") "9f8e7d" (Some ["Timeout"]) 7].

(** A workflow [pull] whose first suite was cancelled and whose rerun
    succeeded, neither with check runs. *)
Definition sample_suite (conclusion url : string) (runs : list (option CheckRun)) : CheckSuite :=
  mkCheckSuite (Some (mkWorkflowRun "pull" url)) (Some conclusion) [runs].

Definition sample_rerun : list (list CheckSuite) :=
  [[sample_suite "CANCELLED" "https://ci/run/1" [];
    sample_suite "SUCCESS" "https://ci/run/2" []]].

(** A rule set of one rule over [core/], approved by [alice], with the given
    mandatory checks.  The stand-in for the pattern compiler of [gitutils]
    used in the examples matches a path by prefix, and the sets of the
    examples are enumerated in the order of insertion. *)
Definition sample_rule (mandatory : option (list string)) : MergeRule :=
  mkMergeRule "core" ["core/"] ["alice"] mandatory.

Definition sample_forge (rules : list MergeRule) : Forge :=
  mkForge rules (fun patterns fname => existsb (fun p => String.prefix p fname) patterns)
    (fun _ _ => []) (fun _ => []) [] (fun _ _ => []) (fun s => s).

(** PR #1001 again, imported from the internal tool: its body carries a
    [Differential Revision] line and the status context of the internal-only
    check is not [SUCCESS]. *)
Definition sample_internal_pr : GitHubPR :=
  mkGitHubPR "acme" "proj" 1001 "Title"
    ("Body" +:+ String LF "" +:+ "Differential Revision: D12345")
    false 1 [["core/a.py"]]
    [[("alice", "APPROVED")]] [] [] None [] "0a1b2c" "9f8e7d"
    [] [("Meta Internal-Only Changes Check", "FAILURE", "https://ci/internal")] None None.

(** A body in which a ghstack block sits inside the word [Stack] of a second
    block header. *)
Definition sample_ghstack_body : string :=
  "StStack x:" +:+ String LF "" +:+ "* a" +:+ String LF ""
  +:+ "ack y:" +:+ String LF "" +:+ "* b" +:+ String LF "".

(** A first run of workflow [pull] in which [build] passed and [test] failed,
    and a rerun in which both failed. *)
Definition sample_first_run : CheckSuite :=
  sample_suite "FAILURE" "https://ci/run/1"
    [Some (mkCheckRun "build" (Some "SUCCESS") "https://ci/job/1");
     Some (mkCheckRun "test" (Some "FAILURE") "https://ci/job/2")].

Definition sample_second_run : CheckSuite :=
  sample_suite "FAILURE" "https://ci/run/2"
    [Some (mkCheckRun "build" (Some "FAILURE") "https://ci/job/3");
     Some (mkCheckRun "test" (Some "FAILURE") "https://ci/job/4")].

(** A repository whose history resolves PR #1001 in commit [c0ffee]. *)
Definition sample_repo : GitRepo :=
  mkGitRepo (fun _ => ["c0ffee"]) (fun _ => "Title (#1001)").

(** Two commits pushed under the login [alice] with two different emails, in
    a PR opened by [bob]. *)
Definition sample_commits : CommitsWithAuthors :=
  mkCommitsWithAuthors 2
    [[mkCommitNode "Alice" "alice@home.org" (Some "alice");
      mkCommitNode "Alice" "alice@work.com" (Some "alice")]]
    "bob".

(** PR #1001 with one status context, which succeeded. *)
Definition sample_green_pr : GitHubPR :=
  mkGitHubPR "acme" "proj" 1001 "Title" "Body" false 1 [["core/a.py"]]
    [[("alice", "APPROVED")]] [] [] None [] "0a1b2c" "9f8e7d"
    [] [("ci/lint", "SUCCESS", "https://ci/lint")] None None.

(** PR #1001 with the same status context, which failed. *)
Definition sample_red_pr : GitHubPR :=
  mkGitHubPR "acme" "proj" 1001 "Title" "Body" false 1 [["core/a.py"]]
    [[("alice", "APPROVED")]] [] [] None [] "0a1b2c" "9f8e7d"
    [] [("ci/lint", "FAILURE", "https://ci/lint")] None None.

(** ** Part II: properties *)

(** *** Strings and dictionaries *)

Lemma str_app_nil (s : string) : "" +:+ s = s.
Proof. reflexivity. Qed.

Lemma str_app_cons (c : ascii) (s t : string) : String c s +:+ t = String c (s +:+ t).
Proof. reflexivity. Qed.

Lemma str_app_nil_r (s : string) : s +:+ "" = s.
Proof. induction s as [|c s IH]; [reflexivity|]. rewrite str_app_cons, IH. reflexivity. Qed.

Lemma str_app_assoc (s t u : string) : (s +:+ t) +:+ u = s +:+ t +:+ u.
Proof. induction s as [|c s IH]; [reflexivity|]. rewrite !str_app_cons, IH. reflexivity. Qed.

Lemma str_app_length (s t : string) :
  String.length (s +:+ t) = (String.length s + String.length t)%nat.
Proof. induction s as [|c s IH]; [reflexivity|]. rewrite str_app_cons. simpl. lia. Qed.

Lemma prefix_spec (x s : string) :
  String.prefix x s = true <-> exists post, s = x +:+ post.
Proof.
  revert s; induction x as [|c x IH]; intros s; simpl.
  - split; [intros _; exists s; reflexivity | intros _; destruct s; reflexivity].
  - destruct s as [|c' s]; simpl.
    + split; [discriminate | intros [post H]; discriminate].
    + destruct (Ascii.ascii_dec c c') as [->|Hne].
      * rewrite IH. split; intros [post H]; exists post;
          rewrite str_app_cons in *; congruence.
      * split; [discriminate | intros [post H]; rewrite str_app_cons in H; congruence].
Qed.

Lemma str_in_cons (x : string) (c : ascii) (s : string) :
  str_in x (String c s) = String.prefix x (String c s) || str_in x s.
Proof. reflexivity. Qed.

(** [str_in] decides the substring relation. *)
Lemma str_in_spec (x s : string) :
  str_in x s = true <-> exists pre post, s = pre +:+ x +:+ post.
Proof.
  induction s as [|c s IH].
  - change (str_in x "") with (String.prefix x "" || false).
    rewrite orb_false_r, prefix_spec. split.
    + intros [post H]. exists "", post. exact H.
    + intros (pre & post & H). destruct pre.
      * exists post. exact H.
      * discriminate.
  - rewrite str_in_cons, orb_true_iff, prefix_spec, IH. split.
    + intros [[post H] | (pre & post & H)].
      * exists "", post. exact H.
      * exists (String c pre), post. rewrite str_app_cons. congruence.
    + intros (pre & post & H). destruct pre as [|c' pre].
      * left. exists post. exact H.
      * right. exists pre, post. rewrite str_app_cons in H. congruence.
Qed.

Lemma str_in_refl (s : string) : str_in s s = true.
Proof.
  apply str_in_spec. exists "", "". rewrite str_app_nil, str_app_nil_r. reflexivity.
Qed.

Section dict_facts.
Context {V : Type}.
Implicit Types (d : list (string * V)) (k : string) (v : V).

Lemma dict_get_set_eq d k v : dict_get k (dict_set k v d) = Some v.
Proof.
  induction d as [|[k' v'] d IH]; simpl.
  - rewrite String.eqb_refl. reflexivity.
  - destruct (String.eqb k k') eqn:E; simpl; rewrite ?String.eqb_refl, ?E; auto.
Qed.

Lemma dict_get_set_ne d k k' v : k <> k' -> dict_get k' (dict_set k v d) = dict_get k' d.
Proof.
  intros Hne. induction d as [|[k0 v0] d IH]; simpl.
  - destruct (String.eqb_spec k' k); congruence.
  - destruct (String.eqb_spec k k0) as [->|]; simpl.
    + destruct (String.eqb_spec k' k0); congruence.
    + destruct (String.eqb_spec k' k0); congruence.
Qed.

Lemma dict_get_set d k k' v :
  dict_get k' (dict_set k v d) = if String.eqb k' k then Some v else dict_get k' d.
Proof.
  destruct (String.eqb_spec k' k) as [->|Hne].
  - apply dict_get_set_eq.
  - apply dict_get_set_ne. congruence.
Qed.

Lemma dict_get_Some_In d k v : dict_get k d = Some v -> In (k, v) d.
Proof.
  induction d as [|[k' v'] d IH]; simpl; [discriminate|].
  destruct (String.eqb_spec k k') as [->|]; intros H.
  - left. congruence.
  - right. auto.
Qed.

Lemma dict_get_None d k : dict_get k d = None <-> ~ In k (dict_keys d).
Proof.
  induction d as [|[k' v'] d IH]; simpl.
  - tauto.
  - destruct (String.eqb_spec k k') as [->|Hne].
    + split; [discriminate | intros H; exfalso; apply H; left; reflexivity].
    + rewrite IH. split; intros H; [intros [?|?]; [congruence | tauto] | tauto].
Qed.

Lemma dict_get_In d k v : NoDup (dict_keys d) -> In (k, v) d -> dict_get k d = Some v.
Proof.
  induction d as [|[k' v'] d IH]; simpl; [tauto|].
  intros Hnd [H|H].
  - inversion H; subst. rewrite String.eqb_refl. reflexivity.
  - apply NoDup_cons in Hnd as [Hnotin Hnd].
    destruct (String.eqb_spec k k') as [->|].
    + exfalso. apply Hnotin. apply list_elem_of_In. change k' with (fst (k', v)).
      apply in_map. exact H.
    + apply IH; [exact Hnd | exact H].
Qed.

Lemma dict_mem_true d k : dict_mem k d = true <-> In k (dict_keys d).
Proof.
  unfold dict_mem. destruct (dict_get k d) eqn:E.
  - split; [intros _|reflexivity]. apply dict_get_Some_In in E.
    change k with (fst (k, v)). apply in_map. exact E.
  - apply dict_get_None in E. split; [discriminate | tauto].
Qed.
End dict_facts.

(** *** Flaky rules *)

Lemma forallb_elem_of {A : Type} (f : A -> bool) (l : list A) :
  forallb f l = true <-> forall x, x ∈ l -> f x = true.
Proof.
  rewrite forallb_forall. split; intros H x Hx; apply H; apply list_elem_of_In; exact Hx.
Qed.

(** C7, as claimed, fails: a rule without captures does not match a job whose
    name contains the rule's name when the store reported no
    [failure_captures] for the job. *)
Lemma flaky_rule_empty_captures_counterexample :
  ~ (forall (self : FlakyRule) (j : Job),
       fr_captures self = [] ->
       str_in (fr_name self) (job_name j) = true ->
       matches self (Some j) = true).
Proof.
  intros H.
  specialize (H (mkFlakyRule "linux" [])
                (mkJob "pull" "linux-test" 7 (Some "failure") "abc" None 5)
                eq_refl eq_refl).
  vm_compute in H. discriminate.
Qed.

(** C7 (amended): a FlakyRule matches exactly when there is a job, the
    rule's name is a substring of the job's name, the job's
    [failure_captures] is present (not null) and every capture of the rule is
    an element of it; in particular a rule with an empty captures list matches
    every job whose name contains the rule's name and whose
    [failure_captures] is present. *)
Theorem flaky_rule_matches_iff (self : FlakyRule) (job : option Job) :
  (matches self job = true <->
   exists j caps,
     job = Some j
     /\ (exists pre post, job_name j = pre +:+ fr_name self +:+ post)
     /\ job_failure_captures j = Some caps
     /\ forall capture, capture ∈ fr_captures self -> capture ∈ caps)
  /\ (fr_captures self = [] ->
      forall j caps,
        str_in (fr_name self) (job_name j) = true ->
        job_failure_captures j = Some caps ->
        matches self (Some j) = true).
Proof.
  split.
  - unfold matches. destruct job as [j|].
    + rewrite andb_true_iff, str_in_spec. split.
      * intros [Hname Hcaps]. destruct (job_failure_captures j) as [caps|] eqn:E;
          [|discriminate].
        exists j, caps. repeat split; auto.
        intros capture Hin. rewrite forallb_elem_of in Hcaps.
        specialize (Hcaps capture Hin). apply bool_decide_eq_true in Hcaps. exact Hcaps.
      * intros (j' & caps & Hj & Hname & Hfc & Hall). injection Hj as <-.
        split; [exact Hname|]. rewrite Hfc. apply forallb_elem_of.
        intros x Hx. apply bool_decide_eq_true. auto.
    + split; [discriminate | intros (j & caps & H & _); discriminate].
  - intros Hempty j caps Hname Hfc. unfold matches.
    rewrite Hname, Hfc, Hempty. reflexivity.
Qed.

Lemma flaky_rule_matches_iff_witness :
  matches (mkFlakyRule "linux" [])
    (Some (mkJob "pull" "linux-test" 7 (Some "failure") "abc" (Some ["timeout"]) 5)) = true.
Proof.
  apply (proj2 (flaky_rule_matches_iff (mkFlakyRule "linux" []) None) eq_refl
           (mkJob "pull" "linux-test" 7 (Some "failure") "abc" (Some ["timeout"]) 5)
           ["timeout"]); reflexivity.
Defined.

(** *** Historical jobs *)

(** C6: the insertion rule of the historical-job maps.  A key that is not
    present receives the new record; a stored record whose conclusion is
    [success] is never replaced; otherwise the new record replaces the stored
    one exactly when its id is strictly higher.  Other keys are untouched. *)
Theorem historical_insert_rule (d : gmap string Job) (key : string) (val : Job) :
  (d !! key = None -> Historical.insert d key val !! key = Some val)
  /\ (forall cur, d !! key = Some cur ->
        job_conclusion cur = Some "success" ->
        Historical.insert d key val = d)
  /\ (forall cur, d !! key = Some cur ->
        job_conclusion cur <> Some "success" ->
        (job_id cur < job_id val)%Z ->
        Historical.insert d key val !! key = Some val)
  /\ (forall cur, d !! key = Some cur ->
        job_conclusion cur <> Some "success" ->
        (job_id val <= job_id cur)%Z ->
        Historical.insert d key val = d)
  /\ (forall k, k <> key -> Historical.insert d key val !! k = d !! k).
Proof.
  unfold Historical.insert. repeat split.
  - intros ->. apply lookup_insert_eq.
  - intros cur -> Hs. rewrite bool_decide_eq_true_2 by exact Hs. reflexivity.
  - intros cur -> Hs Hlt. rewrite bool_decide_eq_false_2 by exact Hs.
    rewrite bool_decide_eq_true_2 by exact Hlt. apply lookup_insert_eq.
  - intros cur -> Hs Hle. rewrite bool_decide_eq_false_2 by exact Hs.
    rewrite bool_decide_eq_false_2 by lia. reflexivity.
  - intros k Hne. destruct (d !! key) as [cur|]; [|apply lookup_insert_ne; congruence].
    repeat case_bool_decide; try reflexivity; apply lookup_insert_ne; congruence.
Qed.

Lemma historical_insert_rule_witness :
  let old := mkJob "pull" "test" 4 (Some "failure") "abc" None 3 in
  let new := mkJob "pull" "test" 9 (Some "success") "abc" None 3 in
  Historical.insert {[ "pull / test" := old ]} "pull / test" new !! "pull / test" = Some new.
Proof.
  intros old new.
  apply (proj1 (proj2 (proj2 (historical_insert_rule {[ "pull / test" := old ]}
                                "pull / test" new))) old).
  - reflexivity.
  - discriminate.
  - reflexivity.
Defined.

(** *** Skipping the internal checks *)

(** C10: without a comment id the answer is [False]; the answer is [True]
    only when the comment of that id is found, was not edited and was written
    by [facebook-github-bot] (and it is [True] for every such comment). *)
Theorem can_skip_internal_checks_spec (pr : GitHubPR) :
  can_skip_internal_checks pr None = inr false
  /\ (forall comment_id,
        can_skip_internal_checks pr comment_id = inr true ->
        exists id comment,
          comment_id = Some id
          /\ get_comment_by_id pr id = inr comment
          /\ editor_login comment = None
          /\ author_login comment = "facebook-github-bot")
  /\ (forall id comment,
        get_comment_by_id pr id = inr comment ->
        editor_login comment = None ->
        author_login comment = "facebook-github-bot" ->
        can_skip_internal_checks pr (Some id) = inr true).
Proof.
  split; [reflexivity|]. split.
  - intros [id|] H; [|discriminate]. unfold can_skip_internal_checks, bind in H.
    destruct (get_comment_by_id pr id) as [e|comment] eqn:E; [discriminate|].
    destruct (editor_login comment) eqn:Ed; [discriminate|].
    injection H as H. apply String.eqb_eq in H. eauto 6.
  - intros id comment Hget Hed Hlogin. unfold can_skip_internal_checks, bind.
    rewrite Hget, Hed, Hlogin. reflexivity.
Qed.

Lemma can_skip_internal_checks_spec_witness :
  can_skip_internal_checks
    (sample_pr false [sample_comment "facebook-github-bot" "MEMBER" None 42]) (Some 42%Z)
  = inr true.
Proof.
  apply (proj2 (proj2 (can_skip_internal_checks_spec
                         (sample_pr false [sample_comment "facebook-github-bot" "MEMBER" None 42])))
           42%Z (sample_comment "facebook-github-bot" "MEMBER" None 42));
    reflexivity.
Defined.

(** *** Revert validation *)

Lemma expand_approvers_raises (F : Forge) (approved_by : list string) (e : exn) :
  expand_approvers F approved_by = inl e -> e = ValueError.
Proof.
  unfold expand_approvers.
  assert (Hsticky : forall l e0,
    fold_left
      (fun acc approver =>
         let* rule_approvers_set := acc in
         if str_in "/" approver then
           match split_slash approver with
           | [org; name] => inr (set_update rule_approvers_set (team_members F org name))
           | _ => inl ValueError
           end
         else inr (set_add approver rule_approvers_set)) l (inl e0) = inl e0).
  { induction l as [|a l IH]; intros e0; simpl; auto. }
  generalize (@nil string) as acc.
  induction approved_by as [|a l IH]; intros acc; simpl; [discriminate|].
  destruct (str_in "/" a).
  - destruct (split_slash a) as [|o [|n [|x t]]]; try (rewrite Hsticky; congruence).
    apply IH.
  - apply IH.
Qed.

Lemma try_rule_raises F pr smc sic changed approved checks score reason rule e :
  try_rule F pr smc sic changed approved checks score reason rule = Raise e ->
  ~ is_PostCommentError e.
Proof.
  unfold try_rule.
  repeat match goal with
         | |- context [if ?b then _ else _] => destruct b
         | |- context [match expand_approvers ?F ?l with _ => _ end] =>
             let E := fresh "E" in
             destruct (expand_approvers F l) eqn:E;
             [apply expand_approvers_raises in E; subst|]
         | |- context [let '(_, _) := ?p in _] => destruct p
         end; intros H; try discriminate; injection H as <-; simpl; tauto.
Qed.

Lemma rules_loop_raises F pr smc sic changed approved checks rules rule score reason e :
  rules_loop F pr smc sic changed approved checks rules rule score reason = inl e ->
  ~ is_PostCommentError e.
Proof.
  revert rule score reason. induction rules as [|r rules IH]; intros rule score reason; simpl.
  - destruct (score =? 20000)%Z; intros H; injection H as <-; simpl; tauto.
  - destruct (try_rule F pr smc sic changed approved checks score reason r) eqn:E.
    + apply IH.
    + discriminate.
    + intros H. injection H as <-. eapply try_rule_raises. exact E.
Qed.

Lemma find_matching_merge_rule_raises F pr smc sic land e :
  find_matching_merge_rule F pr smc sic land = inl e -> ~ is_PostCommentError e.
Proof.
  unfold find_matching_merge_rule, bind, get_changed_files.
  destruct (negb _).
  - intros H. injection H as <-. simpl. tauto.
  - destruct (merge_rules F) as [|r rules] eqn:E.
    + intros H. injection H as <-. simpl. tauto.
    + apply rules_loop_raises.
Qed.

Lemma can_skip_internal_checks_raises pr comment_id e :
  can_skip_internal_checks pr comment_id = inl e -> ~ is_PostCommentError e.
Proof.
  destruct comment_id as [id|]; simpl; [|discriminate].
  unfold bind, get_comment_by_id.
  destruct (match pr_comments pr with
            | Some _ => None
            | None => find_comment id (pr_comments_nodes pr)
            end) as [c|].
  - destruct (editor_login c); discriminate.
  - destruct (find_comment id (get_comments pr)) as [c|].
    + destruct (editor_login c); discriminate.
    + intros H. injection H as <-. simpl. tauto.
Qed.

(** C5: once the triggering comment is resolved, [validate_revert] raises
    [PostCommentError] without having run a git command exactly when that
    comment was edited or its author's association is not among
    COLLABORATOR, MEMBER, OWNER, a set extended with CONTRIBUTOR exactly
    when the base repository is private. *)
Theorem validate_revert_rejects (F : Forge) (repo : GitRepo) (pr : GitHubPR)
    (comment_id : option Z) (comment : GitHubComment) :
  triggering_comment pr comment_id = inr comment ->
  ((exists msg, validate_revert F repo pr comment_id = ([], inl (PostCommentError msg)))
   <-> (editor_login comment <> None
        \/ ~ allowed_reverter (pr_isPrivate pr) (author_association comment))).
Proof.
  intros Hc. unfold validate_revert. fold (triggering_comment pr comment_id). rewrite Hc.
  destruct (editor_login comment) as [ed|] eqn:Hed.
  { split; [intros _; left; discriminate | intros _; eauto]. }
  assert (Hallowed :
    author_association comment
      ∈ ["COLLABORATOR"; "MEMBER"; "OWNER"] ++ (if pr_isPrivate pr then ["CONTRIBUTOR"] else [])
    <-> allowed_reverter (pr_isPrivate pr) (author_association comment)).
  { unfold allowed_reverter. rewrite elem_of_app. destruct (pr_isPrivate pr).
    - rewrite list_elem_of_singleton. intuition.
    - rewrite elem_of_nil. intuition congruence. }
  case_bool_decide as Hin; simpl.
  - rewrite Hallowed in Hin. split; [|intros [H|H]; [congruence | tauto]].
    intros [msg H]. exfalso.
    destruct (can_skip_internal_checks pr comment_id) as [e|skip] eqn:Hskip.
    { injection H as ->. apply can_skip_internal_checks_raises in Hskip. apply Hskip. exact I. }
    destruct (find_matching_merge_rule F pr true skip None) as [e|rule] eqn:Hfind.
    { injection H as ->. apply find_matching_merge_rule_raises in Hfind. apply Hfind. exact I. }
    destruct (pr_mergeCommit pr) as [oid|].
    + destruct (search_diff_rev (commit_message repo oid)); [destruct (negb skip)|];
        discriminate.
    + destruct (head (commits_resolving_gh_pr repo (pr_num pr))) as [sha|]; [|discriminate].
      destruct (search_diff_rev (commit_message repo sha)); [destruct (negb skip)|];
        discriminate.
  - split; [|intros _; eauto]. intros _. right. rewrite <- Hallowed. exact Hin.
Qed.

Lemma validate_revert_rejects_witness :
  exists msg,
    validate_revert (mkForge [] (fun _ _ => true) (fun _ _ => []) (fun _ => []) []
                       (fun _ _ => []) (fun s => s))
      (mkGitRepo (fun _ => []) (fun _ => ""))
      (sample_pr false [sample_comment "mallory" "NONE" None 43]) None
    = ([], inl (PostCommentError msg)).
Proof.
  apply (proj2 (validate_revert_rejects
                  (mkForge [] (fun _ _ => true) (fun _ _ => []) (fun _ => []) []
                     (fun _ _ => []) (fun s => s))
                  (mkGitRepo (fun _ => []) (fun _ => ""))
                  (sample_pr false [sample_comment "mallory" "NONE" None 43]) None
                  (sample_comment "mallory" "NONE" None 43) eq_refl)).
  right. unfold allowed_reverter. simpl.
  intros [H|[H _]]; [|discriminate].
  apply list_elem_of_In in H. simpl in H.
  destruct H as [H|[H|[H|[]]]]; discriminate.
Defined.

(** *** The classifier *)

Lemma dict_set_fresh {V : Type} (k : string) (v : V) (d : list (string * V)) :
  ~ In k (dict_keys d) -> dict_set k v d = d ++ [(k, v)].
Proof.
  induction d as [|[k' v'] d IH]; simpl; [reflexivity|].
  intros Hnotin. destruct (String.eqb_spec k k') as [->|Hne]; [tauto|].
  rewrite IH by tauto. reflexivity.
Qed.

(** Filling an empty dictionary from the items of a dictionary keeps the
    keys and their order. *)
Lemma fold_dict_set_map {V W : Type} (g : string -> V -> W) (l : list (string * V)) :
  NoDup (dict_keys l) ->
  forall acc : list (string * V),
    (forall k, In k (dict_keys l) -> ~ In k (dict_keys acc)) ->
    fold_left (fun res item => dict_set item.1 (g item.1 item.2) res) l
      (map (fun item => (item.1, g item.1 item.2)) acc)
    = map (fun item => (item.1, g item.1 item.2)) (acc ++ l).
Proof.
  induction l as [|[k v] l IH]; intros Hnd acc Hdisj; simpl.
  - rewrite app_nil_r. reflexivity.
  - simpl in Hnd. apply NoDup_cons in Hnd as [Hk Hnd].
    rewrite dict_set_fresh.
    + change (map (fun item => (item.1, g item.1 item.2)) acc ++ [(k, g k v)])
        with (map (fun item => (item.1, g item.1 item.2)) acc
              ++ map (fun item => (item.1, g item.1 item.2)) [(k, v)]).
      rewrite <- map_app. rewrite (IH Hnd).
      * rewrite <- app_assoc. reflexivity.
      * intros k' Hk'. unfold dict_keys. rewrite map_app, in_app_iff. simpl.
        intros [H|[H|[]]].
        -- apply (Hdisj k'); [right; exact Hk' | exact H].
        -- subst. apply Hk. apply list_elem_of_In. exact Hk'.
    + unfold dict_keys. rewrite map_map. simpl. apply Hdisj. left. reflexivity.
Qed.

Lemma get_classifications_map flaky rows head_sha (checks : JobNameToStateDict) :
  NoDup (dict_keys checks) ->
  get_classifications flaky rows head_sha checks
  = map (fun item =>
           (item.1,
            classify flaky (file_jobs head_sha rows).1 (file_jobs head_sha rows).2
              item.1 item.2))
        checks.
Proof.
  intros Hnd. unfold get_classifications.
  apply (fold_dict_set_map
           (classify flaky (file_jobs head_sha rows).1 (file_jobs head_sha rows).2)
           checks Hnd []).
  intros k _ [].
Qed.

Lemma existsb_elem_of {A : Type} (f : A -> bool) (l : list A) :
  existsb f l = true <-> exists x, x ∈ l /\ f x = true.
Proof.
  rewrite existsb_exists. split; intros (x & Hx & Hf); exists x; split; auto;
    apply list_elem_of_In; exact Hx.
Qed.

(** C3: the classifier.  Every check keeps its place, name, url and status.
    A check whose status is [SUCCESS] is left as it is.  Any other check is
    classified [BROKEN_TRUNK] when the head-sha job and the merge-base job
    of its name both exist with equal conclusion and equal failure captures;
    otherwise [FLAKY] when the head-sha job exists with at most one step;
    otherwise [FLAKY] when a flaky rule matches the head-sha job; otherwise
    its classification is the one it came with (nil for a check fresh from
    the aggregator). *)
Theorem get_classifications_cascade (flaky : list FlakyRule) (rows : list Job)
    (head_sha : string) (checks : JobNameToStateDict) (name : string)
    (check : JobCheckState) :
  NoDup (dict_keys checks) ->
  In (name, check) checks ->
  let head_sha_job := (file_jobs head_sha rows).1 !! name in
  let merge_base_job := (file_jobs head_sha rows).2 !! name in
  dict_keys (get_classifications flaky rows head_sha checks) = dict_keys checks
  /\ exists check',
      dict_get name (get_classifications flaky rows head_sha checks) = Some check'
      /\ jcs_name check' = jcs_name check
      /\ jcs_url check' = jcs_url check
      /\ jcs_status check' = jcs_status check
      /\ (jcs_status check = Some "SUCCESS" -> check' = check)
      /\ (jcs_status check <> Some "SUCCESS" ->
          (broken_trunk head_sha_job merge_base_job ->
           jcs_classification check' = Some "BROKEN_TRUNK")
          /\ (~ broken_trunk head_sha_job merge_base_job ->
              crashed_early head_sha_job ->
              jcs_classification check' = Some "FLAKY")
          /\ (~ broken_trunk head_sha_job merge_base_job ->
              ~ crashed_early head_sha_job ->
              (exists rule, rule ∈ flaky /\ matches rule head_sha_job = true) ->
              jcs_classification check' = Some "FLAKY")
          /\ (~ broken_trunk head_sha_job merge_base_job ->
              ~ crashed_early head_sha_job ->
              (forall rule, rule ∈ flaky -> matches rule head_sha_job = false) ->
              jcs_classification check' = jcs_classification check)).
Proof.
  intros Hnd Hin head_sha_job merge_base_job.
  rewrite (get_classifications_map flaky rows head_sha checks Hnd).
  split.
  { unfold dict_keys. rewrite map_map. reflexivity. }
  set (maps := file_jobs head_sha rows) in *.
  exists (classify flaky maps.1 maps.2 name check). split.
  { apply dict_get_In.
    - unfold dict_keys. rewrite map_map. exact Hnd.
    - apply (in_map (fun item => (item.1, classify flaky maps.1 maps.2 item.1 item.2))
               checks (name, check) Hin). }
  assert (Hbt : match head_sha_job, merge_base_job with
                | Some h, Some m =>
                    bool_decide (job_conclusion h = job_conclusion m)
                    && bool_decide (job_failure_captures h = job_failure_captures m)
                | _, _ => false
                end = true <-> broken_trunk head_sha_job merge_base_job).
  { unfold broken_trunk. destruct head_sha_job as [h|], merge_base_job as [m|].
    - rewrite andb_true_iff, !bool_decide_eq_true. split.
      + intros [H1 H2]. exists h, m. auto.
      + intros (h' & m' & Hh & Hm & H1 & H2). injection Hh as <-. injection Hm as <-. auto.
    - split; [discriminate | intros (h' & m' & _ & Hm & _); discriminate].
    - split; [discriminate | intros (h' & m' & Hh & _); discriminate].
    - split; [discriminate | intros (h' & m' & Hh & _); discriminate]. }
  assert (Hce : match head_sha_job with
                | Some h => bool_decide (job_steps h ≤ 1)%Z
                | None => false
                end = true <-> crashed_early head_sha_job).
  { unfold crashed_early. destruct head_sha_job as [h|].
    - rewrite bool_decide_eq_true. split.
      + intros H. exists h. auto.
      + intros (h' & Hh & H). injection Hh as <-. exact H.
    - split; [discriminate | intros (h' & Hh & _); discriminate]. }
  unfold classify. fold head_sha_job merge_base_job.
  case_bool_decide as Hs.
  { repeat split; auto; intros; congruence. }
  destruct (match head_sha_job, merge_base_job with
            | Some h, Some m => _
            | _, _ => false
            end) eqn:Ebt.
  { assert (broken_trunk head_sha_job merge_base_job) by (apply Hbt; reflexivity).
    repeat split; auto; try congruence; tauto. }
  assert (Hnbt : ~ broken_trunk head_sha_job merge_base_job).
  { intros H. apply Hbt in H. discriminate. }
  destruct (match head_sha_job with
            | Some h => bool_decide (job_steps h ≤ 1)%Z
            | None => false
            end) eqn:Ece.
  { assert (crashed_early head_sha_job) by (apply Hce; reflexivity).
    repeat split; auto; try congruence; tauto. }
  assert (Hnce : ~ crashed_early head_sha_job).
  { intros H. apply Hce in H. discriminate. }
  destruct (existsb (fun rule => matches rule head_sha_job) flaky) eqn:Eex.
  - repeat split; auto; try congruence; try tauto.
    intros _ _ Hall. apply existsb_elem_of in Eex as (rule & Hrule & Hm).
    rewrite (Hall rule Hrule) in Hm. discriminate.
  - repeat split; auto; try congruence; try tauto.
    intros _ _ (rule & Hrule & Hm).
    assert (existsb (fun rule => matches rule head_sha_job) flaky = true) as Habs
      by (apply existsb_elem_of; eauto).
    congruence.
Qed.

Lemma get_classifications_cascade_witness :
  exists check',
    dict_get "pull / linux-test" (get_classifications [] sample_rows "0a1b2c" sample_checks)
    = Some check'
    /\ jcs_classification check' = Some "BROKEN_TRUNK".
Proof.
  assert (Hnd : NoDup (dict_keys sample_checks)).
  { compute_done. }
  destruct (get_classifications_cascade [] sample_rows "0a1b2c" sample_checks
              "pull / linux-test"
              (mkJobCheckState "pull / linux-test" "https://ci/1" (Some "FAILURE") None)
              Hnd (or_introl eq_refl))
    as (_ & check' & Hget & _ & _ & _ & _ & Hclass).
  exists check'. split; [exact Hget|].
  apply Hclass; [discriminate|].
  exists (mkJob "pull" "linux-test" 11 (Some "failure") "0a1b2c" (Some ["Timeout"]) 7),
         (mkJob "pull" "linux-test" 5 (Some "failure") "9f8e7d" (Some ["Timeout"]) 7).
  repeat split; vm_compute; reflexivity.
Defined.

(** *** categorize_checks *)

Lemma missing_loop (keys required : list string) (acc : CheckList) :
  fold_left
    (fun pending checkname =>
       if forallb (fun x => negb (str_in checkname x)) keys
       then pending ++ [(checkname, None)] else pending)
    required acc
  = acc ++ map (fun p => (p, None))
             (List.filter (fun p => forallb (fun name => negb (str_in p name)) keys) required).
Proof.
  revert acc. induction required as [|p required IH]; intros acc; simpl.
  - rewrite app_nil_r. reflexivity.
  - rewrite IH. destruct (forallb _ keys); simpl.
    + rewrite <- app_assoc. reflexivity.
    + reflexivity.
Qed.

Lemma categorize_step_entries (check_runs : JobNameToStateDict) (name : string)
    (pending failed ok_failed : CheckList) :
  categorize_step check_runs (pending, failed, ok_failed) name
  = (pending ++ entries check_runs [name] is_pending,
     failed ++ entries check_runs [name] is_failed,
     ok_failed ++ entries check_runs [name] is_ok_failed).
Proof.
  unfold categorize_step, entries, is_pending, is_failed, is_ok_failed, has_status, benign.
  simpl. destruct (dict_get name check_runs) as [c|]; simpl.
  - destruct (jcs_status c) as [st|] eqn:Est; simpl.
    + repeat case_bool_decide; simpl; rewrite !app_nil_r; reflexivity.
    + rewrite !app_nil_r. reflexivity.
  - rewrite !app_nil_r. reflexivity.
Qed.

Lemma entries_cons (check_runs : JobNameToStateDict) (name : string) (names : list string)
    (keep : JobCheckState -> bool) :
  entries check_runs (name :: names) keep
  = entries check_runs [name] keep ++ entries check_runs names keep.
Proof. unfold entries. simpl. rewrite app_nil_r. reflexivity. Qed.

Lemma categorize_loop (check_runs : JobNameToStateDict) (names : list string)
    (pending failed ok_failed : CheckList) :
  fold_left (categorize_step check_runs) names (pending, failed, ok_failed)
  = (pending ++ entries check_runs names is_pending,
     failed ++ entries check_runs names is_failed,
     ok_failed ++ entries check_runs names is_ok_failed).
Proof.
  revert pending failed ok_failed.
  induction names as [|name names IH]; intros pending failed ok_failed.
  - simpl. rewrite !app_nil_r. reflexivity.
  - change (fold_left (categorize_step check_runs) (name :: names) (pending, failed, ok_failed))
      with (fold_left (categorize_step check_runs) names
              (categorize_step check_runs (pending, failed, ok_failed) name)).
    rewrite categorize_step_entries, IH, !(entries_cons check_runs name names), <- !app_assoc.
    reflexivity.
Qed.

Lemma entries_spec (check_runs : JobNameToStateDict) (names : list string)
    (keep : JobCheckState -> bool) (name : string) (url : option string) :
  In (name, url) (entries check_runs names keep) <->
  exists c, In name names /\ dict_get name check_runs = Some c
            /\ keep c = true /\ url = Some (jcs_url c).
Proof.
  unfold entries. rewrite in_flat_map. split.
  - intros (n & Hn & Hin). destruct (dict_get n check_runs) as [c|] eqn:E; [|destruct Hin].
    destruct (keep c) eqn:K; [|destruct Hin].
    destruct Hin as [Heq|[]]. injection Heq as <- <-. exists c. auto.
  - intros (c & Hn & Hget & K & ->). exists name. split; [exact Hn|].
    rewrite Hget, K. left. reflexivity.
Qed.

(** C2: [categorize_checks].  The relevant names are the check names that
    contain a required pattern.  The pending list is, in order, one entry
    [(p, nil)] per required pattern contained in no check name, then the
    relevant checks without a status.  A relevant check with a status that is
    not passing is benign (ok-failed) when classified [FLAKY] or
    [BROKEN_TRUNK] and failed otherwise.  The failed list is the failed
    checks, followed by all the ok-failed ones when there are strictly more
    of them than the threshold. *)
Theorem categorize_checks_spec (check_runs : JobNameToStateDict)
    (required_checks : list string) (ok_failed_checks_threshold : Z) :
  let relevant := relevant_checknames check_runs required_checks in
  let ok_failed := entries check_runs relevant is_ok_failed in
  categorize_checks check_runs required_checks ok_failed_checks_threshold
  = (missing_checks check_runs required_checks ++ entries check_runs relevant is_pending,
     entries check_runs relevant is_failed
     ++ (if (Z.of_nat (length ok_failed) >? ok_failed_checks_threshold)%Z
         then ok_failed else []))
  /\ (forall name,
        In name relevant <->
        In name (dict_keys check_runs)
        /\ exists p, In p required_checks /\ exists pre post, name = pre +:+ p +:+ post)
  /\ (forall p,
        In (p, None) (missing_checks check_runs required_checks) <->
        In p required_checks
        /\ forall name, In name (dict_keys check_runs) ->
                        ~ exists pre post, name = pre +:+ p +:+ post).
Proof.
  intros relevant ok_failed. split; [|split].
  - unfold categorize_checks. rewrite missing_loop. simpl.
    fold relevant. rewrite categorize_loop. simpl. fold ok_failed.
    unfold missing_checks. destruct (_ >? _)%Z; rewrite ?app_nil_r; reflexivity.
  - intros name. unfold relevant, relevant_checknames.
    rewrite filter_In, existsb_exists. split.
    + intros [Hk (p & Hp & Hin)]. split; [exact Hk|]. exists p. split; [exact Hp|].
      apply str_in_spec. exact Hin.
    + intros [Hk (p & Hp & Hin)]. split; [exact Hk|]. exists p. split; [exact Hp|].
      apply str_in_spec. exact Hin.
  - intros p. unfold missing_checks. rewrite in_map_iff. split.
    + intros (q & Heq & Hq). injection Heq as ->. apply filter_In in Hq as [Hp Hall].
      split; [exact Hp|]. intros name Hname Hsub. rewrite forallb_forall in Hall.
      specialize (Hall name Hname). apply str_in_spec in Hsub. rewrite Hsub in Hall.
      discriminate.
    + intros [Hp Hall]. exists p. split; [reflexivity|]. apply filter_In.
      split; [exact Hp|]. apply forallb_forall. intros name Hname.
      destruct (str_in p name) eqn:E; [|reflexivity].
      exfalso. apply (Hall name Hname). apply str_in_spec. exact E.
Qed.

(** *** Numbered labels *)

Lemma candidate_inj (label_base : string) (i j : nat) :
  candidate label_base i = candidate label_base j -> i = j.
Proof.
  assert (Hlen : forall k, label_base <> label_base +:+ "X" +:+ pretty (k + 2)%nat).
  { intros k H. apply (f_equal String.length) in H.
    rewrite !str_app_length in H. simpl in H. lia. }
  destruct i as [|i], j as [|j]; simpl; intros H.
  - reflexivity.
  - exfalso. exact (Hlen j H).
  - exfalso. symmetry in H. exact (Hlen i H).
  - apply String.app_inj in H. apply String.app_inj in H.
    apply (inj pretty) in H. lia.
Qed.

Lemma add_numbered_label_loop (labels : list string) (label_base : string)
    (len start : nat) (label : string) :
  label ∉ labels
  \/ (label = candidate label_base start
      /\ forall j, (j < start)%nat -> candidate label_base j ∈ labels) ->
  fold_left (next_label labels label_base) (seq start len) label ∉ labels
  \/ (fold_left (next_label labels label_base) (seq start len) label
      = candidate label_base (start + len)
      /\ forall j, (j < start + len)%nat -> candidate label_base j ∈ labels).
Proof.
  revert start label. induction len as [|len IH]; intros start label Hinv; simpl.
  - rewrite Nat.add_0_r. exact Hinv.
  - replace (start + S len)%nat with (S start + len)%nat by lia.
    apply IH. unfold next_label. case_bool_decide as Hin.
    + right. split; [reflexivity|]. intros j Hj.
      destruct Hinv as [Hnot|[-> Hall]]; [tauto|].
      destruct (decide (j = start)) as [->|Hne]; [exact Hin|].
      apply Hall. lia.
    + left. exact Hin.
Qed.

(** A list cannot hold more distinct candidates than it has elements. *)
Lemma candidates_overflow (labels : list string) (label_base : string) :
  ~ forall j, (j < S (length labels))%nat -> candidate label_base j ∈ labels.
Proof.
  intros Hall.
  assert (Hnd : NoDup (map (candidate label_base) (seq 0 (S (length labels))))).
  { apply NoDup_fmap_2; [|apply NoDup_ListNoDup, seq_NoDup].
    intros i j. apply candidate_inj. }
  assert (Hincl : incl (map (candidate label_base) (seq 0 (S (length labels)))) labels).
  { intros x Hx. apply in_map_iff in Hx as (j & <- & Hj). apply in_seq in Hj.
    apply list_elem_of_In. apply Hall. lia. }
  apply NoDup_ListNoDup in Hnd.
  pose proof (NoDup_incl_length Hnd Hincl) as Hlen.
  rewrite length_map, length_seq in Hlen. lia.
Qed.

Lemma next_label_candidate (labels : list string) (label_base : string)
    (l : list nat) (i0 : nat) :
  (i0 <= length labels)%nat ->
  (forall i, In i l -> (i < length labels)%nat) ->
  exists i, (i <= length labels)%nat
            /\ fold_left (next_label labels label_base) l (candidate label_base i0)
               = candidate label_base i.
Proof.
  revert i0. induction l as [|a l IH]; intros i0 Hi0 Hl; simpl.
  - exists i0. auto.
  - unfold next_label at 2. case_bool_decide.
    + apply (IH (S a)); [|intros; apply Hl; right; assumption].
      specialize (Hl a (or_introl eq_refl)). lia.
    + apply (IH i0); auto. intros; apply Hl; right; assumption.
Qed.

(** C8: whatever labels the PR carries, the label [add_numbered_label]
    chooses is not among them; it is the base name when that is free, and
    otherwise the base name followed by [X] and a number from 2 on. *)
Theorem add_numbered_label_fresh (labels : list string) (label_base : string) :
  (add_numbered_label labels label_base ∉ labels)
  /\ (label_base ∉ labels -> add_numbered_label labels label_base = label_base)
  /\ exists i, (i <= length labels)%nat
               /\ add_numbered_label labels label_base = candidate label_base i.
Proof.
  unfold add_numbered_label. split; [|split].
  - destruct (add_numbered_label_loop labels label_base (length labels) 0 label_base)
      as [Hfresh|[Heq Hall]].
    + right. split; [reflexivity|]. intros j Hj. lia.
    + exact Hfresh.
    + simpl in Heq, Hall. rewrite Heq. intros Hin.
      apply (candidates_overflow labels label_base). intros j Hj.
      destruct (decide (j = length labels)) as [->|Hne]; [exact Hin|].
      apply Hall. lia.
  - intros Hbase.
    induction (seq 0 (length labels)) as [|i l IH]; simpl; [reflexivity|].
    unfold next_label at 2. rewrite bool_decide_eq_false_2 by exact Hbase. exact IH.
  - apply (next_label_candidate labels label_base _ 0); [lia|].
    intros i Hi. apply in_seq in Hi. lia.
Qed.

Lemma add_numbered_label_fresh_witness :
  add_numbered_label ["ciflow/trunk"] "merged" = "merged".
Proof.
  apply (proj1 (proj2 (add_numbered_label_fresh ["ciflow/trunk"] "merged"))).
  compute_done.
Defined.

(** *** The check aggregator *)

Lemma aggregate_concat (pages : list (list CheckSuite)) (st : Workflows) :
  fold_left add_conclusions pages st = fold_left add_conclusion (concat pages) st.
Proof.
  revert st. induction pages as [|page pages IH]; intros st; simpl; [reflexivity|].
  rewrite fold_left_app. apply IH.
Qed.

Lemma first_suite_app (w : string) (seen : list CheckSuite) (node : CheckSuite) :
  first_suite w (seen ++ [node])
  = match first_suite w seen with
    | Some n => Some n
    | None => if suite_named w node then Some node else None
    end.
Proof.
  unfold first_suite. induction seen as [|n seen IH]; simpl.
  - destruct (suite_named w node); reflexivity.
  - destruct (suite_named w n); [reflexivity | exact IH].
Qed.

Lemma records_ext (st st' : Workflows) (w : string) (node : CheckSuite) :
  dict_get w (workflows st') = dict_get w (workflows st) ->
  records st w node -> records st' w node.
Proof. unfold records. intros ->. auto. Qed.

Lemma add_conclusion_other (st : Workflows) (node : CheckSuite) (w : string) :
  suite_named w node = false ->
  dict_get w (workflows (add_conclusion st node)) = dict_get w (workflows st).
Proof.
  unfold suite_named, add_conclusion. destruct (cs_workflowRun node) as [wr|]; [|reflexivity].
  intros Hne. apply String.eqb_neq in Hne.
  destruct (_ && _); [reflexivity|].
  destruct (dict_get (wr_workflow_name wr) _) as [obj|]; [|reflexivity].
  simpl. rewrite dict_get_set_ne by exact Hne.
  destruct (negb _); [apply dict_get_set_ne; exact Hne | reflexivity].
Qed.

Lemma add_conclusion_recorded (st : Workflows) (seen : list CheckSuite) (node : CheckSuite) :
  recorded st seen -> recorded (add_conclusion st node) (seen ++ [node]).
Proof.
  intros Hrec w. specialize (Hrec w) as Hw. rewrite first_suite_app.
  destruct (suite_named w node) eqn:Enamed.
  2:{ pose proof (add_conclusion_other st node w Enamed) as Hsame.
      destruct (first_suite w seen); [eapply records_ext; eassumption | congruence]. }
  unfold suite_named in Enamed. unfold add_conclusion.
  destruct (cs_workflowRun node) as [wr|] eqn:Ewr; [|discriminate].
  apply String.eqb_eq in Enamed. subst w. unfold dict_mem.
  destruct (first_suite (wr_workflow_name wr) seen) as [n0|] eqn:Efirst.
  - destruct Hw as (wf & wr0 & Hget & Hwr0 & Hname & Hstatus & Hurl).
    rewrite Hget. simpl. rewrite andb_true_r.
    case_bool_decide; [exists wf, wr0; auto|].
    rewrite Hget.
    exists (with_jobs wf (add_checkruns (Some wr) (wcs_jobs wf) (cs_checkRuns node))), wr0.
    simpl. rewrite dict_get_set_eq. auto.
  - rewrite Hw. simpl. rewrite andb_false_r. rewrite dict_get_set_eq.
    eexists _, wr. simpl. rewrite dict_get_set_eq. auto.
Qed.

Lemma add_conclusions_recorded (l seen : list CheckSuite) (st : Workflows) :
  recorded st seen -> recorded (fold_left add_conclusion l st) (seen ++ l).
Proof.
  revert seen st. induction l as [|node l IH]; intros seen st Hrec; simpl.
  - rewrite app_nil_r. exact Hrec.
  - replace (seen ++ node :: l) with ((seen ++ [node]) ++ l) by (rewrite <- app_assoc; reflexivity).
    apply IH. apply add_conclusion_recorded. exact Hrec.
Qed.

(** C4, as claimed, fails: when the first suite of a workflow is cancelled
    and a later one is not, the result kept for the workflow is that of the
    cancelled suite, not that of the first suite that is not cancelled. *)
Lemma first_non_cancelled_counterexample :
  ~ (forall (checksuites : list (list CheckSuite)) (w : string) (node : CheckSuite),
       first_non_cancelled w (concat checksuites) = Some node ->
       records (aggregate checksuites) w node).
Proof.
  intros H.
  specialize (H sample_rerun "pull" (sample_suite "SUCCESS" "https://ci/run/2" []) eq_refl).
  destruct H as (wf & wr & Hget & _ & _ & Hstatus & _).
  vm_compute in Hget. injection Hget as <-. vm_compute in Hstatus. discriminate.
Qed.

(** What a caller of [add_workflow_conclusions] sees in that case. *)
Example cancelled_then_rerun :
  add_workflow_conclusions sample_rerun
  = [("pull", mkJobCheckState "pull" "https://ci/run/1" (Some "CANCELLED") None)].
Proof. vm_compute. reflexivity. Qed.

(** C4 (amended): a check suite whose conclusion is [CANCELLED] is skipped
    whenever a workflow of its name is already recorded; for every workflow
    name the recorded status and url are those of the first suite of that
    name, cancelled or not; and a check run is stored under its name unless
    the entry already there has a passing status, in which case the jobs map
    is left as it is. *)
Theorem add_workflow_conclusions_precedence :
  (forall (st : Workflows) (node : CheckSuite) (wr : WorkflowRun),
     cs_workflowRun node = Some wr ->
     cs_conclusion node = Some "CANCELLED" ->
     dict_mem (wr_workflow_name wr) (workflows st) = true ->
     add_conclusion st node = st)
  /\ (forall (checksuites : list (list CheckSuite)) (w : string),
        match first_suite w (concat checksuites) with
        | Some node => records (aggregate checksuites) w node
        | None => dict_get w (workflows (aggregate checksuites)) = None
        end)
  /\ (forall (workflow_run : option WorkflowRun) (jobs : JobNameToStateDict)
             (run : CheckRun) (existing : JobCheckState),
        let checkrun_name := get_check_run_name_prefix workflow_run +:+ cr_name run in
        dict_get checkrun_name jobs = Some existing ->
        is_passing_status (jcs_status existing) = true ->
        add_checkrun workflow_run jobs (Some run) = jobs)
  /\ (forall (workflow_run : option WorkflowRun) (jobs : JobNameToStateDict)
             (run : CheckRun),
        let checkrun_name := get_check_run_name_prefix workflow_run +:+ cr_name run in
        (forall existing, dict_get checkrun_name jobs = Some existing ->
                          is_passing_status (jcs_status existing) = false) ->
        dict_get checkrun_name (add_checkrun workflow_run jobs (Some run))
        = Some (mkJobCheckState checkrun_name (cr_detailsUrl run) (cr_conclusion run) None)
        /\ forall k, k <> checkrun_name ->
                     dict_get k (add_checkrun workflow_run jobs (Some run)) = dict_get k jobs).
Proof.
  split; [|split; [|split]].
  - intros st node wr Hwr Hc Hmem. unfold add_conclusion. rewrite Hwr, Hc, Hmem.
    rewrite bool_decide_eq_true_2 by reflexivity. reflexivity.
  - intros checksuites w. unfold aggregate. rewrite aggregate_concat.
    apply (add_conclusions_recorded (concat checksuites) []
             {| workflows := []; no_workflow_obj := mkWorkflowCheckState "" "" None [] |}).
    intros w'. reflexivity.
  - intros workflow_run jobs run existing checkrun_name Hget Hpass.
    unfold add_checkrun. fold checkrun_name. rewrite Hget, Hpass. reflexivity.
  - intros workflow_run jobs run checkrun_name Hnp.
    unfold add_checkrun. fold checkrun_name.
    destruct (dict_get checkrun_name jobs) as [existing|] eqn:Hget.
    + rewrite (Hnp existing eq_refl). simpl. split; [apply dict_get_set_eq|].
      intros k Hk. apply dict_get_set_ne. congruence.
    + split; [apply dict_get_set_eq|]. intros k Hk. apply dict_get_set_ne. congruence.
Qed.

Lemma add_workflow_conclusions_precedence_witness :
  records (aggregate sample_rerun) "pull" (sample_suite "CANCELLED" "https://ci/run/1" [])
  /\ add_conclusion (aggregate [[sample_suite "FAILURE" "https://ci/run/1" []]])
       (sample_suite "CANCELLED" "https://ci/run/2" [])
     = aggregate [[sample_suite "FAILURE" "https://ci/run/1" []]].
Proof.
  split.
  - exact (proj1 (proj2 add_workflow_conclusions_precedence) sample_rerun "pull").
  - apply (proj1 add_workflow_conclusions_precedence _ _ (mkWorkflowRun "pull" "https://ci/run/2"));
      reflexivity.
Defined.

(** *** The rule evaluator *)

Lemma non_matching_none (F : Forge) (rule : MergeRule) (changed_files : list string) :
  (0 <? length (non_matching F rule changed_files))%nat
  = negb (forallb (patterns_match F (mr_patterns rule)) changed_files).
Proof.
  unfold non_matching. induction changed_files as [|f l IH]; simpl; [reflexivity|].
  destruct (patterns_match F (mr_patterns rule) f); simpl; [exact IH | reflexivity].
Qed.

Lemma num_matching_files_eq (F : Forge) (rule : MergeRule) (changed_files : list string) :
  (Z.of_nat (length changed_files)
   - Z.of_nat (length (non_matching F rule changed_files)))%Z
  = Z.of_nat (length (List.filter (patterns_match F (mr_patterns rule)) changed_files)).
Proof.
  unfold non_matching. induction changed_files as [|f l IH]; simpl; [reflexivity|].
  destruct (patterns_match F (mr_patterns rule) f); simpl; lia.
Qed.

(** One iteration of the loop is the verdict of the rule, weighed against
    the rejection kept so far. *)
Lemma try_rule_verdict F pr smc sic changed approved checks score reason rule :
  try_rule F pr smc sic changed approved checks score reason rule
  = match verdict_of F pr smc changed approved checks rule with
    | Rejected s m => if (score <? s)%Z then Continue s m else Continue score reason
    | Passed =>
        if negb sic && has_internal_changes pr then Raise internal_changes_error
        else Return rule
    | Crashed e => Raise e
    end.
Proof.
  unfold try_rule, verdict_of.
  rewrite non_matching_none, num_matching_files_eq.
  destruct (negb (forallb _ changed)); [reflexivity|].
  assert (Hreview : (0 <? length (mr_approved_by rule))%nat && (length approved =? 0)%nat
                    = match mr_approved_by rule, approved with
                      | _ :: _, [] => true
                      | _, _ => false
                      end).
  { destruct (mr_approved_by rule), approved; reflexivity. }
  rewrite Hreview.
  assert (Hrest :
    match expand_approvers F (mr_approved_by rule) with
    | inl e => Raise e
    | inr rule_approvers_set =>
        if (length (List.filter (fun login => bool_decide (login ∈ rule_approvers_set)) approved)
            =? 0)%nat && (0 <? length rule_approvers_set)%nat
        then if (score <? 10000)%Z
             then Continue 10000 (approval_reason F (mr_name rule) rule_approvers_set)
             else Continue score reason
        else
          let '(pending_checks, failed_checks) :=
            categorize_checks checks (required_checks_of smc rule) 3 in
          if (0 <? length failed_checks)%nat
          then if (score <? 30000)%Z
               then Continue 30000 (failed_reason pr (mr_name rule) failed_checks)
               else Continue score reason
          else if (0 <? length pending_checks)%nat
          then if (score <? 20000)%Z
               then Continue 20000 (pending_reason pr (mr_name rule) pending_checks)
               else Continue score reason
          else if negb sic && has_internal_changes pr
          then Raise internal_changes_error else Return rule
    end
    = match match expand_approvers F (mr_approved_by rule) with
            | inl e => Crashed e
            | inr approvers =>
                if approvers_disjoint approvers approved
                then Rejected 10000 (approval_reason F (mr_name rule) approvers)
                else checks_verdict pr (mr_name rule)
                       (categorize_checks checks (required_checks_of smc rule) 3)
            end with
      | Rejected s m => if (score <? s)%Z then Continue s m else Continue score reason
      | Passed =>
          if negb sic && has_internal_changes pr then Raise internal_changes_error
          else Return rule
      | Crashed e => Raise e
      end).
  { destruct (expand_approvers F (mr_approved_by rule)) as [e|approvers]; [reflexivity|].
    assert (Hdisj : (length (List.filter (fun login => bool_decide (login ∈ approvers)) approved)
                     =? 0)%nat && (0 <? length approvers)%nat
                    = approvers_disjoint approvers approved).
    { clear Hreview. unfold approvers_disjoint. destruct approvers as [|a approvers].
      - simpl. apply andb_false_r.
      - change (0 <? length (a :: approvers))%nat with true. rewrite andb_true_r.
        generalize (a :: approvers) as set. intros set.
        induction approved as [|x l IH]; simpl; [reflexivity|].
        destruct (bool_decide (x ∈ set)); simpl; [reflexivity | exact IH]. }
    rewrite Hdisj. destruct (approvers_disjoint approvers approved); [reflexivity|].
    destruct (categorize_checks checks (required_checks_of smc rule) 3)
      as [[|p pending] [|f failed]]; reflexivity. }
  destruct (mr_approved_by rule) as [|a l] eqn:Eapp, approved as [|x approved'];
    try reflexivity; exact Hrest.
Qed.






Section rules_loop_facts.
Context (F : Forge) (pr : GitHubPR) (smc sic : bool).
Context (changed approved : list string) (checks : JobNameToStateDict).

Let verdict := verdict_of F pr smc changed approved checks.


End rules_loop_facts.




(** The evaluator keeps its initial text when no rule matches a single file. *)
Example no_file_matches :
  find_matching_merge_rule
    (sample_forge [mkMergeRule "docs" ["docs/"] [] None]) (sample_pr false []) false false None
  = inl (RuntimeError (no_rule_found_reason (sample_pr false []))).
Proof. vm_compute. reflexivity. Qed.

(** The approvers are named in the order in which the run enumerates the
    set: here the reverse of the order of insertion. *)
Example approvers_as_enumerated :
  find_matching_merge_rule
    (mkForge [mkMergeRule "core" ["core/"] ["zed"; "bob"; "carol"; "dave"] None]
       (fun patterns fname => existsb (fun p => String.prefix p fname) patterns)
       (fun _ _ => []) (fun _ => []) [] (fun _ _ => []) (fun s => rev s))
    (sample_pr false []) false false None
  = inl (RuntimeError
           ("Approval needed from one of the following (Rule 'core'):"
            +:+ String LF "" +:+ "dave, carol, bob, zed")).
Proof. vm_compute. reflexivity. Qed.

(** *** Commit messages: the [cc] lines *)

Lemma star_loop_cls {A : Type} (p : ascii -> bool) (k : option ascii -> string -> option A)
    (n : nat) (prev : option ascii) (s : string) :
  (String.length s < n)%nat ->
  star_loop (rmatch (Cls p)) k n prev s = star_cls p k prev s.
Proof.
  revert prev s. induction n as [|n IH]; intros prev s Hn; [lia|].
  destruct s as [|c s']; cbn [star_loop rmatch star_cls]; [reflexivity|].
  destruct (p c); [|reflexivity].
  assert (Hlt : (String.length s' <? String.length (String c s'))%nat = true)
    by (apply Nat.ltb_lt; simpl; lia).
  rewrite Hlt, IH by (simpl in Hn; lia). reflexivity.
Qed.

Lemma rmatch_star_cls {A : Type} (p : ascii -> bool) (k : option ascii -> string -> option A)
    (prev : option ascii) (s : string) :
  rmatch (Star (Cls p)) prev s k = star_cls p k prev s.
Proof. cbn [rmatch]. apply star_loop_cls. lia. Qed.

Lemma not_nl_false (c : ascii) : not_nl c = false -> c = LF.
Proof. unfold not_nl. intros H. apply negb_false_iff, Ascii.eqb_eq in H. exact H. Qed.

Lemma is_word_not_nl (c : ascii) : is_word c = true -> not_nl c = true.
Proof.
  intros Hw. destruct (not_nl c) eqn:E; [reflexivity|].
  apply not_nl_false in E. subst. discriminate Hw.
Qed.

Section rmatch_equations.
Context {A : Type}.
Implicit Types (k : option ascii -> string -> option A) (prev : option ascii) (s : string).

Lemma rmatch_Cat r1 r2 prev s k :
  rmatch (Cat r1 r2) prev s k = rmatch r1 prev s (fun prev' s' => rmatch r2 prev' s' k).
Proof. reflexivity. Qed.

Lemma rmatch_Chr_cons c c' prev s k :
  rmatch (Chr c) prev (String c' s) k = if Ascii.eqb c c' then k (Some c') s else None.
Proof. reflexivity. Qed.

Lemma rmatch_Chr_nil c prev k : rmatch (Chr c) prev EmptyString k = None.
Proof. reflexivity. Qed.

Lemma rmatch_Cls_cons p c' prev s k :
  rmatch (Cls p) prev (String c' s) k = if p c' then k (Some c') s else None.
Proof. reflexivity. Qed.

Lemma rmatch_Cls_nil p prev k : rmatch (Cls p) prev EmptyString k = None.
Proof. reflexivity. Qed.

Lemma rmatch_Opt r prev s k :
  rmatch (Opt r) prev s k
  = match rmatch r prev s k with Some a => Some a | None => k prev s end.
Proof. reflexivity. Qed.

Lemma rmatch_Bol prev s k : rmatch Bol prev s k = if at_bol prev then k prev s else None.
Proof. reflexivity. Qed.

Lemma rmatch_Eol prev s k : rmatch Eol prev s k = if at_eol s then k prev s else None.
Proof. reflexivity. Qed.
End rmatch_equations.

Section cc_line.
(** The pieces of [RE_PR_CC_LINE] behind [^cc:?]. *)
Let tail : regex := Cat (Opt (Chr CR)) (Cat (Opt (Chr LF)) Eol).
Let rest_of_line : regex := Cat (Star (Cls not_nl)) tail.
Let address : regex :=
  Cat (Cat (Chr " ") (Chr "@")) (Cat (Cat (Cls is_word) (Star (Cls is_word))) rest_of_line).
Let ret : option ascii -> string -> option (option ascii * string) :=
  fun prev s => Some (prev, s).

Lemma cc_tail_spec (prev : option ascii) (s : string) :
  at_eol s = true -> rmatch tail prev s ret = Some (cc_end prev s).
Proof.
  unfold tail. rewrite rmatch_Cat, rmatch_Opt.
  destruct s as [|c s'].
  - intros _. rewrite rmatch_Chr_nil, rmatch_Cat, rmatch_Opt, rmatch_Chr_nil, rmatch_Eol.
    reflexivity.
  - intros H. apply Ascii.eqb_eq in H. subst c.
    rewrite rmatch_Chr_cons. change (Ascii.eqb CR LF) with false. cbv iota.
    rewrite rmatch_Cat, rmatch_Opt, rmatch_Chr_cons.
    change (Ascii.eqb LF LF) with true. cbv iota. rewrite !rmatch_Eol.
    cbn [cc_end]. change (not_nl LF) with false. cbv iota.
    change (at_eol (String LF s')) with true. cbv iota.
    destruct (at_eol s'); reflexivity.
Qed.

Lemma cc_rest_of_line_spec (prev : option ascii) (s : string) :
  rmatch rest_of_line prev s ret = Some (cc_end prev s).
Proof.
  unfold rest_of_line. rewrite rmatch_Cat, rmatch_star_cls.
  revert prev. induction s as [|c s' IH]; intros prev.
  - cbn [star_cls]. apply cc_tail_spec. reflexivity.
  - cbn [star_cls cc_end]. destruct (not_nl c) eqn:E.
    + rewrite IH. reflexivity.
    + apply not_nl_false in E. subst c.
      rewrite (cc_tail_spec prev (String LF s') eq_refl).
      cbn [cc_end]. change (not_nl LF) with false. reflexivity.
Qed.

Lemma cc_words_spec (prev : option ascii) (s : string) :
  star_cls is_word (fun p s0 => rmatch rest_of_line p s0 ret) prev s
  = Some (cc_end prev s).
Proof.
  revert prev. induction s as [|c s' IH]; intros prev.
  - cbn [star_cls]. apply cc_rest_of_line_spec.
  - cbn [star_cls]. destruct (is_word c) eqn:E.
    + rewrite IH. cbn [cc_end]. rewrite (is_word_not_nl c E). reflexivity.
    + apply cc_rest_of_line_spec.
Qed.

Lemma cc_address_spec (prev : option ascii) (s : string) :
  rmatch address prev s ret
  = if cc_address s then Some (cc_end prev s) else None.
Proof.
  unfold address, cc_address, starts. rewrite !rmatch_Cat.
  destruct s as [|c0 s0]; [reflexivity|].
  rewrite rmatch_Chr_cons.
  destruct (Ascii.eqb_spec " " c0) as [<-|]; [|reflexivity].
  destruct s0 as [|c1 s1]; [reflexivity|].
  rewrite rmatch_Chr_cons.
  destruct (Ascii.eqb_spec "@" c1) as [<-|]; [|reflexivity].
  rewrite !rmatch_Cat.
  destruct s1 as [|w s2]; [reflexivity|].
  rewrite rmatch_Cls_cons.
  destruct (is_word w) eqn:E; [|reflexivity].
  rewrite rmatch_star_cls, cc_words_spec.
  cbn [cc_end]. change (not_nl " ") with true. change (not_nl "@") with true.
  rewrite (is_word_not_nl w E). reflexivity.
Qed.

(** A match of [RE_PR_CC_LINE] starts at a line start whose line has a [cc]
    head, and ends where [cc_end] says. *)
Lemma match_cc_line (prev : option ascii) (s : string) :
  match_at RE_PR_CC_LINE prev s
  = if at_bol prev && cc_head s then Some (cc_end prev s) else None.
Proof.
  change (match_at RE_PR_CC_LINE prev s)
    with (rmatch (Cat Bol (Cat (Cat (Chr "c") (Chr "c")) (Cat (Opt (Chr ":")) address)))
            prev s ret).
  rewrite rmatch_Cat, rmatch_Bol.
  destruct (at_bol prev); [|reflexivity]. cbn [andb].
  unfold cc_head, starts. rewrite !rmatch_Cat.
  destruct s as [|c0 s0]; [reflexivity|].
  rewrite rmatch_Chr_cons.
  destruct (Ascii.eqb_spec "c" c0) as [<-|]; [|reflexivity].
  destruct s0 as [|c1 s1]; [reflexivity|].
  rewrite rmatch_Chr_cons.
  destruct (Ascii.eqb_spec "c" c1) as [<-|]; [|reflexivity].
  rewrite rmatch_Cat, rmatch_Opt.
  cbn [cc_end]. change (not_nl "c") with true. cbv iota.
  destruct s1 as [|c2 s2].
  - rewrite rmatch_Chr_nil, cc_address_spec. reflexivity.
  - rewrite rmatch_Chr_cons. destruct (Ascii.eqb_spec ":" c2) as [<-|Hne].
    + rewrite !cc_address_spec. cbn [cc_end]. change (not_nl ":") with true. cbv iota.
      destruct (cc_address s2); reflexivity.
    + rewrite cc_address_spec. reflexivity.
Qed.
End cc_line.

Lemma cc_end_eol (prev : option ascii) (s : string) : at_eol (cc_end prev s).2 = true.
Proof.
  revert prev. induction s as [|c s' IH]; intros prev; cbn [cc_end]; [reflexivity|].
  destruct (not_nl c) eqn:E; [apply IH|].
  destruct (at_eol s') eqn:E'; [exact E'|].
  apply not_nl_false in E. subst c. reflexivity.
Qed.

Lemma cc_end_length (prev : option ascii) (s : string) :
  (String.length (cc_end prev s).2 <= String.length s)%nat.
Proof.
  revert prev. induction s as [|c s' IH]; intros prev; cbn [cc_end]; [simpl; lia|].
  destruct (not_nl c); [specialize (IH (Some c)); simpl; lia|].
  destruct (at_eol s'); simpl; lia.
Qed.

Lemma cc_head_shrinks (prev : option ascii) (s : string) :
  cc_head s = true -> (String.length (cc_end prev s).2 < String.length s)%nat.
Proof.
  unfold cc_head, starts. destruct s as [|c s']; [discriminate|].
  destruct (Ascii.eqb_spec "c" c) as [<-|]; [|discriminate]. intros _.
  cbn [cc_end]. change (not_nl "c") with true. cbv iota.
  pose proof (cc_end_length (Some "c"%char) s'). simpl. lia.
Qed.

Lemma at_eol_no_head (s : string) : at_eol s = true -> cc_head s = false.
Proof.
  destruct s as [|c s']; [reflexivity|]. intros H. apply Ascii.eqb_eq in H. subst c.
  reflexivity.
Qed.

Lemma starts_first_line (c : ascii) (s : string) :
  not_nl c = true ->
  starts c (first_line s) = option_map first_line (starts c s).
Proof.
  intros Hc. destruct s as [|c' s']; [reflexivity|]. cbn [first_line starts].
  destruct (not_nl c') eqn:E.
  - cbn [starts]. destruct (Ascii.eqb c c'); reflexivity.
  - apply not_nl_false in E. subst c'.
    destruct (Ascii.eqb_spec c LF) as [->|]; [discriminate Hc | reflexivity].
Qed.

Lemma cc_address_first_line (s : string) : cc_address (first_line s) = cc_address s.
Proof.
  unfold cc_address. rewrite starts_first_line by reflexivity.
  destruct (starts " " s) as [s1|]; [|reflexivity]. cbn [option_map].
  rewrite starts_first_line by reflexivity.
  destruct (starts "@" s1) as [[|w s2]|]; try reflexivity. cbn [option_map first_line].
  destruct (not_nl w) eqn:E; [reflexivity|].
  apply not_nl_false in E. subst w. reflexivity.
Qed.

(** Whether a text has a [cc] head is decided by its first line. *)
Lemma cc_head_first_line (s : string) : cc_head (first_line s) = cc_head s.
Proof.
  unfold cc_head. rewrite starts_first_line by reflexivity.
  destruct (starts "c" s) as [s0|]; [|reflexivity]. cbn [option_map].
  rewrite starts_first_line by reflexivity.
  destruct (starts "c" s0) as [s1|]; [|reflexivity]. cbn [option_map].
  rewrite starts_first_line by reflexivity.
  destruct (starts ":" s1) as [s2|]; cbn [option_map]; apply cc_address_first_line.
Qed.

Lemma at_bol_Some (c : ascii) : at_bol (Some c) = negb (not_nl c).
Proof. unfold at_bol, not_nl. rewrite negb_involutive. reflexivity. Qed.

(** Inside a line the scan copies the text up to the end of the line. *)
Lemma first_line_sub_go (n : nat) (prev : option ascii) (s : string) :
  at_bol prev = false ->
  first_line (sub_go RE_PR_CC_LINE "" n prev s) = first_line s.
Proof.
  revert prev s. induction n as [|n IH]; intros prev s Hbol; [reflexivity|].
  cbn [sub_go]. rewrite match_cc_line, Hbol. cbn [andb].
  destruct s as [|c s']; [reflexivity|]. cbn [first_line].
  destruct (not_nl c) eqn:E; [|reflexivity].
  rewrite IH; [reflexivity|]. rewrite at_bol_Some, E. reflexivity.
Qed.

(** The scan leaves a text without [cc] lines as it is. *)
Lemma sub_go_cc_free (n : nat) (prev : option ascii) (s : string) :
  cc_free prev s -> sub_go RE_PR_CC_LINE "" n prev s = s.
Proof.
  revert prev s. induction n as [|n IH]; intros prev s Hfree; [reflexivity|].
  cbn [sub_go]. rewrite match_cc_line.
  destruct s as [|c s']; destruct Hfree as [-> Hrest]; [reflexivity|].
  rewrite (IH (Some c) s' Hrest). reflexivity.
Qed.

(** What the scan returns has no [cc] line.  [prev] is the character before
    the position in the text read, [out_prev] the one before the text
    written; they differ only behind a removed line. *)
Lemma cc_free_sub_go (n : nat) (prev out_prev : option ascii) (s : string) :
  (String.length s < n)%nat ->
  (at_bol out_prev = true -> at_bol prev = true \/ cc_head s = false) ->
  cc_free out_prev (sub_go RE_PR_CC_LINE "" n prev s).
Proof.
  revert prev out_prev s. induction n as [|n IH]; intros prev out_prev s Hn Hsync; [lia|].
  cbn [sub_go]. rewrite match_cc_line.
  destruct (at_bol prev && cc_head s) eqn:Ematch.
  - apply andb_true_iff in Ematch as [Hbol Hhead].
    pose proof (cc_head_shrinks prev s Hhead) as Hshrink.
    pose proof (cc_end_eol prev s) as Heol.
    destruct (cc_end prev s) as [prev' rest]. cbn [snd] in *.
    rewrite (proj2 (Nat.ltb_lt _ _) Hshrink). rewrite str_app_nil.
    apply IH; [lia|]. intros _. right. apply at_eol_no_head. exact Heol.
  - destruct s as [|c s'].
    + split; [|exact I]. apply andb_false_r.
    + cbn [cc_free]. split.
      * destruct (at_bol out_prev) eqn:Eout; [|reflexivity]. cbn [andb].
        rewrite <- cc_head_first_line. cbn [first_line].
        destruct (not_nl c) eqn:Ec; [|reflexivity].
        rewrite first_line_sub_go by (rewrite at_bol_Some, Ec; reflexivity).
        assert (Hhead : cc_head (String c s') = false).
        { destruct (Hsync eq_refl) as [Hbol|Hhead]; [|exact Hhead].
          rewrite Hbol in Ematch. exact Ematch. }
        rewrite <- Hhead, <- (cc_head_first_line (String c s')). cbn [first_line].
        rewrite Ec. reflexivity.
      * apply IH; [simpl in Hn; lia|]. intros H. left. exact H.
Qed.

(** Removing the [cc] lines once more changes nothing. *)
Lemma re_sub_cc_idempotent (s : string) :
  re_sub RE_PR_CC_LINE "" (re_sub RE_PR_CC_LINE "" s) = re_sub RE_PR_CC_LINE "" s.
Proof.
  unfold re_sub at 1. apply sub_go_cc_free.
  apply cc_free_sub_go; [lia|]. intros _. left. reflexivity.
Qed.

(** C9, as claimed, fails: with the ghstack block filtered, stripping the
    body a second time removes a block the first pass put together. *)
Lemma msg_body_idempotent_counterexample :
  ~ (forall (filter_ghstack : bool) (body : string),
       msg_body filter_ghstack (msg_body filter_ghstack body)
       = msg_body filter_ghstack body).
Proof.
  intros H. specialize (H true sample_ghstack_body).
  vm_compute in H. discriminate H.
Qed.

(** The two passes on that body. *)
Example ghstack_strip_twice :
  msg_body true sample_ghstack_body = "Stack y:" +:+ String LF "" +:+ "* b" +:+ String LF ""
  /\ msg_body true (msg_body true sample_ghstack_body) = "".
Proof. split; vm_compute; reflexivity. Qed.

(** A [cc] line whose address starts with a letter outside ASCII (here the
    code point 233, e with an acute accent) is removed like any other; the
    line feed behind it stays, as text follows. *)
Example cc_line_with_accent :
  msg_body false
    ("Fix" +:+ String LF "" +:+ "cc @" +:+ String (ascii_of_nat 233) "lan"
     +:+ String LF "" +:+ "end")
  = "Fix" +:+ String LF (String LF "") +:+ "end".
Proof. vm_compute. reflexivity. Qed.

(** C9 (amended): without the ghstack filter, the body stripping of
    [gen_commit_message] (the removal of the [cc] lines) is idempotent for
    every body. *)
Theorem msg_body_cc_idempotent (body : string) :
  msg_body false (msg_body false body) = msg_body false body.
Proof. unfold msg_body. apply re_sub_cc_idempotent. Qed.

(** ** Part III: further properties of the code *)

(** *** Dictionaries *)

Lemma dict_set_In {V : Type} (k k' : string) (v v' : V) (d : list (string * V)) :
  In (k', v') (dict_set k v d) -> (k', v') = (k, v) \/ In (k', v') d.
Proof.
  induction d as [|[k0 v0] d IH]; simpl.
  - intros [H|[]]. left. congruence.
  - destruct (String.eqb k k0); simpl; intros [H|H]; auto.
    destruct (IH H); auto.
Qed.

Lemma dict_set_keys {V : Type} (k : string) (v : V) (d : list (string * V)) :
  dict_keys (dict_set k v d)
  = if dict_mem k d then dict_keys d else dict_keys d ++ [k].
Proof.
  unfold dict_mem. induction d as [|[k0 v0] d IH]; simpl; [reflexivity|].
  destruct (String.eqb_spec k k0) as [->|Hne]; simpl; [reflexivity|].
  rewrite IH. destruct (dict_get k d); reflexivity.
Qed.

Lemma dict_set_NoDup {V : Type} (k : string) (v : V) (d : list (string * V)) :
  NoDup (dict_keys d) -> NoDup (dict_keys (dict_set k v d)).
Proof.
  intros Hnd. rewrite dict_set_keys. destruct (dict_mem k d) eqn:E; [exact Hnd|].
  apply NoDup_app. split; [exact Hnd|]. split; [|apply NoDup_singleton].
  intros x Hx Hk. apply list_elem_of_singleton in Hk. subst x.
  assert (dict_mem k d = true) by (apply dict_mem_true, list_elem_of_In; exact Hx).
  congruence.
Qed.

Lemma dict_update_NoDup {V : Type} (res d : list (string * V)) :
  NoDup (dict_keys res) -> NoDup (dict_keys (dict_update res d)).
Proof.
  unfold dict_update. revert res. induction d as [|[k v] d IH]; intros res Hnd; simpl.
  - exact Hnd.
  - apply IH. apply dict_set_NoDup. exact Hnd.
Qed.

Lemma dict_update_In {V : Type} (res d : list (string * V)) (k : string) (v : V) :
  In (k, v) (dict_update res d) -> In (k, v) res \/ In (k, v) d.
Proof.
  unfold dict_update. revert res. induction d as [|[k0 v0] d IH]; intros res; simpl; [auto|].
  intros H. destruct (IH _ H) as [H1|H1]; [|auto].
  destruct (dict_set_In _ _ _ _ _ H1); auto.
Qed.

(** *** The check aggregator: shape of the result *)

Lemma well_named_set (d : JobNameToStateDict) (k : string) (c : JobCheckState) :
  well_named d -> jcs_name c = k -> jcs_classification c = None ->
  well_named (dict_set k c d).
Proof.
  intros Hd Hn Hc k' c' Hin. destruct (dict_set_In _ _ _ _ _ Hin) as [Heq|Hin'].
  - injection Heq as -> ->. auto.
  - apply Hd. exact Hin'.
Qed.

Lemma well_named_update (res d : JobNameToStateDict) :
  well_named res -> well_named d -> well_named (dict_update res d).
Proof.
  intros Hres Hd k c Hin. destruct (dict_update_In _ _ _ _ Hin); auto.
Qed.

Lemma add_checkrun_well_named workflow_run jobs node :
  well_named jobs -> well_named (add_checkrun workflow_run jobs node).
Proof.
  intros Hj. unfold add_checkrun. destruct node as [node|]; [|exact Hj].
  destruct (match dict_get _ jobs with Some _ => _ | None => true end); [|exact Hj].
  apply well_named_set; auto.
Qed.

Lemma add_checkruns_well_named workflow_run jobs pages :
  well_named jobs -> well_named (add_checkruns workflow_run jobs pages).
Proof.
  unfold add_checkruns. revert jobs.
  induction pages as [|page pages IH]; intros jobs Hj; simpl; [exact Hj|].
  apply IH. clear IH. revert jobs Hj.
  induction page as [|node page IH]; intros jobs Hj; simpl; [exact Hj|].
  apply IH. apply add_checkrun_well_named. exact Hj.
Qed.

Lemma add_conclusion_well_formed (st : Workflows) (node : CheckSuite) :
  well_formed st -> well_formed (add_conclusion st node).
Proof.
  intros [Hw Hn]. unfold add_conclusion.
  destruct (cs_workflowRun node) as [wr|].
  - destruct (_ && _); [split; assumption|].
    set (workflows1 := if negb (dict_mem (wr_workflow_name wr) (workflows st)) then _ else _).
    assert (Hw1 : forall w wf, In (w, wf) workflows1 ->
                    wcs_name wf = w /\ well_named (wcs_jobs wf)).
    { intros w wf Hin. unfold workflows1 in Hin. destruct (negb _); [|auto].
      destruct (dict_set_In _ _ _ _ _ Hin) as [Heq|Hin']; [|auto].
      injection Heq as -> ->. split; [reflexivity|]. intros k c []. }
    destruct (dict_get (wr_workflow_name wr) workflows1) as [obj|] eqn:Eget;
      [|split; assumption].
    split; [|exact Hn]. cbn [workflows]. intros w wf Hin.
    destruct (dict_set_In _ _ _ _ _ Hin) as [Heq|Hin']; [|auto].
    injection Heq as -> ->. apply dict_get_Some_In in Eget. destruct (Hw1 _ _ Eget) as [H1 H2].
    split; [exact H1|]. cbn [with_jobs wcs_jobs]. apply add_checkruns_well_named. exact H2.
  - split; [exact Hw|]. cbn [no_workflow_obj with_jobs wcs_jobs].
    apply add_checkruns_well_named. exact Hn.
Qed.

Lemma aggregate_well_formed (checksuites : list (list CheckSuite)) :
  well_formed (aggregate checksuites).
Proof.
  unfold aggregate. rewrite aggregate_concat.
  assert (H0 : well_formed
                 {| workflows := []; no_workflow_obj := mkWorkflowCheckState "" "" None [] |}).
  { split; [intros w wf [] | intros k c []]. }
  revert H0. generalize (concat checksuites) as l.
  generalize {| workflows := []; no_workflow_obj := mkWorkflowCheckState "" "" None [] |}.
  intros st l. revert st. induction l as [|node l IH]; intros st Hst; simpl; [exact Hst|].
  apply IH. apply add_conclusion_well_formed. exact Hst.
Qed.

Lemma flatten_NoDup (st : Workflows) : NoDup (dict_keys (flatten st)).
Proof.
  unfold flatten. apply dict_update_NoDup.
  assert (Hnil : NoDup (dict_keys (@nil (string * JobCheckState)))) by apply NoDup_nil_2.
  revert Hnil. generalize (@nil (string * JobCheckState)).
  induction (workflows st) as [|[w wf] l IH]; intros res Hres; simpl; [exact Hres|].
  apply IH. destruct (0 <? length (wcs_jobs wf))%nat.
  - apply dict_update_NoDup. exact Hres.
  - apply dict_set_NoDup. exact Hres.
Qed.

Lemma flatten_well_named (st : Workflows) : well_formed st -> well_named (flatten st).
Proof.
  intros [Hw Hn]. unfold flatten. apply well_named_update; [|exact Hn].
  assert (Hnil : well_named []) by (intros k c []).
  revert Hnil. generalize (@nil (string * JobCheckState)).
  induction (workflows st) as [|[w wf] l IH]; intros res Hres; simpl; [exact Hres|].
  destruct (Hw w wf (or_introl eq_refl)) as [Hname Hjobs].
  apply IH.
  - intros w' wf' Hin. apply Hw. right. exact Hin.
  - cbn [fst snd]. destruct (0 <? length (wcs_jobs wf))%nat.
    + apply well_named_update; assumption.
    + apply well_named_set; auto.
Qed.

(** X1: the dictionary [add_workflow_conclusions] returns has distinct keys,
    and each of its entries carries its key as its name and no
    classification. *)
Theorem add_workflow_conclusions_shape (checksuites : list (list CheckSuite)) :
  NoDup (dict_keys (add_workflow_conclusions checksuites))
  /\ forall k c, In (k, c) (add_workflow_conclusions checksuites) ->
                 jcs_name c = k /\ jcs_classification c = None.
Proof.
  unfold add_workflow_conclusions. split.
  - apply flatten_NoDup.
  - apply flatten_well_named, aggregate_well_formed.
Qed.

(** *** The check aggregator: a passing job stays *)

Lemma add_checkrun_sticky workflow_run jobs node name e :
  dict_get name jobs = Some e ->
  is_passing_status (jcs_status e) = true ->
  dict_get name (add_checkrun workflow_run jobs node) = Some e.
Proof.
  intros Hget Hpass. unfold add_checkrun. destruct node as [node|]; [|exact Hget].
  destruct (String.eqb_spec (get_check_run_name_prefix workflow_run +:+ cr_name node) name)
    as [Heq|Hne].
  - rewrite Heq, Hget, Hpass. exact Hget.
  - destruct (match dict_get _ jobs with Some _ => _ | None => true end); [|exact Hget].
    rewrite dict_get_set_ne by exact Hne. exact Hget.
Qed.

Lemma add_checkruns_sticky workflow_run jobs pages name e :
  dict_get name jobs = Some e ->
  is_passing_status (jcs_status e) = true ->
  dict_get name (add_checkruns workflow_run jobs pages) = Some e.
Proof.
  intros Hget Hpass. unfold add_checkruns. revert jobs Hget.
  induction pages as [|page pages IH]; intros jobs Hget; simpl; [exact Hget|].
  apply IH. clear IH. revert jobs Hget.
  induction page as [|node page IH]; intros jobs Hget; simpl; [exact Hget|].
  apply IH. apply add_checkrun_sticky; assumption.
Qed.

Lemma add_conclusion_sticky (st : Workflows) (node : CheckSuite) w wf name e :
  dict_get w (workflows st) = Some wf ->
  dict_get name (wcs_jobs wf) = Some e ->
  is_passing_status (jcs_status e) = true ->
  exists wf',
    dict_get w (workflows (add_conclusion st node)) = Some wf'
    /\ dict_get name (wcs_jobs wf') = Some e.
Proof.
  intros Hw Hjob Hpass. destruct (suite_named w node) eqn:Enamed.
  2:{ exists wf. rewrite (add_conclusion_other st node w Enamed). auto. }
  unfold suite_named in Enamed. unfold add_conclusion.
  destruct (cs_workflowRun node) as [wr|]; [|discriminate].
  apply String.eqb_eq in Enamed. subst w.
  unfold dict_mem. rewrite Hw. cbn [negb]. rewrite Hw.
  destruct (_ && true); [eauto|].
  eexists. cbn [workflows]. rewrite dict_get_set_eq. split; [reflexivity|].
  cbn [with_jobs wcs_jobs]. apply add_checkruns_sticky; assumption.
Qed.

(** X2: rerun precedence, job by job.  Once a workflow holds a job with a
    passing status (SUCCESS, SKIPPED or NEUTRAL, in any letter case), no
    check suite processed later changes that entry. *)
Theorem passing_job_is_kept (st : Workflows) (suites : list CheckSuite)
    (w : string) (wf : WorkflowCheckState) (name : string) (e : JobCheckState) :
  dict_get w (workflows st) = Some wf ->
  dict_get name (wcs_jobs wf) = Some e ->
  is_passing_status (jcs_status e) = true ->
  exists wf',
    dict_get w (workflows (add_conclusions st suites)) = Some wf'
    /\ dict_get name (wcs_jobs wf') = Some e.
Proof.
  unfold add_conclusions. revert st wf.
  induction suites as [|node suites IH]; intros st wf Hw Hjob Hpass; simpl; [eauto|].
  destruct (add_conclusion_sticky st node w wf name e Hw Hjob Hpass) as (wf1 & Hw1 & Hjob1).
  exact (IH _ wf1 Hw1 Hjob1 Hpass).
Qed.

Lemma passing_job_is_kept_witness :
  exists wf',
    dict_get "pull" (workflows (add_conclusions (aggregate [[sample_first_run]])
                                  [sample_second_run])) = Some wf'
    /\ dict_get "pull / build" (wcs_jobs wf')
       = Some (mkJobCheckState "pull / build" "https://ci/job/1" (Some "SUCCESS") None).
Proof.
  eapply (passing_job_is_kept (aggregate [[sample_first_run]]) [sample_second_run] "pull");
    vm_compute; reflexivity.
Defined.

(** *** Approvals *)

Lemma latest_state_cons (login : string) (review : string * string)
    (reviews : list (string * string)) :
  latest_state login (review :: reviews)
  = match latest_state login reviews with
    | Some state => Some state
    | None =>
        if String.eqb review.1 login && negb (String.eqb review.2 "COMMENTED")
        then Some review.2 else None
    end.
Proof.
  unfold latest_state. cbn [List.filter].
  destruct (String.eqb review.1 login && negb (String.eqb review.2 "COMMENTED")).
  - cbn [map]. rewrite last_cons. reflexivity.
  - destruct (last _); reflexivity.
Qed.

Lemma reviews_fold_get (login : string) (reviews acc : list (string * string)) :
  dict_get login
    (fold_left
       (fun reviews item =>
          if negb (String.eqb item.2 "COMMENTED") then dict_set item.1 item.2 reviews
          else reviews)
       reviews acc)
  = match latest_state login reviews with
    | Some state => Some state
    | None => dict_get login acc
    end.
Proof.
  revert acc. induction reviews as [|[author state] reviews IH]; intros acc.
  - reflexivity.
  - cbn [fold_left]. rewrite IH, latest_state_cons. cbn [fst snd].
    destruct (latest_state login reviews); [reflexivity|].
    destruct (String.eqb state "COMMENTED"); cbn [negb].
    + rewrite andb_false_r. reflexivity.
    + rewrite andb_true_r, dict_get_set. rewrite (String.eqb_sym author login).
      destruct (String.eqb login author); reflexivity.
Qed.

Lemma reviews_fold_NoDup (reviews acc : list (string * string)) :
  NoDup (dict_keys acc) ->
  NoDup (dict_keys
           (fold_left
              (fun reviews item =>
                 if negb (String.eqb item.2 "COMMENTED") then dict_set item.1 item.2 reviews
                 else reviews)
              reviews acc)).
Proof.
  revert acc. induction reviews as [|[author state] reviews IH]; intros acc Hnd; [exact Hnd|].
  cbn [fold_left]. apply IH. destruct (negb _); [apply dict_set_NoDup|]; exact Hnd.
Qed.

Lemma NoDup_keys_filter {V : Type} (f : string * V -> bool) (d : list (string * V)) :
  NoDup (dict_keys d) -> NoDup (map fst (List.filter f d)).
Proof.
  induction d as [|[k v] d IH]; simpl; intros Hnd; [apply NoDup_nil_2|].
  apply NoDup_cons in Hnd as [Hk Hnd]. destruct (f (k, v)); [|auto].
  simpl. apply NoDup_cons. split; [|auto].
  intros Hin. apply Hk. apply list_elem_of_In in Hin. apply list_elem_of_In.
  apply in_map_iff in Hin as ([k' v'] & Heq & Hin). simpl in Heq. subst k'.
  apply filter_In in Hin as [Hin _]. change k with (fst (k, v')). apply in_map. exact Hin.
Qed.

(** X3: the approvers of a PR.  A login approves the PR exactly when the
    last review of that login that is not a mere comment has the state
    [APPROVED]; no login is listed twice. *)
Theorem get_approved_by_latest (pr : GitHubPR) :
  NoDup (get_approved_by pr)
  /\ forall login,
       In login (get_approved_by pr) <->
       latest_state login (review_history pr) = Some "APPROVED".
Proof.
  assert (Hnd : NoDup (dict_keys (_get_reviews pr))).
  { apply reviews_fold_NoDup. apply NoDup_nil_2. }
  assert (Hget : forall login,
            dict_get login (_get_reviews pr) = latest_state login (review_history pr)).
  { intros login. unfold _get_reviews. fold (review_history pr). rewrite reviews_fold_get.
    destruct (latest_state login (review_history pr)); reflexivity. }
  unfold get_approved_by. split; [apply NoDup_keys_filter; exact Hnd|].
  intros login. rewrite <- Hget, in_map_iff. split.
  - intros ([login' state] & Heq & Hin). simpl in Heq. subst login'.
    apply filter_In in Hin as [Hin Hstate]. simpl in Hstate. apply String.eqb_eq in Hstate.
    subst state. apply dict_get_In; assumption.
  - intros Hlogin. exists (login, "APPROVED"). split; [reflexivity|].
    apply filter_In. split; [|reflexivity]. apply dict_get_Some_In. exact Hlogin.
Qed.

(** *** Comments *)

(** X4: [get_comment_by_id] answers with a comment of the requested id, taken
    from the comments of the PR (or, before the comments were fetched, from
    the page that came with the PR); it raises its "not found" error only
    when no fetched comment has that id. *)
Theorem get_comment_by_id_spec (pr : GitHubPR) (id : Z) :
  match get_comment_by_id pr id with
  | inr comment =>
      database_id comment = id
      /\ (In comment (get_comments pr)
          \/ (pr_comments pr = None /\ In comment (pr_comments_nodes pr)))
  | inl e =>
      e = RuntimeError ("Comment with id " +:+ pretty id +:+ " not found")
      /\ forall comment, In comment (get_comments pr) -> database_id comment <> id
  end.
Proof.
  unfold get_comment_by_id, find_comment.
  destruct (pr_comments pr) as [cached|] eqn:Ecache.
  - destruct (List.find _ (get_comments pr)) as [c|] eqn:Efind.
    + apply find_some in Efind as [Hin Hid]. apply Z.eqb_eq in Hid. auto.
    + split; [reflexivity|]. intros c Hin Hid.
      pose proof (find_none _ _ Efind c Hin) as Hc. cbv beta in Hc.
      apply Z.eqb_neq in Hc. contradiction.
  - destruct (List.find _ (pr_comments_nodes pr)) as [c|] eqn:Efast.
    + apply find_some in Efast as [Hin Hid]. apply Z.eqb_eq in Hid. auto.
    + destruct (List.find _ (get_comments pr)) as [c|] eqn:Efind.
      * apply find_some in Efind as [Hin Hid]. apply Z.eqb_eq in Hid. auto.
      * split; [reflexivity|]. intros c Hin Hid.
        pose proof (find_none _ _ Efind c Hin) as Hc. cbv beta in Hc.
        apply Z.eqb_neq in Hc. contradiction.
Qed.

(** *** The rule evaluator: what a returned rule guarantees *)

Lemma rules_loop_returns F pr smc sic changed approved checks rules rule0 score reason r :
  rules_loop F pr smc sic changed approved checks rules rule0 score reason = inr r ->
  In r rules
  /\ verdict_of F pr smc changed approved checks r = Passed
  /\ negb sic && has_internal_changes pr = false.
Proof.
  revert rule0 score reason.
  induction rules as [|r0 rules IH]; intros rule0 score reason; cbn [rules_loop].
  - destruct (score =? 20000)%Z; discriminate.
  - rewrite try_rule_verdict.
    destruct (verdict_of F pr smc changed approved checks r0) as [s m| |e] eqn:Ev.
    + destruct (score <? s)%Z; intros H; apply IH in H;
        destruct H as (Hin & Hv & Hi); (split; [right; exact Hin | auto]).
    + destruct (negb sic && has_internal_changes pr) eqn:Ei; [discriminate|].
      intros H. injection H as <-. split; [left; reflexivity | auto].
    + discriminate.
Qed.

Lemma approvers_disjoint_false (approvers approved_by : list string) :
  approvers_disjoint approvers approved_by = false ->
  approvers = [] \/ exists login, In login approved_by /\ login ∈ approvers.
Proof.
  unfold approvers_disjoint. destruct approvers as [|a approvers]; [auto|].
  intros H. right. apply negb_false_iff, existsb_exists in H as (login & Hin & Hmem).
  exists login. split; [exact Hin|]. apply bool_decide_eq_true in Hmem. exact Hmem.
Qed.

(** X5: a rule returned by [find_matching_merge_rule] is a rule of the file,
    every changed file matches its patterns, the PR has an approval when the
    rule lists approvers and an approver in common with the rule when its
    expanded approver set is not empty, none of the checks it requires is
    pending or failed, and the PR has no internal changes unless the
    internal checks are skipped. *)
Theorem find_matching_merge_rule_sound (F : Forge) (pr : GitHubPR) (smc sic : bool)
    (land : option string) (r : MergeRule) :
  find_matching_merge_rule F pr smc sic land = inr r ->
  exists changed,
    get_changed_files pr = inr changed
    /\ In r (merge_rules F)
    /\ (forall fname, In fname changed -> patterns_match F (mr_patterns r) fname = true)
    /\ (mr_approved_by r <> [] -> get_approved_by pr <> [])
    /\ (exists approvers,
          expand_approvers F (mr_approved_by r) = inr approvers
          /\ (approvers = []
              \/ exists login, In login (get_approved_by pr) /\ login ∈ approvers))
    /\ categorize_checks (get_combined_checks_from_pr_and_land_validation F pr land)
         (required_checks_of smc r) 3 = ([], [])
    /\ (sic = false -> has_internal_changes pr = false).
Proof.
  unfold find_matching_merge_rule, bind.
  destruct (get_changed_files pr) as [e|changed]; [discriminate|].
  destruct (merge_rules F) as [|r0 rules] eqn:Erules; [discriminate|].
  intros H. apply rules_loop_returns in H as (Hin & Hv & Hi).
  exists changed. split; [reflexivity|]. split; [exact Hin|].
  unfold verdict_of in Hv.
  destruct (forallb (patterns_match F (mr_patterns r)) changed) eqn:Efiles;
    cbn [negb] in Hv; [|discriminate].
  split; [apply forallb_forall; exact Efiles|].
  assert (Hrest :
    match expand_approvers F (mr_approved_by r) with
    | inl e => Crashed e
    | inr approvers =>
        if approvers_disjoint approvers (get_approved_by pr)
        then Rejected 10000 (approval_reason F (mr_name r) approvers)
        else checks_verdict pr (mr_name r)
               (categorize_checks (get_combined_checks_from_pr_and_land_validation F pr land)
                  (required_checks_of smc r) 3)
    end = Passed
    /\ (mr_approved_by r <> [] -> get_approved_by pr <> [])).
  { destruct (mr_approved_by r) as [|a l], (get_approved_by pr) as [|x xs];
      try discriminate; (split; [exact Hv | congruence]). }
  destruct Hrest as [Hrest Hreviewed]. split; [exact Hreviewed|].
  destruct (expand_approvers F (mr_approved_by r)) as [e|approvers]; [discriminate|].
  destruct (approvers_disjoint approvers (get_approved_by pr)) eqn:Edisj; [discriminate|].
  split; [exists approvers; split; [reflexivity | apply approvers_disjoint_false; exact Edisj]|].
  split.
  - destruct (categorize_checks _ _ 3) as [[|p pending] [|f failed]];
      try discriminate; reflexivity.
  - intros ->. exact Hi.
Qed.

Lemma find_matching_merge_rule_sound_witness :
  exists changed,
    get_changed_files (sample_pr false []) = inr changed
    /\ forall fname, In fname changed ->
         patterns_match (sample_forge [sample_rule None]) ["core/"] fname = true.
Proof.
  destruct (find_matching_merge_rule_sound (sample_forge [sample_rule None])
              (sample_pr false []) false false None (sample_rule None) eq_refl)
    as (changed & Hfiles & _ & Hmatch & _).
  exists changed. split; [exact Hfiles | exact Hmatch].
Defined.

(** *** Revert validation: what an accepted revert guarantees *)

(** X6: when [validate_revert] returns [(login, sha)], the triggering comment
    was not edited, its author is [login] and has an allowed association, the
    rule evaluator accepted the PR with the mandatory checks skipped, [sha]
    is the merge commit of the PR or else the first commit git reports as
    resolving it, and the message of that commit carries no
    [Differential Revision] unless the internal checks may be skipped. *)
Theorem validate_revert_accepts (F : Forge) (repo : GitRepo) (pr : GitHubPR)
    (comment_id : option Z) (ops : list git_op) (login sha : string) :
  validate_revert F repo pr comment_id = (ops, inr (login, sha)) ->
  exists comment skip rule,
    triggering_comment pr comment_id = inr comment
    /\ editor_login comment = None
    /\ author_login comment = login
    /\ allowed_reverter (pr_isPrivate pr) (author_association comment)
    /\ can_skip_internal_checks pr comment_id = inr skip
    /\ find_matching_merge_rule F pr true skip None = inr rule
    /\ (pr_mergeCommit pr = Some sha
        \/ (pr_mergeCommit pr = None
            /\ head (commits_resolving_gh_pr repo (pr_num pr)) = Some sha))
    /\ (search_diff_rev (commit_message repo sha) = None \/ skip = true).
Proof.
  unfold validate_revert. fold (triggering_comment pr comment_id).
  destruct (triggering_comment pr comment_id) as [e|comment] eqn:Hc; [discriminate|].
  destruct (editor_login comment) eqn:Hed; [discriminate|].
  case_bool_decide as Hin; cbn [negb]; [|discriminate].
  destruct (can_skip_internal_checks pr comment_id) as [e|skip] eqn:Hskip; [discriminate|].
  destruct (find_matching_merge_rule F pr true skip None) as [e|rule] eqn:Hfind;
    [discriminate|].
  assert (Hallowed : allowed_reverter (pr_isPrivate pr) (author_association comment)).
  { unfold allowed_reverter. apply elem_of_app in Hin as [Hin|Hin]; [left; exact Hin|].
    destruct (pr_isPrivate pr).
    - apply list_elem_of_singleton in Hin. right. auto.
    - apply elem_of_nil in Hin. contradiction. }
  intros H. exists comment, skip, rule.
  destruct (pr_mergeCommit pr) as [oid|].
  - destruct (search_diff_rev (commit_message repo oid)) eqn:Erev.
    + destruct skip; cbn [negb] in H; [|discriminate].
      injection H as _ <- <-. repeat split; auto.
    + injection H as _ <- <-. repeat split; auto.
  - destruct (head (commits_resolving_gh_pr repo (pr_num pr))) as [first|] eqn:Ehead;
      [|discriminate].
    destruct (search_diff_rev (commit_message repo first)) eqn:Erev.
    + destruct skip; cbn [negb] in H; [|discriminate].
      injection H as _ <- <-. repeat split; auto.
    + injection H as _ <- <-. repeat split; auto.
Qed.

Lemma validate_revert_accepts_witness :
  exists comment,
    triggering_comment (sample_pr false [sample_comment "alice" "MEMBER" None 7]) None
    = inr comment
    /\ author_login comment = "alice"
    /\ allowed_reverter false (author_association comment).
Proof.
  destruct (validate_revert_accepts (sample_forge [sample_rule None]) sample_repo
              (sample_pr false [sample_comment "alice" "MEMBER" None 7]) None
              [CommitsResolvingGhPr 1001; CommitMessage "c0ffee"] "alice" "c0ffee")
    as (comment & skip & rule & Hc & _ & Hlogin & Hallowed & _).
  - vm_compute. reflexivity.
  - exists comment. auto.
Defined.

(** *** Commit messages: no [cc] line is left *)

Lemma matchless_cc_free (prev : option ascii) (s : string) :
  matchless RE_PR_CC_LINE prev s <-> cc_free prev s.
Proof.
  revert prev. induction s as [|c s IH]; intros prev; cbn [matchless cc_free];
    rewrite match_cc_line.
  - destruct (at_bol prev && cc_head ""); split; intros [H _]; (split; [|exact I]);
      congruence.
  - rewrite IH. destruct (at_bol prev && cc_head (String c s)); split; intros [H Hrest];
      (split; [|exact Hrest]); congruence.
Qed.

(** X7: in the body [gen_commit_message] composes for a non-stacked merge,
    [RE_PR_CC_LINE] matches at no position: every [cc] line is gone. *)
Theorem msg_body_has_no_cc_line (body : string) :
  matchless RE_PR_CC_LINE None (msg_body false body).
Proof.
  apply matchless_cc_free. unfold msg_body, re_sub.
  apply cc_free_sub_go; [lia|]. intros _. left. reflexivity.
Qed.

(** X8: a body in which [RE_PR_CC_LINE] matches nowhere goes into the commit
    message of a non-stacked merge unchanged. *)
Theorem msg_body_without_cc_line (body : string) :
  matchless RE_PR_CC_LINE None body -> msg_body false body = body.
Proof.
  intros H. unfold msg_body, re_sub. apply sub_go_cc_free.
  apply matchless_cc_free. exact H.
Qed.

Lemma msg_body_without_cc_line_witness :
  msg_body false ("Fixes the scheduler." +:+ String LF "" +:+ "cc nobody in particular")
  = "Fixes the scheduler." +:+ String LF "" +:+ "cc nobody in particular".
Proof.
  apply msg_body_without_cc_line. vm_compute. tauto.
Defined.

(** *** The differential revision of a body *)

Section rmatch_answers.
Context {A : Type}.

(** An answer of the matcher is an answer of its continuation. *)
Lemma rmatch_answer (r : regex) :
  forall (prev : option ascii) (s : string) (k : option ascii -> string -> option A) (a : A),
    rmatch r prev s k = Some a -> exists prev' s', k prev' s' = Some a.
Proof.
  induction r as [ |c|p| | |r1 IH1 r2 IH2|r IH|r IH|r IH]; intros prev s k a; cbn [rmatch].
  - eauto.
  - destruct s as [|c' s']; [discriminate|]. destruct (Ascii.eqb c c'); [eauto|discriminate].
  - destruct s as [|c' s']; [discriminate|]. destruct (p c'); [eauto|discriminate].
  - destruct (at_bol prev); [eauto|discriminate].
  - destruct (at_eol s); [eauto|discriminate].
  - intros H. apply IH1 in H as (p1 & s1 & H). apply IH2 in H. exact H.
  - destruct (rmatch r prev s k) eqn:E.
    + intros H. injection H as ->. apply IH in E. exact E.
    + eauto.
  - generalize (S (String.length s)) as n. intros n. revert prev s.
    induction n as [|n IHn]; intros prev s; cbn [star_loop]; [eauto|].
    destruct (rmatch r prev s _) eqn:E.
    + intros H. injection H as ->. apply IH in E as (p1 & s1 & E).
      destruct (String.length s1 <? String.length s)%nat; [|discriminate].
      apply IHn in E. exact E.
    + eauto.
  - generalize (S (String.length s)) as n. intros n. revert prev s.
    induction n as [|n IHn]; intros prev s; cbn [lazy_star_loop]; [eauto|].
    destruct (k prev s) eqn:Ek.
    + intros H. injection H as ->. eauto.
    + intros H. apply IH in H as (p1 & s1 & H).
      destruct (String.length s1 <? String.length s)%nat; [|discriminate].
      apply IHn in H. exact H.
Qed.

Lemma search_go_answer (try : option ascii -> string -> option A)
    (prev : option ascii) (s : string) (a : A) :
  search_go try prev s = Some a -> exists prev' s', try prev' s' = Some a.
Proof.
  revert prev. induction s as [|c s IH]; intros prev; cbn [search_go].
  - destruct (try prev "") eqn:E; [|discriminate]. intros H. injection H as ->. eauto.
  - destruct (try prev (String c s)) eqn:E.
    + intros H. injection H as ->. eauto.
    + apply IH.
Qed.

(** A greedy star over a class hands its continuation what is left behind a
    run of characters of the class. *)
Lemma star_cls_answer (p : ascii -> bool) (k : option ascii -> string -> option A)
    (prev : option ascii) (s : string) (a : A) :
  star_cls p k prev s = Some a ->
  exists run rest prev',
    s = run +:+ rest /\ all_chars p run = true /\ k prev' rest = Some a.
Proof.
  revert prev. induction s as [|c s IH]; intros prev; cbn [star_cls].
  - intros H. exists "", "", prev. auto.
  - destruct (p c) eqn:Ep.
    + destruct (star_cls p k (Some c) s) eqn:E.
      * intros H. injection H as ->. apply IH in E as (run & rest & prev' & -> & Hrun & Hk).
        exists (String c run), rest, prev'. repeat split; [|exact Hk].
        cbn [all_chars]. rewrite Ep, Hrun. reflexivity.
      * intros H. exists "", (String c s), prev. auto.
    + intros H. exists "", (String c s), prev. auto.
Qed.
End rmatch_answers.

Lemma substring_prefix (pre rest : string) :
  String.substring 0 (String.length pre) (pre +:+ rest) = pre.
Proof.
  induction pre as [|c pre IH].
  - destruct rest; reflexivity.
  - rewrite str_app_cons. cbn [String.length String.substring]. rewrite IH. reflexivity.
Qed.

(** X9: the differential revision read off a PR body is the letter [D]
    followed by one or more decimal digits. *)
Theorem get_diff_revision_shape (pr : GitHubPR) (rev : string) :
  get_diff_revision pr = Some rev ->
  exists d digits,
    rev = String "D" (String d digits)
    /\ is_digit d = true /\ all_chars is_digit digits = true.
Proof.
  unfold get_diff_revision, search_diff_rev. intros H.
  apply search_go_answer in H as (prev & s0 & H).
  apply rmatch_answer in H as (prev1 & s1 & H).
  rewrite rmatch_Cat in H. destruct s1 as [|c0 s1]; [discriminate|].
  rewrite rmatch_Chr_cons in H. destruct (Ascii.eqb_spec "D" c0) as [<-|]; [|discriminate].
  unfold Plus in H. rewrite rmatch_Cat in H. destruct s1 as [|d s1]; [discriminate|].
  rewrite rmatch_Cls_cons in H. destruct (is_digit d) eqn:Ed; [|discriminate].
  rewrite rmatch_star_cls in H.
  apply star_cls_answer in H as (run & rest & prev' & -> & Hrun & H).
  injection H as <-. exists d, run. split; [|auto].
  assert (Hlen : (S (S (String.length (run +:+ rest))) - String.length rest
                  = S (S (String.length run)))%nat)
    by (rewrite str_app_length; lia).
  rewrite Hlen. cbv iota. rewrite substring_prefix. reflexivity.
Qed.

Lemma get_diff_revision_shape_witness :
  exists d digits,
    "D12345" = String "D" (String d digits)
    /\ is_digit d = true /\ all_chars is_digit digits = true.
Proof.
  apply (get_diff_revision_shape sample_internal_pr "D12345"). vm_compute. reflexivity.
Defined.

(** *** The classifier: stability and the historical maps *)

Lemma cascade_idempotent (b1 b2 b3 : bool) (check : JobCheckState) :
  let cascade c :=
    if bool_decide (jcs_status c = Some "SUCCESS") then c
    else if b1 then set_classification c "BROKEN_TRUNK"
    else if b2 then set_classification c "FLAKY"
    else if b3 then set_classification c "FLAKY"
    else c in
  cascade (cascade check) = cascade check.
Proof.
  intros cascade. unfold cascade.
  destruct (bool_decide (jcs_status check = Some "SUCCESS")) eqn:E, b1, b2, b3;
    cbn [set_classification jcs_status]; rewrite ?E; reflexivity.
Qed.

Lemma classify_idempotent flaky head_sha_jobs merge_base_jobs name check :
  classify flaky head_sha_jobs merge_base_jobs name
    (classify flaky head_sha_jobs merge_base_jobs name check)
  = classify flaky head_sha_jobs merge_base_jobs name check.
Proof. unfold classify. apply cascade_idempotent. Qed.

(** X10: classifying again, with the same flaky rules and the same rows,
    checks that were already classified changes nothing. *)
Theorem get_classifications_stable (flaky : list FlakyRule) (rows : list Job)
    (head_sha : string) (checks : JobNameToStateDict) :
  NoDup (dict_keys checks) ->
  get_classifications flaky rows head_sha (get_classifications flaky rows head_sha checks)
  = get_classifications flaky rows head_sha checks.
Proof.
  intros Hnd. rewrite (get_classifications_map flaky rows head_sha checks Hnd).
  rewrite get_classifications_map.
  - rewrite map_map. apply map_ext. intros [name check]. cbn [fst snd].
    rewrite classify_idempotent. reflexivity.
  - unfold dict_keys. rewrite map_map. exact Hnd.
Qed.

Lemma get_classifications_stable_witness :
  get_classifications [] sample_rows "0a1b2c"
    (get_classifications [] sample_rows "0a1b2c" sample_checks)
  = get_classifications [] sample_rows "0a1b2c" sample_checks.
Proof.
  apply get_classifications_stable. compute_done.
Defined.

Lemma file_jobs_filed (head_sha : string) (rows : list Job) (h m : gmap string Job) :
  fold_left
    (fun maps rockset_result =>
       if bool_decide (job_head_sha rockset_result = head_sha)
       then (Historical.insert maps.1 (job_key rockset_result) rockset_result, maps.2)
       else (maps.1, Historical.insert maps.2 (job_key rockset_result) rockset_result))
    rows (h, m)
  = (filed (head_rows head_sha rows) h, filed (base_rows head_sha rows) m).
Proof.
  unfold filed, head_rows, base_rows. revert h m.
  induction rows as [|r rows IH]; intros h m; [reflexivity|].
  cbn [fold_left List.filter]. destruct (bool_decide (job_head_sha r = head_sha));
    cbn [negb fold_left fst snd]; apply IH.
Qed.

Lemma insert_lookup (d : gmap string Job) (key k : string) (val r : Job) :
  Historical.insert d key val !! k = Some r ->
  (k = key /\ r = val) \/ d !! k = Some r.
Proof.
  assert (Hins : <[key:=val]> d !! k = Some r -> (k = key /\ r = val) \/ d !! k = Some r).
  { destruct (decide (key = k)) as [->|Hne].
    - rewrite lookup_insert_eq. intros Hr. injection Hr as <-. auto.
    - rewrite lookup_insert_ne by exact Hne. auto. }
  unfold Historical.insert. destruct (d !! key) as [cur|] eqn:E; [|exact Hins].
  repeat case_bool_decide; auto.
Qed.

Lemma insert_present (d : gmap string Job) (key k : string) (val : Job) :
  is_Some (d !! k) \/ k = key -> is_Some (Historical.insert d key val !! k).
Proof.
  assert (Hins : is_Some (d !! k) \/ k = key -> is_Some (<[key:=val]> d !! k)).
  { destruct (decide (key = k)) as [->|Hne].
    - rewrite lookup_insert_eq. eauto.
    - rewrite lookup_insert_ne by exact Hne. intros [Hk|Hk]; [exact Hk | congruence]. }
  unfold Historical.insert. intros Hk. destruct (d !! key) as [cur|] eqn:E; [|auto].
  assert (is_Some (d !! k)) as Hsome by (destruct Hk as [Hk| ->]; [exact Hk | eauto]).
  repeat case_bool_decide; auto.
Qed.

Lemma filed_lookup (rows : list Job) (d : gmap string Job) (k : string) (r : Job) :
  filed rows d !! k = Some r -> (In r rows /\ job_key r = k) \/ d !! k = Some r.
Proof.
  unfold filed. revert d. induction rows as [|r0 rows IH]; intros d; cbn [fold_left]; [auto|].
  intros H. apply IH in H as [[Hin Hk]|H]; [left; split; [right|]; assumption|].
  apply insert_lookup in H as [[-> ->]|H]; [left; split; [left|]; reflexivity | auto].
Qed.

Lemma filed_present (rows : list Job) (d : gmap string Job) (k : string) :
  is_Some (d !! k) \/ (exists r, In r rows /\ job_key r = k) ->
  is_Some (filed rows d !! k).
Proof.
  unfold filed. revert d. induction rows as [|r0 rows IH]; intros d; cbn [fold_left].
  - intros [H|(r & [] & _)]. exact H.
  - intros H. apply IH. destruct H as [H|(r & [<-|Hin] & Hk)].
    + left. apply insert_present. auto.
    + left. apply insert_present. auto.
    + right. eauto.
Qed.

(** X11: the two maps of historical jobs.  A row stored under a key of the
    head map is a row of the store with that key and the head sha, a row
    stored in the merge-base map is one with another sha; and every row of
    the store has an entry under its key, in the map of its side. *)
Theorem file_jobs_sides (head_sha : string) (rows : list Job) :
  (forall k r, (file_jobs head_sha rows).1 !! k = Some r ->
               In r rows /\ job_key r = k /\ job_head_sha r = head_sha)
  /\ (forall k r, (file_jobs head_sha rows).2 !! k = Some r ->
                  In r rows /\ job_key r = k /\ job_head_sha r <> head_sha)
  /\ (forall r, In r rows ->
                if bool_decide (job_head_sha r = head_sha)
                then is_Some ((file_jobs head_sha rows).1 !! job_key r)
                else is_Some ((file_jobs head_sha rows).2 !! job_key r)).
Proof.
  unfold file_jobs. rewrite file_jobs_filed. cbn [fst snd]. split; [|split].
  - intros k r H. apply filed_lookup in H as [[Hin Hk]|H]; [|rewrite lookup_empty in H; discriminate].
    apply filter_In in Hin as [Hin Hsha]. apply bool_decide_eq_true in Hsha. auto.
  - intros k r H. apply filed_lookup in H as [[Hin Hk]|H]; [|rewrite lookup_empty in H; discriminate].
    apply filter_In in Hin as [Hin Hsha]. apply negb_true_iff, bool_decide_eq_false in Hsha.
    auto.
  - intros r Hin. case_bool_decide as Hsha.
    + apply filed_present. right. exists r. split; [|reflexivity].
      apply filter_In. split; [exact Hin|]. apply bool_decide_eq_true. exact Hsha.
    + apply filed_present. right. exists r. split; [|reflexivity].
      apply filter_In. split; [exact Hin|]. apply negb_true_iff, bool_decide_eq_false.
      exact Hsha.
Qed.

Lemma file_jobs_sides_witness :
  job_head_sha (mkJob "pull" "linux-test" 11 (Some "failure") "0a1b2c" (Some ["Timeout"]) 7)
  = "0a1b2c".
Proof.
  apply (proj1 (file_jobs_sides "0a1b2c" sample_rows) "pull / linux-test"
           (mkJob "pull" "linux-test" 11 (Some "failure") "0a1b2c" (Some ["Timeout"]) 7)).
  vm_compute. reflexivity.
Defined.

Lemma insert_other (d : gmap string Job) (key k : string) (val : Job) :
  k <> key -> Historical.insert d key val !! k = d !! k.
Proof.
  intros Hne. unfold Historical.insert. destruct (d !! key) as [cur|].
  - repeat case_bool_decide; try reflexivity; apply lookup_insert_ne; congruence.
  - apply lookup_insert_ne. congruence.
Qed.

Lemma insert_highest (d : gmap string Job) (key : string) (val : Job) :
  job_conclusion val <> Some "success" ->
  (forall cur, d !! key = Some cur -> job_conclusion cur <> Some "success") ->
  exists x,
    Historical.insert d key val !! key = Some x
    /\ job_conclusion x <> Some "success"
    /\ (job_id val <= job_id x)%Z
    /\ forall cur, d !! key = Some cur -> (job_id cur <= job_id x)%Z.
Proof.
  intros Hval Hd. unfold Historical.insert. destruct (d !! key) as [cur|] eqn:E.
  - rewrite (bool_decide_eq_false_2 _ (Hd cur eq_refl)). case_bool_decide as Hlt.
    + exists val. rewrite lookup_insert_eq. repeat split; auto; [lia|].
      intros cur' H. injection H as <-. lia.
    + exists cur. rewrite E. repeat split; auto; [lia|].
      intros cur' H. injection H as <-. lia.
  - exists val. rewrite lookup_insert_eq. repeat split; auto; [lia|]. discriminate.
Qed.

Lemma filed_highest (k : string) (rows : list Job) :
  (forall r, In r rows -> job_key r = k -> job_conclusion r <> Some "success") ->
  forall (d : gmap string Job) (stored : Job),
    (forall cur, d !! k = Some cur -> job_conclusion cur <> Some "success") ->
    filed rows d !! k = Some stored ->
    (forall r, In r rows -> job_key r = k -> (job_id r <= job_id stored)%Z)
    /\ (forall cur, d !! k = Some cur -> (job_id cur <= job_id stored)%Z).
Proof.
  unfold filed. induction rows as [|r0 rows IH]; intros Hrows d stored Hd; cbn [fold_left].
  - intros H. split; [intros r []|]. intros cur Hcur. rewrite Hcur in H.
    injection H as <-. lia.
  - intros H. destruct (decide (job_key r0 = k)) as [<-|Hk].
    + destruct (insert_highest d (job_key r0) r0) as (x & Hx & Hxs & Hval & Hcur).
      { apply Hrows; [left; reflexivity | reflexivity]. }
      { exact Hd. }
      destruct (IH (fun r Hin => Hrows r (or_intror Hin))
                  (Historical.insert d (job_key r0) r0) stored) as [IH1 IH2];
        [|exact H|].
      { intros cur Hc. rewrite Hx in Hc. injection Hc as <-. exact Hxs. }
      specialize (IH2 x Hx). split.
      * intros r [<-|Hin] Hr; [lia | auto].
      * intros cur Hc. specialize (Hcur cur Hc). lia.
    + destruct (IH (fun r Hin => Hrows r (or_intror Hin))
                  (Historical.insert d (job_key r0) r0) stored) as [IH1 IH2];
        [|exact H|].
      { intros cur Hc. rewrite insert_other in Hc by congruence. auto. }
      split.
      * intros r [<-|Hin] Hr; [congruence | auto].
      * intros cur Hc. apply IH2. rewrite insert_other by congruence. exact Hc.
Qed.

(** X12: when none of the jobs of a name on the PR head concluded with
    [success], the head map holds, for that name, a job with the highest id
    among them; likewise for the jobs filed under the merge base. *)
Theorem file_jobs_highest_id (head_sha : string) (rows : list Job) (k : string)
    (stored : Job) :
  ((file_jobs head_sha rows).1 !! k = Some stored ->
   (forall r, In r rows -> job_head_sha r = head_sha -> job_key r = k ->
              job_conclusion r <> Some "success") ->
   forall r, In r rows -> job_head_sha r = head_sha -> job_key r = k ->
             (job_id r <= job_id stored)%Z)
  /\ ((file_jobs head_sha rows).2 !! k = Some stored ->
      (forall r, In r rows -> job_head_sha r <> head_sha -> job_key r = k ->
                 job_conclusion r <> Some "success") ->
      forall r, In r rows -> job_head_sha r <> head_sha -> job_key r = k ->
                (job_id r <= job_id stored)%Z).
Proof.
  unfold file_jobs. rewrite file_jobs_filed. cbn [fst snd]. split.
  - intros Hstored Hnone r Hin Hsha Hk.
    destruct (filed_highest k (head_rows head_sha rows)) with (d := (∅ : gmap string Job))
      (stored := stored) as [Hmax _].
    + intros r' Hin' Hk'. apply filter_In in Hin' as [Hin' Hsha'].
      apply bool_decide_eq_true in Hsha'. auto.
    + intros cur Hcur. rewrite lookup_empty in Hcur. discriminate.
    + exact Hstored.
    + apply Hmax; [|exact Hk]. apply filter_In. split; [exact Hin|].
      apply bool_decide_eq_true. exact Hsha.
  - intros Hstored Hnone r Hin Hsha Hk.
    destruct (filed_highest k (base_rows head_sha rows)) with (d := (∅ : gmap string Job))
      (stored := stored) as [Hmax _].
    + intros r' Hin' Hk'. apply filter_In in Hin' as [Hin' Hsha'].
      apply negb_true_iff, bool_decide_eq_false in Hsha'. auto.
    + intros cur Hcur. rewrite lookup_empty in Hcur. discriminate.
    + exact Hstored.
    + apply Hmax; [|exact Hk]. apply filter_In. split; [exact Hin|].
      apply negb_true_iff, bool_decide_eq_false. exact Hsha.
Qed.

Lemma file_jobs_highest_id_witness :
  (job_id (mkJob "pull" "linux-test" 11 (Some "failure") "0a1b2c" (Some ["Timeout"]) 7)
   <= job_id (mkJob "pull" "linux-test" 11 (Some "failure") "0a1b2c" (Some ["Timeout"]) 7))%Z.
Proof.
  apply (proj1 (file_jobs_highest_id "0a1b2c" sample_rows "pull / linux-test"
                  (mkJob "pull" "linux-test" 11 (Some "failure") "0a1b2c" (Some ["Timeout"]) 7))).
  - vm_compute. reflexivity.
  - intros r [<-|[<-|[]]] _ _; discriminate.
  - left. reflexivity.
  - reflexivity.
  - reflexivity.
Defined.

(** *** Site-wide incidents *)

(** X13: [check_for_sev] never raises when the mandatory checks are skipped
    or the search reports no issue; otherwise it raises exactly when the body
    of some reported issue contains "merge blocking" in any letter case, and
    the error names the first such issue. *)
Theorem check_for_sev_spec (response : SevSearch) (skip_mandatory_checks : bool) :
  (skip_mandatory_checks = true -> check_for_sev response skip_mandatory_checks = inr tt)
  /\ (total_count response = 0%Z -> check_for_sev response skip_mandatory_checks = inr tt)
  /\ (forall e,
        check_for_sev response skip_mandatory_checks = inl e ->
        exists before body url after,
          sev_items response = before ++ (body, url) :: after
          /\ e = sev_error url
          /\ str_in "merge blocking" (lower body) = true
          /\ forall item, In item before -> str_in "merge blocking" (lower item.1) = false)
  /\ (skip_mandatory_checks = false ->
      total_count response <> 0%Z ->
      (exists item, In item (sev_items response)
                    /\ str_in "merge blocking" (lower item.1) = true) ->
      exists e, check_for_sev response skip_mandatory_checks = inl e).
Proof.
  unfold check_for_sev. split; [|split; [|split]].
  - intros ->. reflexivity.
  - intros ->. destruct skip_mandatory_checks; reflexivity.
  - intros e. destruct skip_mandatory_checks; [discriminate|].
    destruct (negb _); [|discriminate].
    induction (sev_items response) as [|[body url] items IH]; cbn [List.find]; [discriminate|].
    cbn [fst]. destruct (str_in "merge blocking" (lower body)) eqn:E.
    + intros H. injection H as <-. exists [], body, url, items. repeat split; auto.
      intros item [].
    + intros H. destruct (IH H) as (before & body' & url' & after & -> & He & Hb & Hbefore).
      exists ((body, url) :: before), body', url', after. repeat split; auto.
      intros item [<-|Hin]; auto.
  - intros -> Hcount (item & Hin & Hitem).
    rewrite (proj2 (Z.eqb_neq _ _) Hcount). cbn [negb].
    destruct (List.find _ (sev_items response)) as [found|] eqn:Efind; [eauto|].
    pose proof (find_none _ _ Efind item Hin) as Hnone. cbv beta in Hnone. congruence.
Qed.

Lemma check_for_sev_spec_witness :
  exists e,
    check_for_sev (mkSevSearch 1 [("This SEV is Merge Blocking.", "https://example/1")]) false
    = inl e.
Proof.
  apply (proj2 (proj2 (proj2 (check_for_sev_spec
           (mkSevSearch 1 [("This SEV is Merge Blocking.", "https://example/1")]) false)))
           eq_refl).
  - discriminate.
  - exists ("This SEV is Merge Blocking.", "https://example/1").
    split; [left; reflexivity | reflexivity].
Defined.

(** *** Land-time checks *)

Lemma relevant_all_keys (checks : JobNameToStateDict) :
  relevant_checknames checks (dict_keys checks) = dict_keys checks.
Proof.
  unfold relevant_checknames.
  assert (H : forall l, (forall name, In name l -> In name (dict_keys checks)) ->
                        List.filter
                          (fun name => existsb (fun x => str_in x name) (dict_keys checks)) l
                        = l).
  { induction l as [|name l IH]; intros Hl; [reflexivity|]. cbn [List.filter].
    assert (existsb (fun x => str_in x name) (dict_keys checks) = true) as ->.
    { apply existsb_exists. exists name. split; [apply Hl; left; reflexivity|].
      apply str_in_refl. }
    rewrite IH; [reflexivity|]. intros; apply Hl; right; assumption. }
  apply H. auto.
Qed.

Lemma missing_no_key (checks : JobNameToStateDict) :
  missing_checks checks (dict_keys checks) = [].
Proof.
  unfold missing_checks.
  assert (H : forall l, (forall name, In name l -> In name (dict_keys checks)) ->
                        List.filter
                          (fun p => forallb (fun name => negb (str_in p name)) (dict_keys checks))
                          l = []).
  { induction l as [|p l IH]; intros Hl; [reflexivity|]. cbn [List.filter].
    assert (forallb (fun name => negb (str_in p name)) (dict_keys checks) = false) as ->.
    { destruct (forallb _ _) eqn:E; [|reflexivity].
      rewrite forallb_forall in E. specialize (E p (Hl p (or_introl eq_refl))).
      rewrite str_in_refl in E. discriminate. }
    apply IH. intros; apply Hl; right; assumption. }
  rewrite H; auto.
Qed.

Lemma entries_nil (checks : JobNameToStateDict) (names : list string)
    (keep : JobCheckState -> bool) :
  entries checks names keep = [] <->
  forall name c, In name names -> dict_get name checks = Some c -> keep c = false.
Proof.
  split.
  - intros Hnil name c Hin Hget. destruct (keep c) eqn:K; [|reflexivity].
    assert (In (name, Some (jcs_url c)) (entries checks names keep)) as Habs
      by (apply entries_spec; eauto).
    rewrite Hnil in Habs. destruct Habs.
  - intros Hall. destruct (entries checks names keep) as [|[name url] l] eqn:E; [reflexivity|].
    assert (In (name, url) (entries checks names keep)) as Hin by (rewrite E; left; reflexivity).
    apply entries_spec in Hin as (c & Hin & Hget & K & _).
    rewrite (Hall name c Hin Hget) in K. discriminate.
Qed.

Lemma unclassified_categorized (checks : JobNameToStateDict) :
  well_named checks ->
  categorize_checks checks (dict_keys checks) 3
  = (entries checks (dict_keys checks) is_pending,
     entries checks (dict_keys checks) is_failed).
Proof.
  intros Hwn. unfold categorize_checks. rewrite missing_loop. cbn [app].
  fold (missing_checks checks (dict_keys checks)).
  rewrite missing_no_key, relevant_all_keys, categorize_loop. cbn [app].
  assert (entries checks (dict_keys checks) is_ok_failed = []) as ->.
  { apply entries_nil. intros name c _ Hget. apply dict_get_Some_In in Hget.
    destruct (Hwn _ _ Hget) as [_ Hc]. unfold is_ok_failed, benign. rewrite Hc.
    rewrite andb_false_r. reflexivity. }
  cbn [length Z.of_nat]. rewrite app_nil_r. reflexivity.
Qed.

(** X14: land validation passes exactly when the land-validation commit has
    at least one check and every one of its checks has a passing status; it
    fails with a [RuntimeError] exactly when some check concluded with a
    status that is not passing, flaky or not. *)
Theorem validate_land_time_checks_spec (F : Forge) (commit : string) :
  let checks := get_land_checkrun_conclusions F commit in
  (validate_land_time_checks F commit = inr tt <->
   checks <> []
   /\ forall k c, In (k, c) checks -> is_passing_status (jcs_status c) = true)
  /\ ((exists msg, validate_land_time_checks F commit = inl (RuntimeError msg)) <->
      exists k c, In (k, c) checks
                  /\ jcs_status c <> None
                  /\ is_passing_status (jcs_status c) = false).
Proof.
  intros checks. unfold validate_land_time_checks. fold checks.
  assert (Hnd : NoDup (dict_keys checks)) by apply flatten_NoDup.
  assert (Hwn : well_named checks) by apply flatten_well_named, aggregate_well_formed.
  assert (Hin : forall k c, In (k, c) checks <->
                            In k (dict_keys checks) /\ dict_get k checks = Some c).
  { intros k c. split.
    - intros H. split; [change k with (fst (k, c)); apply in_map; exact H|].
      apply dict_get_In; assumption.
    - intros [_ H]. apply dict_get_Some_In. exact H. }
  assert (Hfailed : entries checks (dict_keys checks) is_failed = [] <->
                    forall k c, In (k, c) checks ->
                                jcs_status c = None \/ is_passing_status (jcs_status c) = true).
  { rewrite entries_nil. split.
    - intros H k c Hkc. apply Hin in Hkc as [Hk Hget]. specialize (H k c Hk Hget).
      unfold is_failed, has_status, benign in H.
      destruct (Hwn k c (dict_get_Some_In _ _ _ Hget)) as [_ Hc]. rewrite Hc in H.
      destruct (jcs_status c); [|auto]. right.
      destruct (is_passing_status (Some s)); [reflexivity | discriminate H].
    - intros H k c Hk Hget. unfold is_failed, has_status.
      destruct (H k c (dict_get_Some_In _ _ _ Hget)) as [-> | ->]; [reflexivity|].
      destruct (jcs_status c); reflexivity. }
  assert (Hpending : entries checks (dict_keys checks) is_pending = [] <->
                     forall k c, In (k, c) checks -> jcs_status c <> None).
  { rewrite entries_nil. split.
    - intros H k c Hkc. apply Hin in Hkc as [Hk Hget]. specialize (H k c Hk Hget).
      unfold is_pending, has_status in H. destruct (jcs_status c); [discriminate|].
      discriminate H.
    - intros H k c Hk Hget. unfold is_pending, has_status.
      specialize (H k c (dict_get_Some_In _ _ _ Hget)).
      destruct (jcs_status c); [reflexivity | congruence]. }
  rewrite (unclassified_categorized checks Hwn).
  destruct checks as [|[k0 c0] rest] eqn:Echecks.
  { cbn [length Nat.eqb]. split.
    - split; [discriminate | intros [H _]; congruence].
    - split; [intros [msg H]; discriminate | intros (k & c & [] & _)]. }
  rewrite <- Echecks in *. assert (Hne : checks <> []) by (rewrite Echecks; discriminate).
  assert ((length checks =? 0)%nat = false) as -> by (rewrite Echecks; reflexivity).
  destruct (entries checks (dict_keys checks) is_failed) as [|f failed] eqn:Ef.
  - pose proof (proj1 Hfailed eq_refl) as Hf. cbn [length Nat.ltb Nat.leb].
    destruct (entries checks (dict_keys checks) is_pending) as [|p pending] eqn:Ep.
    + pose proof (proj1 Hpending eq_refl) as Hp. cbn [length Nat.ltb Nat.leb]. split.
      * split; [|reflexivity]. intros _. split; [exact Hne|]. intros k c Hkc.
        destruct (Hf k c Hkc) as [Hnone|Hpass]; [|exact Hpass].
        exfalso. exact (Hp k c Hkc Hnone).
      * split; [intros [msg H]; discriminate|].
        intros (k & c & Hkc & Hs & Hnp). destruct (Hf k c Hkc); congruence.
    + split.
      * split; [discriminate|]. intros [_ Hall]. exfalso.
        assert (p :: pending = []) as Habs; [|discriminate Habs].
        apply Hpending. intros k c Hkc Hnone. specialize (Hall k c Hkc).
        rewrite Hnone in Hall. discriminate.
      * split; [intros [msg H]; discriminate|].
        intros (k & c & Hkc & Hs & Hnp). destruct (Hf k c Hkc); congruence.
  - split.
    + split; [discriminate|]. intros [_ Hall]. exfalso.
      assert (f :: failed = []) as Habs; [|discriminate Habs].
      apply Hfailed. intros k c Hkc. right. exact (Hall k c Hkc).
    + split; [|intros _; eauto]. intros _.
      assert (Hf : In f (entries checks (dict_keys checks) is_failed))
        by (rewrite Ef; left; reflexivity).
      destruct f as [name url]. apply entries_spec in Hf as (c & _ & Hget & Hkeep & _).
      exists name, c. split; [apply dict_get_Some_In; exact Hget|].
      unfold is_failed, has_status in Hkeep.
      destruct (jcs_status c) as [st|]; [|discriminate Hkeep].
      split; [discriminate|]. destruct (is_passing_status (Some st)); [discriminate Hkeep|].
      reflexivity.
Qed.

(** *** Combined checks *)

Lemma dict_update_get {V : Type} (res d : list (string * V)) (k : string) :
  NoDup (dict_keys d) ->
  dict_get k (dict_update res d)
  = match dict_get k d with Some v => Some v | None => dict_get k res end.
Proof.
  unfold dict_update. revert res. induction d as [|[k0 v0] d IH]; intros res Hnd.
  - reflexivity.
  - cbn [fold_left fst snd dict_get]. simpl in Hnd. apply NoDup_cons in Hnd as [Hk0 Hnd].
    rewrite (IH _ Hnd). destruct (String.eqb_spec k k0) as [->|Hne].
    + assert (dict_get k0 d = None) as ->.
      { apply dict_get_None. intros Hin. apply Hk0. apply list_elem_of_In. exact Hin. }
      apply dict_get_set_eq.
    + rewrite dict_get_set_ne by congruence. reflexivity.
Qed.

Lemma dict_get_map {V W : Type} (g : string -> V -> W) (d : list (string * V)) (k : string) :
  dict_get k (map (fun item => (item.1, g item.1 item.2)) d)
  = option_map (g k) (dict_get k d).
Proof.
  induction d as [|[k0 v0] d IH]; [reflexivity|]. cbn [map dict_get fst snd].
  destruct (String.eqb_spec k k0) as [->|]; [reflexivity | exact IH].
Qed.

Lemma classify_same_result flaky head_sha_jobs merge_base_jobs name check :
  same_result check (classify flaky head_sha_jobs merge_base_jobs name check).
Proof.
  unfold classify, same_result.
  repeat match goal with
         | |- context [if ?b then _ else _] => destruct b
         end; cbn [set_classification jcs_name jcs_url jcs_status]; auto.
Qed.

Lemma dict_keys_get {V : Type} (d : list (string * V)) (k : string) :
  In k (dict_keys d) <-> dict_get k d <> None.
Proof.
  rewrite <- dict_mem_true. unfold dict_mem. destruct (dict_get k d); split; congruence.
Qed.

(** X15: the checks the rule evaluator works on.  For a PR whose own checks
    have distinct names, the combined checks have distinct names, which are
    the names of the PR checks and of the land-validation checks; a
    land-validation check replaces the PR check of the same name, and every
    other PR check is kept; name, url and status go through the classifier
    unchanged. *)
Theorem combined_checks_spec (F : Forge) (pr : GitHubPR) (land_check_commit : option string) :
  NoDup (dict_keys (get_checkrun_conclusions pr)) ->
  let pr_checks := get_checkrun_conclusions pr in
  let land := land_validation_checks F land_check_commit in
  let combined := get_combined_checks_from_pr_and_land_validation F pr land_check_commit in
  NoDup (dict_keys combined)
  /\ (forall k, In k (dict_keys combined) <->
                In k (dict_keys pr_checks) \/ In k (dict_keys land))
  /\ (forall k c, dict_get k land = Some c ->
                  exists c', dict_get k combined = Some c' /\ same_result c c')
  /\ (forall k c, dict_get k land = None -> dict_get k pr_checks = Some c ->
                  exists c', dict_get k combined = Some c' /\ same_result c c').
Proof.
  intros Hpr pr_checks land combined.
  assert (Hland : NoDup (dict_keys land)).
  { unfold land, land_validation_checks.
    destruct land_check_commit as [[|c s]|]; try apply NoDup_nil_2. apply flatten_NoDup. }
  assert (Hmerged : NoDup (dict_keys (dict_update pr_checks land)))
    by (apply dict_update_NoDup; exact Hpr).
  assert (Hcombined : combined = map (fun item =>
            (item.1,
             classify (flaky_rules F)
               (file_jobs (pr_last_commit_oid pr)
                  (rockset_results F (pr_last_commit_oid pr) (pr_merge_base pr))).1
               (file_jobs (pr_last_commit_oid pr)
                  (rockset_results F (pr_last_commit_oid pr) (pr_merge_base pr))).2
               item.1 item.2))
            (dict_update pr_checks land)).
  { unfold combined, get_combined_checks_from_pr_and_land_validation.
    fold pr_checks. fold (land_validation_checks F land_check_commit). fold land.
    apply get_classifications_map. exact Hmerged. }
  assert (Hget : forall k,
            dict_get k combined
            = option_map
                (classify (flaky_rules F)
                   (file_jobs (pr_last_commit_oid pr)
                      (rockset_results F (pr_last_commit_oid pr) (pr_merge_base pr))).1
                   (file_jobs (pr_last_commit_oid pr)
                      (rockset_results F (pr_last_commit_oid pr) (pr_merge_base pr))).2 k)
                (match dict_get k land with
                 | Some v => Some v
                 | None => dict_get k pr_checks
                 end)).
  { intros k. rewrite Hcombined, dict_get_map, (dict_update_get _ _ _ Hland). reflexivity. }
  split; [|split; [|split]].
  - rewrite Hcombined. unfold dict_keys. rewrite map_map. exact Hmerged.
  - intros k. rewrite !dict_keys_get, Hget.
    destruct (dict_get k land), (dict_get k pr_checks); cbn [option_map];
      split; intros H; try congruence; try (left; congruence); try (right; congruence).
    destruct H; congruence.
  - intros k c Hk. rewrite Hget, Hk. cbn [option_map]. eexists. split; [reflexivity|].
    apply classify_same_result.
  - intros k c Hk Hp. rewrite Hget, Hk, Hp. cbn [option_map]. eexists.
    split; [reflexivity|]. apply classify_same_result.
Qed.

Lemma combined_checks_spec_witness :
  NoDup (dict_keys (get_checkrun_conclusions sample_internal_pr))
  /\ NoDup (dict_keys (get_combined_checks_from_pr_and_land_validation
                         (sample_forge []) sample_internal_pr (Some "0a1b2c"))).
Proof.
  assert (H : NoDup (dict_keys (get_checkrun_conclusions sample_internal_pr)))
    by (vm_compute; apply NoDup_singleton).
  split; [exact H|].
  exact (proj1 (combined_checks_spec (sample_forge []) sample_internal_pr (Some "0a1b2c") H)).
Defined.

(** *** Forced merges *)

Lemma categorize_checks_no_required (checks : JobNameToStateDict) (threshold : Z) :
  categorize_checks checks [] threshold = ([], []).
Proof.
  unfold categorize_checks, relevant_checknames. cbn [fold_left existsb].
  assert (List.filter (fun _ : string => false) (dict_keys checks) = []) as ->.
  { induction (dict_keys checks) as [|k l IH]; [reflexivity | exact IH]. }
  cbn [fold_left length]. destruct (Z.of_nat 0 >? threshold)%Z; reflexivity.
Qed.

Lemma required_checks_of_forced (rule : MergeRule) :
  (forall x, In x (match mr_mandatory_checks_name rule with Some l => l | None => [] end) ->
             str_in "EasyCLA" x = false) ->
  required_checks_of true rule = [].
Proof.
  unfold required_checks_of. cbn [negb].
  induction (match mr_mandatory_checks_name rule with Some l => l | None => [] end)
    as [|x l IH]; intros H; [reflexivity|].
  cbn [List.filter]. rewrite (H x (or_introl eq_refl)). cbn [orb].
  apply IH. intros y Hy. apply H. right. exact Hy.
Qed.

Lemma has_internal_changes_same (pr pr' : GitHubPR) :
  pr_body pr = pr_body pr' ->
  internal_check_status pr = internal_check_status pr' ->
  has_internal_changes pr = has_internal_changes pr'.
Proof.
  unfold has_internal_changes, get_diff_revision, internal_check_status.
  intros -> Hstatus. destruct (search_diff_rev (pr_body pr')); [|reflexivity].
  destruct (dict_get "Meta Internal-Only Changes Check" (get_checkrun_conclusions pr))
    as [check|];
    destruct (dict_get "Meta Internal-Only Changes Check" (get_checkrun_conclusions pr'))
      as [check'|]; cbn [option_map] in Hstatus; try discriminate; [|reflexivity].
  injection Hstatus as ->. reflexivity.
Qed.

Lemma try_rule_forced F (pr pr' : GitHubPR) skip_internal_checks changed_files approved_by
    (checks checks' : JobNameToStateDict) score reason rule :
  required_checks_of true rule = [] ->
  pr_num pr = pr_num pr' ->
  (skip_internal_checks = false -> has_internal_changes pr = has_internal_changes pr') ->
  try_rule F pr true skip_internal_checks changed_files approved_by checks score reason rule
  = try_rule F pr' true skip_internal_checks changed_files approved_by checks' score reason
      rule.
Proof.
  intros Hreq Hnum Hgate. unfold try_rule, not_reviewed_reason.
  rewrite Hreq, !categorize_checks_no_required, Hnum.
  destruct skip_internal_checks; [reflexivity|]. rewrite (Hgate eq_refl). reflexivity.
Qed.

Lemma rules_loop_forced F (pr pr' : GitHubPR) skip_internal_checks changed_files approved_by
    (checks checks' : JobNameToStateDict) rules :
  cla_free rules ->
  pr_num pr = pr_num pr' ->
  (skip_internal_checks = false -> has_internal_changes pr = has_internal_changes pr') ->
  forall rule score reason,
    rules_loop F pr true skip_internal_checks changed_files approved_by checks
      rules rule score reason
    = rules_loop F pr' true skip_internal_checks changed_files approved_by checks'
        rules rule score reason.
Proof.
  intros Hcla Hnum Hgate. induction rules as [|r rules IH]; intros rule score reason;
    [reflexivity|].
  cbn [rules_loop].
  rewrite (try_rule_forced F pr pr' skip_internal_checks changed_files approved_by
             checks checks' score reason r).
  - destruct (try_rule F pr' true skip_internal_checks changed_files approved_by
                checks' score reason r); try reflexivity.
    apply IH. intros x y Hx. apply Hcla. right. exact Hx.
  - apply required_checks_of_forced. intros x Hx.
    apply (Hcla r x); [left; reflexivity | exact Hx].
  - exact Hnum.
  - exact Hgate.
Qed.

(** X16: the checks a forced merge looks at.  When no rule asks for a check
    named after [EasyCLA], the outcome of [find_matching_merge_rule] under
    [skip_mandatory_checks] depends on the checks of the PR through the
    status of the check of the internal tool only, and on no check at all
    under [skip_internal_checks]: two snapshots with the same repository,
    number, body, changed files and reviews, and the same status of that
    check, get the same rule or the same exception, whatever their other
    checks and the land-validation commits. *)
Theorem forced_merge_checks (F : Forge) (pr pr' : GitHubPR)
    (skip_internal_checks : bool) (land_check_commit land_check_commit' : option string) :
  cla_free (merge_rules F) ->
  same_request pr pr' ->
  (skip_internal_checks = false -> internal_check_status pr = internal_check_status pr') ->
  find_matching_merge_rule F pr true skip_internal_checks land_check_commit
  = find_matching_merge_rule F pr' true skip_internal_checks land_check_commit'.
Proof.
  intros Hcla (Horg & Hproject & Hnum & Hbody & Hfiles & Hcount & Hreviews) Hstatus.
  unfold find_matching_merge_rule, get_changed_files, get_approved_by, _get_reviews,
    no_rule_found_reason.
  rewrite Horg, Hproject, Hfiles, Hcount, Hreviews.
  destruct (negb _); [reflexivity|]. cbn [bind].
  destruct (merge_rules F) as [|r rules] eqn:Hrules; [reflexivity|].
  apply rules_loop_forced; [exact Hcla | exact Hnum|].
  intros Hskip. apply has_internal_changes_same; [exact Hbody | exact (Hstatus Hskip)].
Qed.

Lemma forced_merge_checks_witness :
  cla_free (merge_rules (sample_forge [sample_rule (Some ["lint"])]))
  /\ same_request sample_green_pr sample_red_pr
  /\ find_matching_merge_rule (sample_forge [sample_rule (Some ["lint"])])
       sample_green_pr true false None
     = find_matching_merge_rule (sample_forge [sample_rule (Some ["lint"])])
         sample_red_pr true false (Some "0a1b2c").
Proof.
  assert (H : cla_free (merge_rules (sample_forge [sample_rule (Some ["lint"])]))).
  { intros rule x [<-|[]] [<-|[]]. reflexivity. }
  assert (Hsame : same_request sample_green_pr sample_red_pr)
    by (repeat split; reflexivity).
  split; [exact H|]. split; [exact Hsame|].
  apply (forced_merge_checks (sample_forge [sample_rule (Some ["lint"])])
           sample_green_pr sample_red_pr false None (Some "0a1b2c") H Hsame).
  intros _. reflexivity.
Defined.

(** The status of the check of the internal tool does count: the forced
    merge of a PR with a differential revision is refused while that check
    has not succeeded. *)
Example forced_merge_internal_gate :
  find_matching_merge_rule (sample_forge [sample_rule None]) sample_internal_pr
    true false None
  = inl internal_changes_error
  /\ find_matching_merge_rule (sample_forge [sample_rule None]) sample_internal_pr
       true true None
     = inr (sample_rule None).
Proof. split; vm_compute; reflexivity. Qed.

(** *** Green checks *)

Lemma missing_checks_nil (check_runs : JobNameToStateDict) (required_checks : list string) :
  missing_checks check_runs required_checks = [] <->
  forall p, In p required_checks ->
            exists name, In name (dict_keys check_runs) /\ str_in p name = true.
Proof.
  unfold missing_checks. induction required_checks as [|p l IH]; cbn [List.filter].
  - split; [intros _ p [] | reflexivity].
  - destruct (forallb (fun name => negb (str_in p name)) (dict_keys check_runs)) eqn:E.
    + cbn [map]. split; [discriminate|]. intros H.
      destruct (H p (or_introl eq_refl)) as (name & Hin & Hs).
      rewrite forallb_forall in E. specialize (E name Hin). rewrite Hs in E. discriminate.
    + rewrite IH. split.
      * intros H q [<-|Hq]; [|apply H; exact Hq].
        destruct (existsb (fun name => str_in p name) (dict_keys check_runs)) eqn:X.
        -- apply existsb_exists in X. exact X.
        -- exfalso. assert (forallb (fun name => negb (str_in p name)) (dict_keys check_runs)
                            = true) as Habs; [|congruence].
           apply forallb_forall. intros name Hin.
           destruct (str_in p name) eqn:S; [|reflexivity].
           assert (existsb (fun name => str_in p name) (dict_keys check_runs) = true)
             by (apply existsb_exists; eauto). congruence.
      * intros H q Hq. apply H. right. exact Hq.
Qed.

(** X17: when [categorize_checks] reports nothing.  Both lists are empty
    exactly when every required pattern is contained in the name of some
    check, every relevant check has a status that is passing or a failure
    classified [FLAKY] or [BROKEN_TRUNK], and the classified failures are no
    more than the threshold. *)
Theorem categorize_checks_clear (check_runs : JobNameToStateDict)
    (required_checks : list string) (ok_failed_checks_threshold : Z) :
  let relevant := relevant_checknames check_runs required_checks in
  categorize_checks check_runs required_checks ok_failed_checks_threshold = ([], [])
  <->
  (forall p, In p required_checks ->
             exists name, In name (dict_keys check_runs) /\ str_in p name = true)
  /\ (forall name c, In name relevant -> dict_get name check_runs = Some c ->
                     has_status c = true
                     /\ (is_passing_status (jcs_status c) = true \/ benign c = true))
  /\ (Z.of_nat (length (entries check_runs relevant is_ok_failed))
      <= Z.max 0 ok_failed_checks_threshold)%Z.
Proof.
  intros relevant.
  assert (Heq : categorize_checks check_runs required_checks ok_failed_checks_threshold
                = (missing_checks check_runs required_checks
                     ++ entries check_runs relevant is_pending,
                   entries check_runs relevant is_failed
                     ++ (if (Z.of_nat (length (entries check_runs relevant is_ok_failed))
                             >? ok_failed_checks_threshold)%Z
                         then entries check_runs relevant is_ok_failed else []))).
  { unfold categorize_checks. rewrite missing_loop. cbn [app]. fold relevant.
    rewrite categorize_loop. cbn [app]. unfold missing_checks.
    destruct (_ >? _)%Z; rewrite ?app_nil_r; reflexivity. }
  rewrite Heq. clear Heq.
  generalize (entries check_runs relevant is_ok_failed) as ok_failed. intros ok_failed.
  split.
  - intros H. injection H as Hp Hf.
    apply app_eq_nil in Hp as [Hm Hp]. apply app_eq_nil in Hf as [Hf Hok].
    split; [apply missing_checks_nil; exact Hm|]. split.
    + intros name c Hin Hget.
      pose proof (proj1 (entries_nil _ _ _) Hp name c Hin Hget) as P.
      pose proof (proj1 (entries_nil _ _ _) Hf name c Hin Hget) as Q.
      unfold is_pending in P. unfold is_failed in Q.
      destruct (has_status c); [|discriminate]. split; [reflexivity|].
      destruct (is_passing_status (jcs_status c)); [left; reflexivity|].
      destruct (benign c); [right; reflexivity | discriminate].
    + destruct (Z.gtb_spec (Z.of_nat (length ok_failed)) ok_failed_checks_threshold).
      * rewrite Hok. cbn [length]. lia.
      * lia.
  - intros (Hm & Hall & Hcount).
    apply missing_checks_nil in Hm. rewrite Hm. cbn [app].
    assert (entries check_runs relevant is_pending = []) as ->.
    { apply entries_nil. intros name c Hin Hget. destruct (Hall name c Hin Hget) as [Hs _].
      unfold is_pending. rewrite Hs. reflexivity. }
    assert (entries check_runs relevant is_failed = []) as ->.
    { apply entries_nil. intros name c Hin Hget.
      destruct (Hall name c Hin Hget) as [Hs [Hp|Hb]]; unfold is_failed; rewrite Hs.
      - rewrite Hp. reflexivity.
      - rewrite Hb. rewrite andb_false_r. reflexivity. }
    cbn [app].
    destruct (Z.gtb_spec (Z.of_nat (length ok_failed)) ok_failed_checks_threshold);
      [|reflexivity].
    destruct ok_failed as [|x l]; [reflexivity|]. cbn [length] in *. lia.
Qed.

(** *** Changed files *)

Lemma concat_take_drop {A : Type} (n : nat) (pages : list (list A)) :
  concat pages = concat (take n pages) ++ concat (drop n pages).
Proof. rewrite <- concat_app, take_drop. reflexivity. Qed.

(** X18: the walk over the pages of changed files stops after a hundred
    pages.  For a PR whose [changedFiles] count is the number of its files,
    [get_changed_files] returns all the files when none lies behind the
    hundredth page, and raises the count mismatch otherwise. *)
Theorem get_changed_files_limit (pr : GitHubPR) :
  pr_changedFiles pr = Z.of_nat (length (concat (pr_files pr))) ->
  match get_changed_files pr with
  | inr files => files = concat (pr_files pr) /\ concat (drop 100 (pr_files pr)) = []
  | inl e =>
      e = RuntimeError "Changed file count mismatch"
      /\ concat (drop 100 (pr_files pr)) <> []
  end.
Proof.
  intros Hcount. unfold get_changed_files, walked. rewrite Hcount.
  pose proof (concat_take_drop 100 (pr_files pr)) as Hsplit.
  assert (Hlen : length (concat (pr_files pr))
                 = (length (concat (take 100 (pr_files pr)))
                    + length (concat (drop 100 (pr_files pr))))%nat)
    by (rewrite Hsplit at 1; apply length_app).
  destruct (Z.eqb_spec (Z.of_nat (length (concat (take 100 (pr_files pr)))))
              (Z.of_nat (length (concat (pr_files pr))))) as [Heq|Hne]; cbn [negb].
  - assert (Hnil : concat (drop 100 (pr_files pr)) = []).
    { destruct (concat (drop 100 (pr_files pr))); [reflexivity|]. cbn [length] in Hlen. lia. }
    split; [|exact Hnil]. rewrite Hsplit, Hnil, app_nil_r. reflexivity.
  - split; [reflexivity|]. intros Hnil. apply Hne. rewrite Hlen, Hnil. cbn [length].
    f_equal. lia.
Qed.

Lemma get_changed_files_limit_witness :
  pr_changedFiles (sample_pr false []) = Z.of_nat (length (concat (pr_files (sample_pr false []))))
  /\ get_changed_files (sample_pr false []) = inr ["core/a.py"].
Proof.
  split; [reflexivity|].
  pose proof (get_changed_files_limit (sample_pr false []) eq_refl) as H.
  destruct (get_changed_files (sample_pr false [])) as [e|files].
  - destruct H as [_ H]. exfalso. apply H. reflexivity.
  - destruct H as [-> _]. reflexivity.
Defined.

(** *** Commit authors *)

Lemma last_author_cons (login : string) (item : string * string)
    (commits : list (string * string)) :
  last_author login (item :: commits)
  = match last_author login commits with
    | Some author => Some author
    | None => if String.eqb item.1 login then Some item.2 else None
    end.
Proof.
  unfold last_author. cbn [List.filter]. destruct (String.eqb item.1 login); [|
    destruct (last _); reflexivity].
  cbn [map]. rewrite last_cons. reflexivity.
Qed.

Lemma fold_authors_get (login : string) (commits acc : list (string * string)) :
  dict_get login (fold_left (fun rc item => dict_set item.1 item.2 rc) commits acc)
  = match last_author login commits with
    | Some author => Some author
    | None => dict_get login acc
    end.
Proof.
  revert acc. induction commits as [|item commits IH]; intros acc; [reflexivity|].
  cbn [fold_left]. rewrite IH, last_author_cons.
  destruct (last_author login commits); [reflexivity|].
  rewrite dict_get_set. rewrite (String.eqb_sym login item.1).
  destruct (String.eqb item.1 login); reflexivity.
Qed.

Lemma fold_authors_single (login author : string) (commits : list (string * string)) :
  forallb (fun item => String.eqb item.1 login) commits = true ->
  fold_left (fun rc item => dict_set item.1 item.2 rc) commits [(login, author)]
  = [(login, default author (last (map snd commits)))].
Proof.
  revert author. induction commits as [|item commits IH]; intros author Hall; [reflexivity|].
  cbn [forallb] in Hall. apply andb_true_iff in Hall as [Hitem Hall].
  cbn [fold_left dict_set]. rewrite Hitem.
  apply String.eqb_eq in Hitem. rewrite Hitem. rewrite (IH _ Hall).
  cbn [map]. rewrite last_cons. destruct (last (map snd commits)); reflexivity.
Qed.

Lemma dict_set_length {V : Type} (k : string) (v : V) (d : list (string * V)) :
  (length d <= length (dict_set k v d))%nat.
Proof.
  induction d as [|[k0 v0] d IH]; cbn [dict_set length]; [lia|].
  destruct (String.eqb k k0); cbn [length]; lia.
Qed.

Lemma fold_authors_length (commits acc : list (string * string)) :
  (length acc
   <= length (fold_left (fun rc item => dict_set item.1 item.2 rc) commits acc))%nat.
Proof.
  revert acc. induction commits as [|item commits IH]; intros acc; cbn [fold_left]; [lia|].
  pose proof (IH (dict_set item.1 item.2 acc)).
  pose proof (dict_set_length item.1 item.2 acc). lia.
Qed.

Lemma fold_authors_many (login author : string) (commits : list (string * string)) :
  forallb (fun item => String.eqb item.1 login) commits = false ->
  (2 <= length (fold_left (fun rc item => dict_set item.1 item.2 rc) commits
                  [(login, author)]))%nat.
Proof.
  revert author. induction commits as [|item commits IH]; intros author Hall;
    [discriminate|].
  cbn [forallb] in Hall. cbn [fold_left dict_set].
  destruct (String.eqb item.1 login) eqn:Hitem.
  - cbn [andb] in Hall. apply String.eqb_eq in Hitem. rewrite Hitem. apply IH. exact Hall.
  - pose proof (fold_authors_length commits [(login, author); (item.1, item.2)]) as H.
    cbn [length] in H. exact H.
Qed.

(** X19: the author of a squashed PR.  When the count of commits fetched
    passes the assertion, [get_author] fails on a PR without commits; when
    all commits were made under one login it is the author line of the last
    commit; otherwise it is the author line of the last commit made under
    the login of the PR's creator, and the one of the first commit when the
    creator made none. *)
Theorem get_author_spec (c : CommitsWithAuthors) :
  ((cwa_totalCount c <= 250)%Z ->
   Z.of_nat (length (_fetch_authors c)) = cwa_totalCount c) ->
  get_author c
  = match _fetch_authors c with
    | [] => inl (Raised IndexError)
    | first :: _ =>
        inr (default first.2
               (if single_login (_fetch_authors c)
                then last (map snd (_fetch_authors c))
                else last_author (cwa_creator c) (_fetch_authors c)))
    end.
Proof.
  intros Hassert. unfold get_author, get_authors, get_committer_author.
  assert ((cwa_totalCount c <=? 250)%Z
          && negb (Z.of_nat (length (_fetch_authors c)) =? cwa_totalCount c)%Z = false) as ->.
  { destruct (Z.leb_spec (cwa_totalCount c) 250) as [Hle|]; [|reflexivity].
    rewrite (Hassert Hle), Z.eqb_refl. reflexivity. }
  destruct (_fetch_authors c) as [|first rest]; [reflexivity|].
  cbn [single_login]. destruct (forallb (fun item => String.eqb item.1 first.1) rest) eqn:Hall.
  - cbn [fold_left dict_set]. rewrite (fold_authors_single _ _ _ Hall).
    cbn [map]. rewrite last_cons. destruct (last (map snd rest)); reflexivity.
  - pose proof (fold_authors_many first.1 first.2 rest Hall) as Hlen.
    pose proof (fold_authors_get (cwa_creator c) (first :: rest) []) as Hget.
    cbn [fold_left dict_set] in Hget |- *.
    destruct (fold_left (fun rc item => dict_set item.1 item.2 rc) rest [(first.1, first.2)])
      as [|[k1 v1] [|[k2 v2] l]] eqn:E; cbn [length] in Hlen; try lia.
    rewrite Hget. cbn [dict_get nth_error].
    destruct (last_author (cwa_creator c) (first :: rest)); reflexivity.
Qed.

Lemma get_author_spec_witness :
  ((cwa_totalCount sample_commits <= 250)%Z ->
   Z.of_nat (length (_fetch_authors sample_commits)) = cwa_totalCount sample_commits)
  /\ get_author sample_commits = inr "Alice <alice@work.com>".
Proof.
  assert (H : (cwa_totalCount sample_commits <= 250)%Z ->
              Z.of_nat (length (_fetch_authors sample_commits))
              = cwa_totalCount sample_commits) by (intros _; reflexivity).
  split; [exact H|]. rewrite (get_author_spec sample_commits H). reflexivity.
Defined.

(** *** ghstack head references *)

Lemma star_cls_complete {A : Type} (p : ascii -> bool)
    (k : option ascii -> string -> option A) (run rest : string) :
  all_chars p run = true ->
  (forall prev, k prev rest <> None) ->
  forall prev, star_cls p k prev (run +:+ rest) <> None.
Proof.
  intros Hrun Hk. induction run as [|c run IH]; intros prev.
  - rewrite str_app_nil. destruct rest as [|c s]; cbn [star_cls]; [apply Hk|].
    destruct (p c); [|apply Hk]. destruct (star_cls p k (Some c) s); [discriminate|apply Hk].
  - cbn [all_chars] in Hrun. apply andb_true_iff in Hrun as [Hc Hrun].
    rewrite str_app_cons. cbn [star_cls]. rewrite Hc.
    specialize (IH Hrun (Some c)). destruct (star_cls p k (Some c) (run +:+ rest));
      [discriminate | contradiction].
Qed.

Lemma at_end_spec (s : string) : at_end s = true <-> s = "" \/ s = String LF "".
Proof.
  destruct s as [|c [|c' s]]; cbn [at_end].
  - split; auto.
  - rewrite Ascii.eqb_eq. split; [intros ->; auto | intros [H|H]; congruence].
  - split; [discriminate | intros [H|H]; discriminate].
Qed.

Ltac chr_step E :=
  rewrite ?rmatch_Cat in E;
  match type of E with
  | rmatch (Chr ?c0) _ ?s _ = Some _ =>
      let c := fresh "c" in
      let s' := fresh "s" in
      destruct s as [|c s']; [discriminate E|];
      rewrite rmatch_Chr_cons in E;
      destruct (Ascii.eqb_spec c0 c) as [<-|]; [|discriminate E];
      cbv beta in E
  end.

Ltac cls_step E H :=
  rewrite ?rmatch_Cat in E;
  match type of E with
  | rmatch (Cls ?p) _ ?s _ = Some _ =>
      let c := fresh "c" in
      let s' := fresh "s" in
      destruct s as [|c s']; [discriminate E|];
      rewrite rmatch_Cls_cons in E;
      destruct (p c) eqn:H; [|discriminate E];
      cbv beta in E
  end.

(** X20: which head references are ghstack's.  [is_ghstack_pr] holds exactly
    of [gh/<user>/<num>/head], where the user is a non-empty text without a
    slash and the number a non-empty run of digits, possibly followed by one
    final line feed. *)
Theorem is_ghstack_pr_spec (head_ref : string) :
  is_ghstack_pr head_ref = true <->
  exists user num tail,
    head_ref = "gh/" +:+ user +:+ "/" +:+ num +:+ "/head" +:+ tail
    /\ user <> "" /\ all_chars not_slash user = true
    /\ num <> "" /\ all_chars is_digit num = true
    /\ (tail = "" \/ tail = String LF "").
Proof.
  unfold is_ghstack_pr, RE_GHSTACK_HEAD_REF, Plus. split.
  - destruct (rmatch _ _ _ _) eqn:E; [intros _|discriminate].
    cbn [Str] in E. chr_step E. chr_step E. chr_step E.
    cls_step E Hc. rewrite rmatch_star_cls in E.
    apply star_cls_answer in E as (run & rest & prev1 & -> & Hrun & E).
    chr_step E. cls_step E Hd. rewrite rmatch_star_cls in E.
    apply star_cls_answer in E as (run2 & rest2 & prev2 & -> & Hrun2 & E).
    chr_step E. chr_step E. chr_step E. chr_step E. chr_step E.
    destruct (at_end s) eqn:Hend; [|discriminate E]. apply at_end_spec in Hend.
    exists (String c run), (String c0 run2), s. repeat split.
    + discriminate.
    + cbn [all_chars]. rewrite Hc, Hrun. reflexivity.
    + discriminate.
    + cbn [all_chars]. rewrite Hd, Hrun2. reflexivity.
    + exact Hend.
  - intros (user & num & tail & -> & Huser & Hu & Hnum & Hn & Htail).
    destruct user as [|c run]; [contradiction|]. destruct num as [|c0 run2]; [contradiction|].
    cbn [all_chars] in Hu, Hn.
    apply andb_true_iff in Hu as [Hc Hrun]. apply andb_true_iff in Hn as [Hd Hrun2].
    apply at_end_spec in Htail.
    change ("gh/" +:+ String c run +:+ "/" +:+ String c0 run2 +:+ "/head" +:+ tail)
      with (String "g" (String "h" (String "/" (String c
              (run +:+ String "/" (String c0 (run2 +:+ String "/"
                 (String "h" (String "e" (String "a" (String "d" tail))))))))))).
    match goal with
    | |- match ?m with Some _ => true | None => false end = true =>
        assert (m <> None) as Hm; [|destruct m; [reflexivity | contradiction]]
    end.
    cbn [Str]. rewrite !rmatch_Cat, !rmatch_Chr_cons. cbn [Ascii.eqb Bool.eqb].
    rewrite !rmatch_Cat, !rmatch_Chr_cons. cbn [Ascii.eqb Bool.eqb].
    rewrite !rmatch_Cat, rmatch_Cls_cons, Hc, rmatch_star_cls.
    apply star_cls_complete; [exact Hrun|]. intros prev1.
    rewrite !rmatch_Cat, rmatch_Chr_cons. cbn [Ascii.eqb Bool.eqb].
    rewrite !rmatch_Cat, rmatch_Cls_cons, Hd, rmatch_star_cls.
    apply star_cls_complete; [exact Hrun2|]. intros prev2.
    rewrite !rmatch_Cat, rmatch_Chr_cons. cbn [Ascii.eqb Bool.eqb].
    rewrite !rmatch_Cat, rmatch_Chr_cons. cbn [Ascii.eqb Bool.eqb].
    rewrite !rmatch_Cat, rmatch_Chr_cons. cbn [Ascii.eqb Bool.eqb].
    rewrite !rmatch_Cat, rmatch_Chr_cons. cbn [Ascii.eqb Bool.eqb].
    rewrite rmatch_Chr_cons. cbn [Ascii.eqb Bool.eqb].
    rewrite Htail. discriminate.
Qed.

(** *** The wait loop *)

Lemma categorize_checks_eq (check_runs : JobNameToStateDict)
    (required_checks : list string) (threshold : Z) :
  categorize_checks check_runs required_checks threshold
  = (missing_checks check_runs required_checks
       ++ entries check_runs (relevant_checknames check_runs required_checks) is_pending,
     entries check_runs (relevant_checknames check_runs required_checks) is_failed
       ++ (if (Z.of_nat
                 (length (entries check_runs
                            (relevant_checknames check_runs required_checks) is_ok_failed))
               >? threshold)%Z
           then entries check_runs (relevant_checknames check_runs required_checks)
                  is_ok_failed
           else [])).
Proof.
  unfold categorize_checks. rewrite missing_loop. cbn [app].
  rewrite categorize_loop. cbn [app]. unfold missing_checks.
  destruct (_ >? _)%Z; rewrite ?app_nil_r; reflexivity.
Qed.

Lemma relevant_covering (checks : JobNameToStateDict) (patterns : list string) :
  (forall name, In name (dict_keys checks) ->
                exists p, In p patterns /\ str_in p name = true) ->
  relevant_checknames checks patterns = dict_keys checks.
Proof.
  unfold relevant_checknames. induction (dict_keys checks) as [|name l IH]; intros H;
    [reflexivity|].
  cbn [List.filter].
  assert (existsb (fun x => str_in x name) patterns = true) as ->.
  { apply existsb_exists. apply H. left. reflexivity. }
  rewrite IH; [reflexivity|]. intros n Hn. apply H. right. exact Hn.
Qed.

Lemma every_check_relevant (checks : JobNameToStateDict) (required_checks : list string) :
  relevant_checknames checks
    (required_checks
     ++ List.filter (fun x => negb (bool_decide (x ∈ required_checks))) (dict_keys checks))
  = dict_keys checks.
Proof.
  apply relevant_covering. intros name Hname. exists name. split; [|apply str_in_refl].
  apply in_or_app. destruct (decide (name ∈ required_checks)) as [Hin|Hnot].
  - left. apply list_elem_of_In. exact Hin.
  - right. apply filter_In. split; [exact Hname|].
    rewrite bool_decide_eq_false_2 by exact Hnot. reflexivity.
Qed.

Lemma startup_failures_In (checks : JobNameToStateDict) (name : string) (c : JobCheckState) :
  In (name, c) checks -> jcs_status c = Some "STARTUP_FAILURE" ->
  (0 <? length (filter_checks_with_lambda checks
                  (fun status => bool_decide (status = Some "STARTUP_FAILURE"))))%nat = true.
Proof.
  intros Hin Hs. apply Nat.ltb_lt. unfold filter_checks_with_lambda.
  assert (In c (map snd (List.filter
                           (fun item => bool_decide (jcs_status item.2 = Some "STARTUP_FAILURE"))
                           checks))) as H.
  { apply in_map_iff. exists (name, c). split; [reflexivity|]. apply filter_In.
    split; [exact Hin|]. apply bool_decide_eq_true_2. exact Hs. }
  destruct (map snd _); [destruct H | cbn [length]; lia].
Qed.

(** X21: the wait loop of [merge] waits for every check of the PR, not only
    for the mandatory ones.  An attempt reaches [merge_into] only when every
    check of the combined checks is concluded, and passing or a failure
    classified as flaky or as broken trunk, with at most three such
    failures; and a check with the status [STARTUP_FAILURE] ends the loop
    with an exception, however it is classified. *)
Theorem merge_attempt_spec (F : Forge) (pr : GitHubPR) (land_checks : bool)
    (land_check_commit : option string) :
  let checks := get_combined_checks_from_pr_and_land_validation F pr land_check_commit in
  (merge_attempt F pr land_checks land_check_commit = MergeInto ->
   (forall name c, dict_get name checks = Some c -> green c)
   /\ (length (entries checks (dict_keys checks) is_ok_failed) <= 3)%nat)
  /\ (forall name c, In (name, c) checks -> jcs_status c = Some "STARTUP_FAILURE" ->
                     exists e, merge_attempt F pr land_checks land_check_commit = Leave e).
Proof.
  intros checks. unfold merge_attempt. fold checks.
  set (inner := match find_matching_merge_rule F pr false false None with
                | inl (MandatoryChecksMissingError msg rule) => _
                | inl e => inl e
                | inr _ => _
                end).
  destruct inner as [e|[required_checks failed_rule_message]].
  - split; [discriminate|]. intros; eauto.
  - rewrite categorize_checks_eq, every_check_relevant.
    split.
    + destruct (0 <? length (filter_checks_with_lambda _ _))%nat; [discriminate|].
      destruct (0 <? length (entries checks (dict_keys checks) is_failed ++ _))%nat eqn:Hf;
        [discriminate|].
      destruct (0 <? length (missing_checks checks _ ++ _))%nat eqn:Hp;
        [destruct failed_rule_message; discriminate|].
      intros _. apply Nat.ltb_ge in Hf, Hp.
      assert (Hfailing : entries checks (dict_keys checks) is_failed
                         ++ (if (Z.of_nat (length (entries checks (dict_keys checks)
                                                     is_ok_failed)) >? 3)%Z
                             then entries checks (dict_keys checks) is_ok_failed else [])
                         = [])
        by (apply length_zero_iff_nil; lia).
      assert (Hpending : missing_checks checks
                           (required_checks
                            ++ List.filter
                                 (fun x => negb (bool_decide (x ∈ required_checks)))
                                 (dict_keys checks))
                         ++ entries checks (dict_keys checks) is_pending = [])
        by (apply length_zero_iff_nil; lia).
      clear Hf Hp. apply app_eq_nil in Hfailing as [Hfailed Hok].
      apply app_eq_nil in Hpending as [_ Hpending].
      split.
      * intros name c Hget.
        assert (Hname : In name (dict_keys checks))
          by (apply dict_keys_get; rewrite Hget; discriminate).
        pose proof (proj1 (entries_nil _ _ _) Hpending name c Hname Hget) as P.
        pose proof (proj1 (entries_nil _ _ _) Hfailed name c Hname Hget) as Q.
        unfold is_pending in P. unfold is_failed in Q. unfold green.
        destruct (has_status c); [|discriminate]. split; [reflexivity|].
        destruct (is_passing_status (jcs_status c)); [left; reflexivity|].
        destruct (benign c); [right; reflexivity | discriminate].
      * destruct (Z.gtb_spec (Z.of_nat (length (entries checks (dict_keys checks)
                                                  is_ok_failed))) 3); [|lia].
        rewrite Hok. cbn [length]. lia.
    + intros name c Hin Hs. rewrite (startup_failures_In checks name c Hin Hs). eauto.
Qed.

Lemma merge_attempt_spec_witness :
  merge_attempt (sample_forge [sample_rule (Some ["lint"])]) sample_green_pr false None
  = MergeInto
  /\ green (mkJobCheckState "ci/lint" "https://ci/lint" (Some "SUCCESS") None).
Proof.
  assert (H : merge_attempt (sample_forge [sample_rule (Some ["lint"])]) sample_green_pr
                false None = MergeInto) by (vm_compute; reflexivity).
  split; [exact H|].
  apply (proj1 (proj1 (merge_attempt_spec (sample_forge [sample_rule (Some ["lint"])])
                         sample_green_pr false None) H) "ci/lint").
  vm_compute. reflexivity.
Defined.

(** *** Check runs and status contexts *)

Lemma last_context_cons (name : string) (status : string * string * string)
    (contexts : list (string * string * string)) :
  last_context name (status :: contexts)
  = match last_context name contexts with
    | Some s => Some s
    | None => if String.eqb status.1.1 name then Some status else None
    end.
Proof.
  unfold last_context. cbn [List.filter]. destruct (String.eqb status.1.1 name);
    [|destruct (last _); reflexivity].
  rewrite last_cons. reflexivity.
Qed.

Lemma contexts_fold (contexts : list (string * string * string))
    (conclusions : JobNameToStateDict) :
  NoDup (dict_keys conclusions) -> well_named conclusions ->
  let result :=
    fold_left
      (fun conclusions status =>
         let '(name, state, targetUrl) := status in
         dict_set name (mkJobCheckState name targetUrl (Some state) None) conclusions)
      contexts conclusions in
  NoDup (dict_keys result) /\ well_named result
  /\ forall name,
       dict_get name result
       = match last_context name contexts with
         | Some (_, state, targetUrl) =>
             Some (mkJobCheckState name targetUrl (Some state) None)
         | None => dict_get name conclusions
         end.
Proof.
  revert conclusions. induction contexts as [|[[n state] url] contexts IH];
    intros conclusions Hnd Hwn; cbn zeta.
  - cbn [fold_left]. split; [exact Hnd|]. split; [exact Hwn|]. intros name. reflexivity.
  - cbn [fold_left].
    destruct (IH (dict_set n (mkJobCheckState n url (Some state) None) conclusions))
      as (IH1 & IH2 & IH3).
    + apply dict_set_NoDup. exact Hnd.
    + apply well_named_set; [exact Hwn | reflexivity | reflexivity].
    + split; [exact IH1|]. split; [exact IH2|]. intros name.
      rewrite IH3, last_context_cons. destruct (last_context name contexts); [reflexivity|].
      cbn [fst snd]. rewrite dict_get_set, (String.eqb_sym name n).
      destruct (String.eqb_spec n name) as [->|]; reflexivity.
Qed.

(** X22: the checks of a PR on its first reading.  They have distinct
    names, each is filed under its own name and has no classification; a
    status context replaces the check run of the same name, the last context
    of a name counting, and every other check is as
    [add_workflow_conclusions] gives it. *)
Theorem get_checkrun_conclusions_spec (pr : GitHubPR) :
  pr_conclusions pr = None ->
  NoDup (dict_keys (get_checkrun_conclusions pr))
  /\ well_named (get_checkrun_conclusions pr)
  /\ forall name,
       dict_get name (get_checkrun_conclusions pr)
       = match last_context name (pr_status_contexts pr) with
         | Some (_, state, targetUrl) =>
             Some (mkJobCheckState name targetUrl (Some state) None)
         | None => dict_get name (add_workflow_conclusions (pr_checksuites pr))
         end.
Proof.
  intros Hcache. unfold get_checkrun_conclusions. rewrite Hcache.
  apply contexts_fold.
  - unfold add_workflow_conclusions. apply flatten_NoDup.
  - unfold add_workflow_conclusions. apply flatten_well_named, aggregate_well_formed.
Qed.

Lemma get_checkrun_conclusions_spec_witness :
  pr_conclusions sample_internal_pr = None
  /\ dict_get "Meta Internal-Only Changes Check" (get_checkrun_conclusions sample_internal_pr)
     = Some (mkJobCheckState "Meta Internal-Only Changes Check" "https://ci/internal"
               (Some "FAILURE") None).
Proof.
  split; [reflexivity|].
  rewrite (proj2 (proj2 (get_checkrun_conclusions_spec sample_internal_pr eq_refl))).
  reflexivity.
Defined.

(** *** Labels *)

Lemma has_label_exists (labels : list string) (pattern : regex) :
  has_label labels pattern = true <->
  exists label, In label labels /\ re_match pattern label = true.
Proof.
  unfold has_label. rewrite Nat.ltb_lt. split.
  - intros Hlen. destruct (List.filter (re_match pattern) labels) as [|label l] eqn:E;
      [cbn [length] in Hlen; lia|].
    assert (In label (List.filter (re_match pattern) labels)) as Hin
      by (rewrite E; left; reflexivity).
    apply filter_In in Hin. exists label. exact Hin.
  - intros (label & Hin & Hm).
    assert (In label (List.filter (re_match pattern) labels)) as H
      by (apply filter_In; split; assumption).
    destruct (List.filter (re_match pattern) labels); [destruct H | cbn [length]; lia].
Qed.

Lemma ciflow_label_spec (label : string) :
  re_match CIFLOW_LABEL label = true <->
  exists c rest, label = "ciflow/" +:+ String c rest /\ c <> LF.
Proof.
  unfold re_match, match_at, CIFLOW_LABEL, Plus. split.
  - destruct (rmatch _ _ _ _) eqn:E; [intros _|discriminate].
    cbn [Str] in E. do 7 chr_step E. cls_step E Hc.
    do 2 eexists. split; [reflexivity|]. intros Heq. rewrite Heq in Hc. discriminate Hc.
  - intros (c & rest & -> & Hc).
    change ("ciflow/" +:+ String c rest)
      with (String "c" (String "i" (String "f" (String "l" (String "o" (String "w"
              (String "/" (String c rest)))))))).
    match goal with
    | |- match ?m with Some _ => true | None => false end = true =>
        assert (m <> None) as Hm; [|destruct m; [reflexivity | contradiction]]
    end.
    cbn [Str].
    do 7 (rewrite ?rmatch_Cat, rmatch_Chr_cons; cbn [Ascii.eqb Bool.eqb]).
    rewrite ?rmatch_Cat, rmatch_Cls_cons.
    assert (not_nl c = true) as ->.
    { unfold not_nl. apply negb_true_iff, Ascii.eqb_neq. exact Hc. }
    rewrite rmatch_star_cls. apply (star_cls_complete not_nl _ "" rest); [reflexivity|].
    discriminate.
Qed.

Lemma ciflow_trunk_label_spec (label : string) :
  re_match CIFLOW_TRUNK_LABEL label = true <-> exists rest, label = "ciflow/trunk" +:+ rest.
Proof.
  unfold re_match, match_at, CIFLOW_TRUNK_LABEL. split.
  - destruct (rmatch _ _ _ _) eqn:E; [intros _|discriminate].
    cbn [Str] in E. do 12 chr_step E. eexists. reflexivity.
  - intros (rest & ->). reflexivity.
Qed.

(** X23: which labels [has_label] looks for.  With [CIFLOW_LABEL] it holds
    exactly when some label is [ciflow/] followed by at least one character,
    the first of which is not a line feed; with [CIFLOW_TRUNK_LABEL] exactly
    when some label starts with [ciflow/trunk]; so a list with a trunk label
    has a ciflow label. *)
Theorem has_label_spec (labels : list string) :
  (has_label labels CIFLOW_LABEL = true <->
   exists label c rest, In label labels /\ label = "ciflow/" +:+ String c rest /\ c <> LF)
  /\ (has_label labels CIFLOW_TRUNK_LABEL = true <->
      exists label rest, In label labels /\ label = "ciflow/trunk" +:+ rest)
  /\ (has_label labels CIFLOW_TRUNK_LABEL = true -> has_label labels CIFLOW_LABEL = true).
Proof.
  assert (H1 : has_label labels CIFLOW_LABEL = true <->
               exists label c rest,
                 In label labels /\ label = "ciflow/" +:+ String c rest /\ c <> LF).
  { rewrite has_label_exists. split.
    - intros (label & Hin & Hm). apply ciflow_label_spec in Hm as (c & rest & Heq & Hc).
      exists label, c, rest. auto.
    - intros (label & c & rest & Hin & Heq & Hc). exists label. split; [exact Hin|].
      apply ciflow_label_spec. eauto. }
  assert (H2 : has_label labels CIFLOW_TRUNK_LABEL = true <->
               exists label rest, In label labels /\ label = "ciflow/trunk" +:+ rest).
  { rewrite has_label_exists. split.
    - intros (label & Hin & Hm). apply ciflow_trunk_label_spec in Hm as (rest & Heq).
      exists label, rest. auto.
    - intros (label & rest & Hin & Heq). exists label. split; [exact Hin|].
      apply ciflow_trunk_label_spec. eauto. }
  split; [exact H1|]. split; [exact H2|].
  intros Ht. apply H2 in Ht as (label & rest & Hin & ->). apply H1.
  exists ("ciflow/trunk" +:+ rest), "t"%char, ("runk" +:+ rest).
  split; [exact Hin|]. split; [reflexivity | discriminate].
Qed.
